(** * moltworker: the Worker in front of the OpenClaw gateway

    A shallow embedding of

    - [src/index.ts]        the Worker: error rewriting, the configuration
                            check, the catch-all proxy and its WebSocket relay;
    - [src/gateway/env.ts]  [buildEnvVars];
    - [start-moltbot.sh]    the container start-up script: the restore from the
                            R2 backup, the projection of the environment onto
                            [clawdbot.json], the launch of the gateway;

    and the properties of the design document proved about them.

    JavaScript strings are sequences of UTF-16 code units, the files of the
    container are byte strings.  Objects keep their properties in creation
    order, the way [JSON.stringify] prints them. *)

From Stdlib Require Import ZArith NArith List String Ascii Bool Lia.
From Stdlib Require Import DecimalString.
From stdpp Require Import base option list gmap strings.
Import ListNotations.

Local Open Scope bool_scope.

(** ** JavaScript strings *)

Module JS.

(** A code unit; a string is the list of its code units. *)
Definition jsstring : Type := list N.

(** The string a source literal denotes (the literals of the sources are
    ASCII). *)
Definition js (s : string) : jsstring :=
  map N_of_ascii (list_ascii_of_string s).

Fixpoint str_eqb (s t : jsstring) : bool :=
  match s, t with
  | [], [] => true
  | a :: s', b :: t' => N.eqb a b && str_eqb s' t'
  | _, _ => false
  end.

(** [s.startsWith(p)] *)
Fixpoint startsWith (s p : jsstring) : bool :=
  match p, s with
  | [], _ => true
  | b :: p', a :: s' => N.eqb a b && startsWith s' p'
  | _ :: _, [] => false
  end.

(** [s.endsWith(p)] *)
Definition endsWith (s p : jsstring) : bool :=
  startsWith (rev s) (rev p).

(** [s.includes(p)] *)
Fixpoint includes (s p : jsstring) : bool :=
  startsWith s p ||
  match s with
  | [] => false
  | _ :: s' => includes s' p
  end.

(** [s.indexOf(p)] as the pair of what precedes and what follows the first
    occurrence of [p]. *)
Fixpoint split_first (s p : jsstring) : option (jsstring * jsstring) :=
  if startsWith s p then Some ([], skipn (length p) s)
  else match s with
       | [] => None
       | a :: s' =>
           match split_first s' p with
           | Some (before, after) => Some (a :: before, after)
           | None => None
           end
       end.

(** GetSubstitution of ECMA-262 for a string pattern (no capture groups):
    [$$] is a dollar, [$&] the match, [$`] what precedes it, [$'] what follows
    it; every other dollar stands for itself. *)
Fixpoint GetSubstitution (matched before after template : jsstring) : jsstring :=
  match template with
  | 36%N :: 36%N :: t => 36%N :: GetSubstitution matched before after t
  | 36%N :: 38%N :: t => matched ++ GetSubstitution matched before after t
  | 36%N :: 96%N :: t => before ++ GetSubstitution matched before after t
  | 36%N :: 39%N :: t => after ++ GetSubstitution matched before after t
  | c :: t => c :: GetSubstitution matched before after t
  | [] => []
  end.

(** [s.replace(pattern, replacement)] with a string pattern: the first
    occurrence only. *)
Definition replace (s pattern replacement : jsstring) : jsstring :=
  match split_first s pattern with
  | Some (before, after) =>
      before ++ GetSubstitution pattern before after replacement ++ after
  | None => s
  end.

(** [s.replace(/\/+$/, '')]: the trailing run of slashes goes. *)
Fixpoint drop_slashes (l : jsstring) : jsstring :=
  match l with
  | 47%N :: l' => drop_slashes l'
  | _ => l
  end.

Definition strip_trailing_slashes (s : jsstring) : jsstring :=
  rev (drop_slashes (rev s)).

(** [parts.join(sep)] *)
Fixpoint join (sep : jsstring) (parts : list jsstring) : jsstring :=
  match parts with
  | [] => []
  | [x] => x
  | x :: rest => x ++ sep ++ join sep rest
  end.

(** ToBoolean of a string that may be [undefined]: set, and not to the empty string. *)
Definition is_set (x : option jsstring) : bool :=
  match x with
  | Some (_ :: _) => true
  | _ => false
  end.

(** [x === 'lit'] *)
Definition is_lit (x : option jsstring) (lit : string) : bool :=
  match x with
  | Some s => str_eqb s (js lit)
  | None => false
  end.

(** ** What the platform computes

    The conversions between Numbers and text and the Unicode case mapping are
    the engine's; the development is parametric in them.  A Number is kept as
    the numeric literal that denotes it. *)

Class Builtins : Type := {
  (** ToBoolean of the Number a literal denotes is false: it is a zero *)
  Number_is_zero : jsstring -> bool;
  (** what [JSON.stringify] prints for the Number a literal denotes *)
  Number_text : jsstring -> jsstring;
  (** [String.prototype.toLowerCase] *)
  toLowerCase : jsstring -> jsstring
}.

(** ** Values

    The values [JSON.parse] builds and the scripts update.  An array carries,
    besides its elements, the named properties a script may have put on it;
    [JSON.stringify] does not print those. *)

#[warnings="-register-all"] Inductive jsval : Type :=
| JUndefined
| JNull
| JBool (b : bool)
| JNum (literal : jsstring)
| JStr (s : jsstring)
| JArr (elems : list jsval) (props : list (jsstring * jsval))
| JObj (props : list (jsstring * jsval)).

Inductive exn : Type := TypeError | RangeError.

Inductive result (A : Type) : Type :=
| Ok (a : A)
| Throw (e : exn).
Arguments Ok {A} a.
Arguments Throw {A} e.

#[global] Instance result_ret : MRet result := fun A a => Ok a.
#[global] Instance result_bind : MBind result := fun A B f r =>
  match r with
  | Ok a => f a
  | Throw e => Throw e
  end.

(** *** Properties, in creation order *)

Section Props.
Context {A : Type}.

Fixpoint assoc (k : jsstring) (l : list (jsstring * A)) : option A :=
  match l with
  | [] => None
  | (k', v) :: l' => if str_eqb k k' then Some v else assoc k l'
  end.

(** An existing property keeps its place, a new one goes last. *)
Fixpoint assoc_set (k : jsstring) (v : A) (l : list (jsstring * A))
  : list (jsstring * A) :=
  match l with
  | [] => [(k, v)]
  | (k', v') :: l' =>
      if str_eqb k k' then (k', v) :: l' else (k', v') :: assoc_set k v l'
  end.

Fixpoint assoc_del (k : jsstring) (l : list (jsstring * A))
  : list (jsstring * A) :=
  match l with
  | [] => []
  | (k', v') :: l' =>
      if str_eqb k k' then assoc_del k l' else (k', v') :: assoc_del k l'
  end.
End Props.

(** ToBoolean *)
Definition truthy `{Builtins} (v : jsval) : bool :=
  match v with
  | JUndefined | JNull => false
  | JBool b => b
  | JNum l => negb (Number_is_zero l)
  | JStr s => negb (str_eqb s [])
  | JArr _ _ | JObj _ => true
  end.

(** [a || b] *)
Definition or_else `{Builtins} (a b : jsval) : jsval :=
  if truthy a then a else b.

(** The property names below are the ones written in the sources: plain
    names, none of them an array index, [length] or a name the prototypes
    define, so the own properties decide. *)

(** [v.k] *)
Definition js_get (v : jsval) (k : string) : result jsval :=
  match v with
  | JUndefined | JNull => Throw TypeError
  | JObj props | JArr _ props => Ok (default JUndefined (assoc (js k) props))
  | JBool _ | JNum _ | JStr _ => Ok JUndefined
  end.

(** [v.k = x], giving [v] afterwards.  On a primitive the assignment throws in
    strict code and is dropped in sloppy code. *)
Definition js_set (strict : bool) (v : jsval) (k : string) (x : jsval)
  : result jsval :=
  match v with
  | JUndefined | JNull => Throw TypeError
  | JObj props => Ok (JObj (assoc_set (js k) x props))
  | JArr elems props => Ok (JArr elems (assoc_set (js k) x props))
  | JBool _ | JNum _ | JStr _ => if strict then Throw TypeError else Ok v
  end.

(** [delete v.k], giving [v] afterwards. *)
Definition js_delete (v : jsval) (k : string) : result jsval :=
  match v with
  | JUndefined | JNull => Throw TypeError
  | JObj props => Ok (JObj (assoc_del (js k) props))
  | JArr elems props => Ok (JArr elems (assoc_del (js k) props))
  | JBool _ | JNum _ | JStr _ => Ok v
  end.


(** ** JSON *)

(** An array index: a canonical numeric string below 2^32 - 1.  Such keys
    come first, in ascending order, when the properties of an object are
    listed. *)
Definition is_digit (c : N) : bool := (48 <=? c)%N && (c <=? 57)%N.

Fixpoint digits_value (acc : N) (s : jsstring) : option N :=
  match s with
  | [] => Some acc
  | c :: s' =>
      if is_digit c then digits_value (acc * 10 + (c - 48))%N s' else None
  end.

Definition array_index (k : jsstring) : option N :=
  match k with
  | [] => None
  | [48%N] => Some 0%N
  | 48%N :: _ => None
  | _ =>
      match digits_value 0%N k with
      | Some n => if (n <? 4294967295)%N then Some n else None
      | None => None
      end
  end.

Section OwnKeys.
Context {A : Type}.

Fixpoint insert_index (i : N) (kv : jsstring * A)
    (l : list (N * (jsstring * A))) : list (N * (jsstring * A)) :=
  match l with
  | [] => [(i, kv)]
  | (j, kv') :: l' =>
      if (i <? j)%N then (i, kv) :: l else (j, kv') :: insert_index i kv l'
  end.

Fixpoint index_props (l : list (jsstring * A)) : list (N * (jsstring * A)) :=
  match l with
  | [] => []
  | (k, v) :: l' =>
      match array_index k with
      | Some i => insert_index i (k, v) (index_props l')
      | None => index_props l'
      end
  end.

Fixpoint named_props (l : list (jsstring * A)) : list (jsstring * A) :=
  match l with
  | [] => []
  | (k, v) :: l' =>
      match array_index k with
      | Some _ => named_props l'
      | None => (k, v) :: named_props l'
      end
  end.

(** OrdinaryOwnPropertyKeys *)
Definition own_order (l : list (jsstring * A)) : list (jsstring * A) :=
  map snd (index_props l) ++ named_props l.
End OwnKeys.

Definition hex_digit (n : N) : N :=
  if (n <? 10)%N then (48 + n)%N else (87 + n)%N.

(** [\uXXXX], in lower case *)
Definition unicode_escape (c : N) : jsstring :=
  [92; 117; hex_digit (c / 4096 mod 16); hex_digit (c / 256 mod 16);
   hex_digit (c / 16 mod 16); hex_digit (c mod 16)]%N.

Definition is_lead_surrogate (c : N) : bool := (55296 <=? c)%N && (c <=? 56319)%N.
Definition is_trail_surrogate (c : N) : bool := (56320 <=? c)%N && (c <=? 57343)%N.

Fixpoint quote_body (s : jsstring) : jsstring :=
  match s with
  | [] => []
  | c :: r =>
      if (c =? 8)%N then js "\b" ++ quote_body r
      else if (c =? 9)%N then js "\t" ++ quote_body r
      else if (c =? 10)%N then js "\n" ++ quote_body r
      else if (c =? 12)%N then js "\f" ++ quote_body r
      else if (c =? 13)%N then js "\r" ++ quote_body r
      else if (c =? 34)%N then [92; 34]%N ++ quote_body r
      else if (c =? 92)%N then [92; 92]%N ++ quote_body r
      else if (c <? 32)%N then unicode_escape c ++ quote_body r
      else if is_lead_surrogate c then
        match r with
        | d :: r' =>
            if is_trail_surrogate d then c :: d :: quote_body r'
            else unicode_escape c ++ quote_body r
        | [] => unicode_escape c
        end
      else if is_trail_surrogate c then unicode_escape c ++ quote_body r
      else c :: quote_body r
  end.

(** QuoteJSONString *)
Definition quote (s : jsstring) : jsstring := [34%N] ++ quote_body s ++ [34%N].

(** SerializeJSONProperty without indentation; [None] is [undefined]. *)
Fixpoint serialize `{Builtins} (v : jsval) : option jsstring :=
  match v with
  | JUndefined => None
  | JNull => Some (js "null")
  | JBool true => Some (js "true")
  | JBool false => Some (js "false")
  | JNum l => Some (Number_text l)
  | JStr s => Some (quote s)
  | JArr elems _ =>
      Some (js "[" ++
            join (js ",") (map (fun e => default (js "null") (serialize e)) elems) ++
            js "]")
  | JObj props =>
      let printed := map (fun kv => (fst kv, serialize (snd kv))) props in
      Some (js "{" ++
            join (js ",")
              (omap (fun kt => match snd kt with
                               | Some t => Some (quote (fst kt) ++ js ":" ++ t)
                               | None => None
                               end) (own_order printed)) ++
            js "}")
  end.

(** [JSON.stringify(v)] of a value that is not [undefined] *)
Definition JSON_stringify `{Builtins} (v : jsval) : jsstring :=
  default (js "undefined") (serialize v).

(** SerializeJSONProperty with the gap [gap], which is not empty, at the
    indentation [indent]: the members of an object and the elements of an
    array are on lines of their own, a gap deeper; [None] is [undefined]. *)
Fixpoint serialize_indented `{Builtins} (gap indent : jsstring) (v : jsval)
  : option jsstring :=
  match v with
  | JUndefined => None
  | JNull => Some (js "null")
  | JBool true => Some (js "true")
  | JBool false => Some (js "false")
  | JNum l => Some (Number_text l)
  | JStr s => Some (quote s)
  | JArr elems _ =>
      let stepback := indent in
      let indent := indent ++ gap in
      let partial :=
        map (fun e => default (js "null") (serialize_indented gap indent e))
          elems in
      Some (match partial with
            | [] => js "[]"
            | _ :: _ =>
                js "[" ++ [10%N] ++ indent
                ++ join (js "," ++ [10%N] ++ indent) partial
                ++ [10%N] ++ stepback ++ js "]"
            end)
  | JObj props =>
      let stepback := indent in
      let indent := indent ++ gap in
      let printed :=
        map (fun kv => (fst kv, serialize_indented gap indent (snd kv)))
          props in
      let partial :=
        omap (fun kt => match snd kt with
                        | Some t => Some (quote (fst kt) ++ js ": " ++ t)
                        | None => None
                        end) (own_order printed) in
      Some (match partial with
            | [] => js "{}"
            | _ :: _ =>
                js "{" ++ [10%N] ++ indent
                ++ join (js "," ++ [10%N] ++ indent) partial
                ++ [10%N] ++ stepback ++ js "}"
            end)
  end.

(** [JSON.stringify(v, null, space)] for a number [space]: the gap is that
    many spaces, ten at most, and without a gap there is no indentation. *)
Definition JSON_stringify_spaced `{Builtins} (v : jsval) (space : nat)
  : option jsstring :=
  match space with
  | O => serialize v
  | S _ => serialize_indented (repeat 32%N (Nat.min 10 space)) [] v
  end.


(** *** [JSON.parse] *)

Definition is_ws (c : N) : bool :=
  (c =? 32)%N || (c =? 9)%N || (c =? 10)%N || (c =? 13)%N.

Fixpoint skip_ws (s : jsstring) : jsstring :=
  match s with
  | c :: s' => if is_ws c then skip_ws s' else s
  | [] => []
  end.

Definition hex_value (c : N) : option N :=
  if is_digit c then Some (c - 48)%N
  else if (65 <=? c)%N && (c <=? 70)%N then Some (c - 55)%N
  else if (97 <=? c)%N && (c <=? 102)%N then Some (c - 87)%N
  else None.

Definition hex4 (a b c d : N) : option N :=
  match hex_value a, hex_value b, hex_value c, hex_value d with
  | Some x, Some y, Some z, Some w => Some (x * 4096 + y * 256 + z * 16 + w)%N
  | _, _, _, _ => None
  end.

(** The characters of a string literal after its opening quote, with what
    follows the closing quote. *)
Fixpoint parse_string_body (acc : jsstring) (s : jsstring)
  : option (jsstring * jsstring) :=
  match s with
  | [] => None
  | 34%N :: r => Some (rev acc, r)
  | 92%N :: r =>
      match r with
      | 34%N :: r' => parse_string_body (34%N :: acc) r'
      | 92%N :: r' => parse_string_body (92%N :: acc) r'
      | 47%N :: r' => parse_string_body (47%N :: acc) r'
      | 98%N :: r' => parse_string_body (8%N :: acc) r'
      | 102%N :: r' => parse_string_body (12%N :: acc) r'
      | 110%N :: r' => parse_string_body (10%N :: acc) r'
      | 114%N :: r' => parse_string_body (13%N :: acc) r'
      | 116%N :: r' => parse_string_body (9%N :: acc) r'
      | 117%N :: a :: b :: c :: d :: r' =>
          match hex4 a b c d with
          | Some u => parse_string_body (u :: acc) r'
          | None => None
          end
      | _ => None
      end
  | c :: r => if (c <? 32)%N then None else parse_string_body (c :: acc) r
  end.

Fixpoint take_digits (s : jsstring) : jsstring * jsstring :=
  match s with
  | c :: s' =>
      if is_digit c then let (ds, r) := take_digits s' in (c :: ds, r)
      else ([], s)
  | [] => ([], [])
  end.

(** A JSON number: an optional minus; a zero, or a digit from 1 to 9 and
    more digits; an optional fraction, a dot and digits; an optional
    exponent, [e] or [E], an optional sign and digits.  The functions give
    the literal and what follows it. *)
Definition lex_int (s : jsstring) : option (jsstring * jsstring) :=
  match s with
  | 48%N :: r => Some ([48%N], r)
  | c :: r =>
      if is_digit c then let (ds, r') := take_digits r in Some (c :: ds, r')
      else None
  | [] => None
  end.

Definition lex_frac (s : jsstring) : option (jsstring * jsstring) :=
  match s with
  | 46%N :: r =>
      match take_digits r with
      | ([], _) => None
      | (ds, r') => Some (46%N :: ds, r')
      end
  | _ => Some ([], s)
  end.

Definition lex_digits1 (s : jsstring) : option (jsstring * jsstring) :=
  match take_digits s with
  | ([], _) => None
  | (ds, r) => Some (ds, r)
  end.

Definition lex_exp (s : jsstring) : option (jsstring * jsstring) :=
  match s with
  | e :: r =>
      if (e =? 101)%N || (e =? 69)%N then
        match r with
        | sign :: r' =>
            if (sign =? 43)%N || (sign =? 45)%N then
              match lex_digits1 r' with
              | Some (ds, r'') => Some (e :: sign :: ds, r'')
              | None => None
              end
            else
              match lex_digits1 r with
              | Some (ds, r'') => Some (e :: ds, r'')
              | None => None
              end
        | [] => None
        end
      else Some ([], s)
  | [] => Some ([], s)
  end.

Definition lex_number (s : jsstring) : option (jsstring * jsstring) :=
  let (sign, s1) := match s with
                    | 45%N :: r => ([45%N], r)
                    | _ => ([], s)
                    end in
  match lex_int s1 with
  | Some (i, s2) =>
      match lex_frac s2 with
      | Some (f, s3) =>
          match lex_exp s3 with
          | Some (e, s4) => Some (sign ++ i ++ f ++ e, s4)
          | None => None
          end
      | None => None
      end
  | None => None
  end.

Inductive parsed (A : Type) : Type :=
| POk (a : A) (rest : jsstring)
| PSyntaxError
| PFuel.
Arguments POk {A} a rest.
Arguments PSyntaxError {A}.
Arguments PFuel {A}.

(** A value, the elements of an array after its bracket, the members of an
    object after its brace.  A repeated key keeps its first place and takes
    the last value. *)
Fixpoint parse_value (fuel : nat) (s : jsstring) : parsed jsval :=
  match fuel with
  | O => PFuel
  | S fuel' =>
      match skip_ws s with
      | 123%N :: r =>
          match skip_ws r with
          | 125%N :: r' => POk (JObj []) r'
          | r1 => parse_members fuel' [] r1
          end
      | 91%N :: r =>
          match skip_ws r with
          | 93%N :: r' => POk (JArr [] []) r'
          | r1 => parse_elements fuel' [] r1
          end
      | 34%N :: r =>
          match parse_string_body [] r with
          | Some (str, r') => POk (JStr str) r'
          | None => PSyntaxError
          end
      | 116%N :: 114%N :: 117%N :: 101%N :: r => POk (JBool true) r
      | 102%N :: 97%N :: 108%N :: 115%N :: 101%N :: r => POk (JBool false) r
      | 110%N :: 117%N :: 108%N :: 108%N :: r => POk JNull r
      | s1 =>
          match lex_number s1 with
          | Some (l, r) => POk (JNum l) r
          | None => PSyntaxError
          end
      end
  end
with parse_elements (fuel : nat) (acc : list jsval) (s : jsstring)
  : parsed jsval :=
  match fuel with
  | O => PFuel
  | S fuel' =>
      match parse_value fuel' s with
      | POk v r =>
          match skip_ws r with
          | 44%N :: r' => parse_elements fuel' (v :: acc) r'
          | 93%N :: r' => POk (JArr (rev (v :: acc)) []) r'
          | _ => PSyntaxError
          end
      | PSyntaxError => PSyntaxError
      | PFuel => PFuel
      end
  end
with parse_members (fuel : nat) (acc : list (jsstring * jsval)) (s : jsstring)
  : parsed jsval :=
  match fuel with
  | O => PFuel
  | S fuel' =>
      match skip_ws s with
      | 34%N :: r =>
          match parse_string_body [] r with
          | Some (k, r1) =>
              match skip_ws r1 with
              | 58%N :: r2 =>
                  match parse_value fuel' r2 with
                  | POk v r3 =>
                      match skip_ws r3 with
                      | 44%N :: r4 => parse_members fuel' (assoc_set k v acc) r4
                      | 125%N :: r4 => POk (JObj (assoc_set k v acc)) r4
                      | _ => PSyntaxError
                      end
                  | PSyntaxError => PSyntaxError
                  | PFuel => PFuel
                  end
              | _ => PSyntaxError
              end
          | None => PSyntaxError
          end
      | _ => PSyntaxError
      end
  end.

(** [JSON.parse(s)]; [None] when it throws a SyntaxError.  Every call uses up
    a character or follows one that did, so twice the length is fuel enough
    (lemma [parse_value_fuel]). *)
Definition JSON_parse (s : jsstring) : option jsval :=
  match parse_value (2 * length s + 1) s with
  | POk v r => match skip_ws r with [] => Some v | _ => None end
  | _ => None
  end.

(** What is left of a parse is shorter than the text. *)
Definition shorter (p : parsed jsval) (s : jsstring) : Prop :=
  match p with
  | POk _ r => length r < length s
  | _ => True
  end.

End JS.

(** ** The Worker: [src/index.ts] and [src/gateway/env.ts] *)

Module Worker.
Import JS.

(** *** [MoltbotEnv] ([src/types.ts]): the bindings, each a string or unset *)

Record MoltbotEnv : Type := {
  CF_ACCOUNT_ID : option jsstring;
  AI_GATEWAY_ID : option jsstring;
  AI_GATEWAY_API_KEY : option jsstring;
  CF_AIG_AUTHORIZATION : option jsstring;
  DEFAULT_MODEL : option jsstring;
  AI_GATEWAY_BASE_URL : option jsstring;
  ANTHROPIC_API_KEY : option jsstring;
  ANTHROPIC_BASE_URL : option jsstring;
  OPENAI_API_KEY : option jsstring;
  MOLTBOT_GATEWAY_TOKEN : option jsstring;
  CLAWDBOT_BIND_MODE : option jsstring;
  DEV_MODE : option jsstring;
  DEBUG_ROUTES : option jsstring;
  SANDBOX_SLEEP_AFTER : option jsstring;
  TELEGRAM_BOT_TOKEN : option jsstring;
  TELEGRAM_DM_POLICY : option jsstring;
  DISCORD_BOT_TOKEN : option jsstring;
  DISCORD_DM_POLICY : option jsstring;
  SLACK_BOT_TOKEN : option jsstring;
  SLACK_APP_TOKEN : option jsstring;
  CF_ACCESS_TEAM_DOMAIN : option jsstring;
  CF_ACCESS_AUD : option jsstring;
  CDP_SECRET : option jsstring;
  WORKER_URL : option jsstring
}.

(** What the sources import and [src/] does not hold: the two pages of
    [src/assets] and the port of [src/config.ts]. *)
Class Assets : Type := {
  loadingPageHtml : jsstring;
  configErrorHtml : jsstring;
  MOLTBOT_PORT : Z
}.

(** *** [transformErrorMessage] *)

Definition transformErrorMessage (message host : jsstring) : jsstring :=
  if includes message (js "gateway token missing")
     || includes message (js "gateway token mismatch")
  then js "Invalid or missing token. Visit https://" ++ host
       ++ js "?token={REPLACE_WITH_YOUR_TOKEN}"
  else if includes message (js "pairing required")
  then js "Pairing required. Visit https://" ++ host ++ js "/_admin/"
  else message.

(** *** [validateRequiredEnv] *)

Definition provider_hint : jsstring :=
  js "AI provider configuration: Set CF_ACCOUNT_ID + AI_GATEWAY_API_KEY (recommended), or AI_GATEWAY_BASE_URL + AI_GATEWAY_API_KEY (legacy), or ANTHROPIC_API_KEY (direct)".

Definition push_if (c : bool) (x : jsstring) (l : list jsstring) : list jsstring :=
  if c then l ++ [x] else l.

Definition validateRequiredEnv (env : MoltbotEnv) : list jsstring :=
  let missing := [] in
  let missing := push_if (negb (is_set (MOLTBOT_GATEWAY_TOKEN env)))
                   (js "MOLTBOT_GATEWAY_TOKEN") missing in
  let missing := push_if (negb (is_set (CF_ACCESS_TEAM_DOMAIN env)))
                   (js "CF_ACCESS_TEAM_DOMAIN") missing in
  let missing := push_if (negb (is_set (CF_ACCESS_AUD env)))
                   (js "CF_ACCESS_AUD") missing in
  let hasNativeAIGateway :=
    is_set (CF_ACCOUNT_ID env)
    && (is_set (AI_GATEWAY_ID env) || is_set (AI_GATEWAY_API_KEY env)) in
  let hasLegacyAIGateway :=
    is_set (AI_GATEWAY_API_KEY env) && is_set (AI_GATEWAY_BASE_URL env) in
  let hasDirectAnthropic := is_set (ANTHROPIC_API_KEY env) in
  push_if (negb hasNativeAIGateway && negb hasLegacyAIGateway
           && negb hasDirectAnthropic)
    provider_hint missing.

(** *** Requests and responses *)

(** [Headers]: the values of each header, under its name in lower case. *)
Definition ascii_lower (c : ascii) : ascii :=
  let n := N_of_ascii c in
  if (65 <=? n)%N && (n <=? 90)%N then ascii_of_N (n + 32) else c.

Fixpoint lower (s : string) : string :=
  match s with
  | EmptyString => EmptyString
  | String c s' => String (ascii_lower c) (lower s')
  end.

Definition Headers_get (h : gmap string (list jsstring)) (name : string)
  : option jsstring :=
  join (js ", ") <$> h !! lower name.

Definition Headers_set (h : gmap string (list jsstring)) (name : string)
    (value : jsstring) : gmap string (list jsstring) :=
  <[lower name := [value]]> h.

(** A request, with the parts of [new URL(request.url)] the handlers read. *)
Record Request : Type := {
  method : jsstring;
  host : jsstring;
  pathname : jsstring;
  search : jsstring;
  req_headers : gmap string (list jsstring)
}.

Inductive Body : Type :=
| NoBody
| Text (s : jsstring)
| Stream (id : N).

Inductive socket : Type := clientWs | serverWs | containerWs.

Record Response : Type := {
  status : Z;
  statusText : jsstring;
  headers : gmap string (list jsstring);
  body : Body;
  webSocket : option socket
}.

(** What a handler answers: [c.html(html, status)], [c.json(value, status)]
    or a [Response] it built. *)
Inductive reply : Type :=
| Html (html : jsstring) (status : option Z)
| Json (value : jsval) (status : option Z)
| Raw (r : Response).

Definition reply_status (r : reply) : Z :=
  match r with
  | Html _ st | Json _ st => default 200%Z st
  | Raw r => status r
  end.

(** [c.req.header('Accept')?.includes('text/html')] *)
Definition acceptsHtml (request : Request) : bool :=
  match Headers_get (req_headers request) "Accept" with
  | Some v => includes v (js "text/html")
  | None => false
  end.

(** [request.headers.get('Upgrade')?.toLowerCase() === 'websocket'] *)
Definition isWebSocketRequest `{Builtins} (request : Request) : bool :=
  match Headers_get (req_headers request) "Upgrade" with
  | Some v => str_eqb (toLowerCase v) (js "websocket")
  | None => false
  end.

(** *** Handlers as programs

    A handler is a tree of the operations it performs on its collaborators,
    each with the continuation that receives the answer: an [await] is a node
    whose continuation takes the settled value. *)

Inductive level : Type := log | error.

(** What is thrown: an [Error] with its message, or some other value. *)
Inductive thrown : Type :=
| ErrorObject (message : jsstring)
| OtherValue.

Inductive logarg : Type :=
| LStr (s : jsstring)
| LNum (n : Z)
| LThrown (e : thrown)
| LEvent.

(** A process of the sandbox, as [findExistingMoltbotProcess] gives it. *)
Record Process : Type := {
  proc_id : jsstring;
  proc_status : jsstring
}.

Inductive frame : Type :=
| TextFrame (data : jsstring)
| BinaryFrame (data : list N).

Inductive prog (A : Type) : Type :=
| Ret (a : A)
  (** an exception nobody catches *)
| Raise (e : thrown)
  (** [console.log], [console.error] *)
| Console (lvl : level) (args : list logarg) (k : prog A)
  (** [await findExistingMoltbotProcess(sandbox)] *)
| FindExistingMoltbotProcess (k : option Process -> prog A)
  (** [ensureMoltbotGateway(sandbox, env)], continued when it settles:
      [None] when it resolves, the reason when it rejects *)
| EnsureMoltbotGateway (k : option thrown -> prog A)
  (** [c.executionCtx.waitUntil(promise)]: [promise] runs on its own *)
| WaitUntil (promise : prog unit) (k : prog A)
  (** [await sandbox.containerFetch(request, port)] *)
| ContainerFetch (request : Request) (port : Z)
    (k : Response + thrown -> prog A)
  (** [new WebSocketPair()]: [clientWs] and [serverWs] *)
| NewWebSocketPair (k : prog A)
| Accept (w : socket) (k : prog A)
  (** [w.send(data)], which may throw *)
| Send (w : socket) (data : frame) (k : option thrown -> prog A)
  (** [w.close(code, reason)], which throws on a code the runtime does not
      take; nothing of the handler catches that *)
| Close (w : socket) (code : Z) (reason : jsstring) (k : prog A)
  (** [w.addEventListener(type, listener)] *)
| OnMessage (w : socket) (listener : frame -> prog unit) (k : prog A)
| OnClose (w : socket) (listener : Z -> jsstring -> prog unit) (k : prog A)
| OnError (w : socket) (listener : prog unit) (k : prog A).

Arguments Ret {A} a.
Arguments Raise {A} e.
Arguments Console {A} lvl args k.
Arguments FindExistingMoltbotProcess {A} k.
Arguments EnsureMoltbotGateway {A} k.
Arguments WaitUntil {A} promise k.
Arguments ContainerFetch {A} request port k.
Arguments NewWebSocketPair {A} k.
Arguments Accept {A} w k.
Arguments Send {A} w data k.
Arguments Close {A} w code reason k.
Arguments OnMessage {A} w listener k.
Arguments OnClose {A} w listener k.
Arguments OnError {A} w listener k.

(** *** The middleware that validates the environment *)

Inductive middleware_result : Type :=
| Next
| Respond (r : reply).

Definition validation_middleware `{Assets} (env : MoltbotEnv) (request : Request)
  : prog middleware_result :=
  if startsWith (pathname request) (js "/debug") then Ret Next
  else if is_lit (DEV_MODE env) "true" then Ret Next
  else
    let missingVars := validateRequiredEnv env in
    if (0 <? length missingVars)%nat then
      Console error [LStr (js "[CONFIG] Missing required environment variables:");
                     LStr (join (js ", ") missingVars)] (
      if acceptsHtml request then
        let html := replace configErrorHtml (js "{{MISSING_VARS}}")
                      (join (js ", ") missingVars) in
        Ret (Respond (Html html (Some 503%Z)))
      else
        Ret (Respond (Json (JObj [
          (js "error", JStr (js "Configuration error"));
          (js "message", JStr (js "Required environment variables are not configured"));
          (js "missing", JArr (map JStr missingVars) []);
          (js "hint", JStr (js "Set these using: wrangler secret put <VARIABLE_NAME>"))
        ]) (Some 503%Z))))
    else Ret Next.

(** *** The catch-all route: the proxy to the gateway *)

(** The promise handed to [waitUntil]: the start, with its rejection caught
    and logged. *)
Definition background_start : prog unit :=
  EnsureMoltbotGateway (fun outcome =>
    match outcome with
    | Some err =>
        Console error [LStr (js "[PROXY] Background gateway start failed:");
                       LThrown err] (Ret tt)
    | None => Ret tt
    end).

(** [error instanceof Error ? error.message : 'Unknown error'] *)
Definition error_message (e : thrown) : jsstring :=
  match e with
  | ErrorObject m => m
  | OtherValue => js "Unknown error"
  end.

(** The listener of the gateway's socket for [message].  The inner [try]
    covers the parse, the test of [parsed.error] and the send of the
    rewritten text: whatever throws there, the frame goes out as it came. *)
Definition on_container_message `{Builtins} (request : Request) (data : frame)
  : prog unit :=
  let forward :=
    Send serverWs data (fun threw =>
      match threw with
      | Some e => Console error [LStr (js "[WS] Error forwarding to client:");
                                 LThrown e] (Ret tt)
      | None => Ret tt
      end) in
  match data with
  | TextFrame text =>
      if includes text ([34%N] ++ js "error" ++ [34%N]) then
        match JSON_parse text with
        | Some parsed =>
            match js_get parsed "error" with
            | Ok (JStr e) =>
                if truthy (JStr e) then
                  match js_set true parsed "error"
                          (JStr (transformErrorMessage e (host request))) with
                  | Ok parsed' =>
                      Send serverWs (TextFrame (JSON_stringify parsed'))
                        (fun threw =>
                           match threw with
                           | Some _ => forward
                           | None => Ret tt
                           end)
                  | Throw _ => forward
                  end
                else forward
            | Ok _ => forward
            | Throw _ => forward
            end
        | None => forward
        end
      else forward
  | BinaryFrame _ => forward
  end.

(** The listener of the caller's socket for [message]. *)
Definition on_server_message (data : frame) : prog unit :=
  Send containerWs data (fun threw =>
    match threw with
    | Some e => Console error [LStr (js "[WS] Error forwarding to container:");
                               LThrown e] (Ret tt)
    | None => Ret tt
    end).

Definition on_server_close (code : Z) (reason : jsstring) : prog unit :=
  Console log [LStr (js "[WS] Client closed:"); LNum code; LStr reason] (
  Close containerWs code reason (Ret tt)).

Definition on_container_close (code : Z) (reason : jsstring) : prog unit :=
  Console log [LStr (js "[WS] Container closed:"); LNum code; LStr reason] (
  Close serverWs code reason (Ret tt)).

Definition on_server_error : prog unit :=
  Console error [LStr (js "[WS] Client error:"); LEvent] (
  Close containerWs 1011 (js "Client error") (Ret tt)).

Definition on_container_error : prog unit :=
  Console error [LStr (js "[WS] Container error:"); LEvent] (
  Close serverWs 1011 (js "Container error") (Ret tt)).

(** [existingProcess !== null && existingProcess.status === 'running'] *)
Definition isGatewayReady (existingProcess : option Process) : bool :=
  match existingProcess with
  | Some p => str_eqb (proc_status p) (js "running")
  | None => false
  end.

Definition proxy `{Builtins} `{Assets} (env : MoltbotEnv) (request : Request)
  : prog reply :=
  Console log [LStr (js "[PROXY] Handling request:"); LStr (pathname request)] (
  FindExistingMoltbotProcess (fun existingProcess =>
  if negb (isGatewayReady existingProcess) && negb (isWebSocketRequest request)
     && acceptsHtml request
  then
    Console log [LStr (js "[PROXY] Gateway not ready, serving loading page")] (
    WaitUntil background_start (
    Ret (Html loadingPageHtml None)))
  else
    EnsureMoltbotGateway (fun outcome =>
    match outcome with
    | Some err =>
        Console error [LStr (js "[PROXY] Failed to start Moltbot:"); LThrown err] (
        let errorMessage := error_message err in
        let hasAnyApiKey :=
          is_set (AI_GATEWAY_API_KEY env) || is_set (ANTHROPIC_API_KEY env) in
        let hint :=
          if negb hasAnyApiKey
          then js "No API key set. Run: wrangler secret put AI_GATEWAY_API_KEY (or ANTHROPIC_API_KEY)"
          else js "Check worker logs with: wrangler tail" in
        if acceptsHtml request then
          Ret (Html (replace configErrorHtml (js "{{MISSING_VARS}}") errorMessage)
                 (Some 500%Z))
        else
          Ret (Json (JObj [
            (js "error", JStr (js "Failed to start Moltbot"));
            (js "details", JStr errorMessage);
            (js "hint", JStr hint)
          ]) (Some 500%Z)))
    | None =>
        if isWebSocketRequest request then
          Console log [LStr (js "[WS] Intercepting WebSocket for transformation")] (
          NewWebSocketPair (
          Accept serverWs (
          ContainerFetch request MOLTBOT_PORT (fun fetched =>
          match fetched with
          | inr e => Raise e
          | inl containerWsResponse =>
              match webSocket containerWsResponse with
              | None =>
                  Console error [LStr (js "[WS] Container did not return WebSocket")] (
                  Close serverWs 1011 (js "Container WebSocket connection failed") (
                  Ret (Raw {| status := 500; statusText := [];
                              headers := {[ "content-type"%string :=
                                            [js "text/plain;charset=UTF-8"] ]};
                              body := Text (js "WebSocket connection failed");
                              webSocket := None |})))
              | Some _ =>
                  Accept containerWs (
                  OnMessage containerWs (on_container_message request) (
                  OnMessage serverWs on_server_message (
                  OnClose serverWs on_server_close (
                  OnClose containerWs on_container_close (
                  OnError serverWs on_server_error (
                  OnError containerWs on_container_error (
                  Console log [LStr (js "[WS] Returning intercepted WebSocket response")] (
                  Ret (Raw {| status := 101; statusText := [];
                              headers := ∅; body := NoBody;
                              webSocket := Some clientWs |})))))))))
              end
          end))))
        else
          Console log [LStr (js "[HTTP] Proxying:");
                       LStr (pathname request ++ search request)] (
          ContainerFetch request MOLTBOT_PORT (fun fetched =>
          match fetched with
          | inr e => Raise e
          | inl httpResponse =>
              Console log [LStr (js "[HTTP] Response status:");
                           LNum (status httpResponse)] (
              let newHeaders := headers httpResponse in
              let newHeaders :=
                Headers_set newHeaders "X-Worker-Debug" (js "proxy-to-moltbot") in
              let newHeaders :=
                Headers_set newHeaders "X-Debug-Path" (pathname request) in
              Ret (Raw {| status := status httpResponse;
                          statusText := statusText httpResponse;
                          headers := newHeaders;
                          body := body httpResponse;
                          webSocket := None |}))
          end))
    end))).

(** *** Running a handler

    The collaborators answer as a [World] says; the run gives the operations
    performed, in order, the listeners registered, and the result. *)

Record World : Type := {
  the_process : option Process;
  ensure_outcome : option thrown;
  fetch_outcome : Request -> Z -> Response + thrown;
  send_outcome : socket -> frame -> option thrown
}.

Inductive event : Type :=
| EConsole (lvl : level) (args : list logarg)
| EFindProcess
| EEnsureGateway
| EWaitUntil (promise : prog unit)
| EContainerFetch (request : Request) (port : Z)
| EWebSocketPair
| EAccept (w : socket)
| ESend (w : socket) (data : frame)
| EClose (w : socket) (code : Z) (reason : jsstring).

Inductive listener : Type :=
| MessageListener (w : socket) (f : frame -> prog unit)
| CloseListener (w : socket) (f : Z -> jsstring -> prog unit)
| ErrorListener (w : socket) (f : prog unit).

Record outcome (A : Type) : Type := {
  trace : list event;
  listeners : list listener;
  result : A + thrown
}.
Arguments trace {A} o.
Arguments listeners {A} o.
Arguments result {A} o.

Definition did {A : Type} (e : event) (o : outcome A) : outcome A :=
  {| trace := e :: trace o; listeners := listeners o; result := result o |}.

Definition listening {A : Type} (l : listener) (o : outcome A) : outcome A :=
  {| trace := trace o; listeners := l :: listeners o; result := result o |}.

(** [w.close(code, reason)] of the Workers runtime takes the codes from 1000
    to 4999 that the protocol does not reserve; for 1004, 1005 (no status
    received), 1006 (abnormal closure), 1015 and anything out of the range it
    throws a [TypeError] and closes nothing. *)
Definition valid_close_code (code : Z) : bool :=
  (1000 <=? code)%Z && (code <? 5000)%Z
  && negb ((code =? 1004)%Z || (code =? 1005)%Z
           || (code =? 1006)%Z || (code =? 1015)%Z).

Definition close_error (code : Z) : thrown :=
  ErrorObject (js "Invalid WebSocket close code: "
               ++ js (NilZero.string_of_int (Z.to_int code)) ++ js ".").

Fixpoint run {A : Type} (w : World) (p : prog A) : outcome A :=
  match p with
  | Ret a => {| trace := []; listeners := []; result := inl a |}
  | Raise e => {| trace := []; listeners := []; result := inr e |}
  | Console lvl args k => did (EConsole lvl args) (run w k)
  | FindExistingMoltbotProcess k => did EFindProcess (run w (k (the_process w)))
  | EnsureMoltbotGateway k => did EEnsureGateway (run w (k (ensure_outcome w)))
  | WaitUntil promise k => did (EWaitUntil promise) (run w k)
  | ContainerFetch request port k =>
      did (EContainerFetch request port) (run w (k (fetch_outcome w request port)))
  | NewWebSocketPair k => did EWebSocketPair (run w k)
  | Accept s k => did (EAccept s) (run w k)
  | Send s data k => did (ESend s data) (run w (k (send_outcome w s data)))
  | Close s code reason k =>
      if valid_close_code code then did (EClose s code reason) (run w k)
      else {| trace := [EClose s code reason]; listeners := [];
              result := inr (close_error code) |}
  | OnMessage s f k => listening (MessageListener s f) (run w k)
  | OnClose s f k => listening (CloseListener s f) (run w k)
  | OnError s f k => listening (ErrorListener s f) (run w k)
  end.

(** *** A relayed session

    The two legs of a relay: the caller's ([serverWs]) and the gateway's
    ([containerWs]).  An event of a socket runs the listeners registered for
    it; a [close] the listeners issue closes the leg it names, when the
    runtime takes its code.  A socket that raises [error] has failed: that leg
    is gone.  An exception a listener lets escape is reported by the runtime
    as an [error] of the socket the listener is on. *)

Inductive leg : Type :=
| Open
| Closed (code : Z) (reason : jsstring).

Record relay : Type := {
  caller : leg;
  gateway : leg;
  to_caller : list frame;
  to_gateway : list frame
}.

Inductive socket_event : Type :=
| MessageEvent (w : socket) (data : frame)
| CloseEvent (w : socket) (code : Z) (reason : jsstring)
| ErrorEvent (w : socket).

Definition socket_eqb (a b : socket) : bool :=
  match a, b with
  | clientWs, clientWs | serverWs, serverWs | containerWs, containerWs => true
  | _, _ => false
  end.

Definition close_leg (l : leg) (code : Z) (reason : jsstring) : leg :=
  match l with
  | Open => Closed code reason
  | Closed _ _ => l
  end.

(** The listeners an event reaches, as the programs they run. *)
Fixpoint called (ls : list listener) (ev : socket_event) : list (prog unit) :=
  match ls with
  | [] => []
  | l :: ls' =>
      match l, ev with
      | MessageListener s f, MessageEvent s' data =>
          if socket_eqb s s' then f data :: called ls' ev else called ls' ev
      | CloseListener s f, CloseEvent s' code reason =>
          if socket_eqb s s' then f code reason :: called ls' ev else called ls' ev
      | ErrorListener s f, ErrorEvent s' =>
          if socket_eqb s s' then f :: called ls' ev else called ls' ev
      | _, _ => called ls' ev
      end
  end.

(** What the event itself does to the session. *)
Definition arrive (ev : socket_event) (r : relay) : relay :=
  match ev with
  | CloseEvent serverWs code reason =>
      {| caller := close_leg (caller r) code reason; gateway := gateway r;
         to_caller := to_caller r; to_gateway := to_gateway r |}
  | CloseEvent containerWs code reason =>
      {| caller := caller r; gateway := close_leg (gateway r) code reason;
         to_caller := to_caller r; to_gateway := to_gateway r |}
  | ErrorEvent serverWs =>
      {| caller := close_leg (caller r) 1006 []; gateway := gateway r;
         to_caller := to_caller r; to_gateway := to_gateway r |}
  | ErrorEvent containerWs =>
      {| caller := caller r; gateway := close_leg (gateway r) 1006 [];
         to_caller := to_caller r; to_gateway := to_gateway r |}
  | _ => r
  end.

(** What an operation of a listener does to the session. *)
Definition perform (e : event) (r : relay) : relay :=
  match e with
  | ESend serverWs data =>
      {| caller := caller r; gateway := gateway r;
         to_caller := to_caller r ++ [data]; to_gateway := to_gateway r |}
  | ESend containerWs data =>
      {| caller := caller r; gateway := gateway r;
         to_caller := to_caller r; to_gateway := to_gateway r ++ [data] |}
  | EClose serverWs code reason =>
      if valid_close_code code
      then {| caller := close_leg (caller r) code reason; gateway := gateway r;
              to_caller := to_caller r; to_gateway := to_gateway r |}
      else r
  | EClose containerWs code reason =>
      if valid_close_code code
      then {| caller := caller r; gateway := close_leg (gateway r) code reason;
              to_caller := to_caller r; to_gateway := to_gateway r |}
      else r
  | _ => r
  end.

(** The event arrives and its listeners run, in the order of registration. *)
Definition dispatch (w : World) (ls : list listener) (ev : socket_event)
    (r : relay) : relay :=
  fold_left (fun r p => fold_left (fun r e => perform e r) (trace (run w p)) r)
    (called ls ev) (arrive ev r).

Definition event_socket (ev : socket_event) : socket :=
  match ev with
  | MessageEvent s _ | CloseEvent s _ _ | ErrorEvent s => s
  end.

(** The listener lets an exception escape. *)
Definition threw (w : World) (p : prog unit) : bool :=
  match result (run w p) with
  | inr _ => true
  | inl _ => false
  end.

(** The delivery of an event: its dispatch, and when a listener for it threw,
    the dispatch of an [error] of the same socket. *)
Definition deliver (w : World) (ls : list listener) (ev : socket_event)
    (r : relay) : relay :=
  let r' := dispatch w ls ev r in
  match ev with
  | ErrorEvent _ => r'
  | _ =>
      if existsb (threw w) (called ls ev)
      then dispatch w ls (ErrorEvent (event_socket ev)) r'
      else r'
  end.


(** The two legs of a session. *)
Definition legs_of (r : relay) : leg * leg := (caller r, gateway r).

(** The operations of a listener for [message] are sends and logs. *)
Inductive quiet : list event -> Prop :=
| quiet_nil : quiet []
| quiet_send s data t : quiet t -> quiet (ESend s data :: t)
| quiet_log lvl args t : quiet t -> quiet (EConsole lvl args :: t).

(** The listeners the handler registers on a WebSocket upgrade, first
    registered first. *)
Definition relay_listeners `{Builtins} (request : Request) : list listener :=
  [MessageListener containerWs (on_container_message request);
   MessageListener serverWs on_server_message;
   CloseListener serverWs on_server_close;
   CloseListener containerWs on_container_close;
   ErrorListener serverWs on_server_error;
   ErrorListener containerWs on_container_error].

(** A frame the listener rewrites: a text that holds ["error"], parses, and
    has a top-level [error] that is a string and not the empty one. *)
Inductive error_frame : frame -> jsval -> jsstring -> Prop :=
| error_frame_intro text parsed e :
    includes text ([34%N] ++ js "error" ++ [34%N]) = true ->
    JSON_parse text = Some parsed ->
    js_get parsed "error" = Ok (JStr e) ->
    e <> [] ->
    error_frame (TextFrame text) parsed e.

(** The starts of the gateway in a trace: the calls of
    [ensureMoltbotGateway] the handler makes itself, and those of the
    promises it hands to [waitUntil]. *)
Definition started (t : list event) : nat :=
  length (List.filter (fun e => match e with EEnsureGateway => true | _ => false end) t).

Definition starts (w : World) (t : list event) : nat :=
  started t
  + list_sum (map (fun e => match e with
                            | EWaitUntil promise => started (trace (run w promise))
                            | _ => 0
                            end) t).

(** *** [buildEnvVars] ([src/gateway/env.ts]) *)

(** [if (cond) envVars.key = value] *)
Definition put_if (cond : bool) (key : string) (value : option jsstring)
    (envVars : gmap string jsstring) : gmap string jsstring :=
  match value with
  | Some v => if cond then <[key := v]> envVars else envVars
  | None => envVars
  end.

(** ToBoolean of [envVars.key] *)
Definition has (envVars : gmap string jsstring) (key : string) : bool :=
  is_set (envVars !! key).

Definition buildEnvVars (env : MoltbotEnv) : gmap string jsstring :=
  let envVars : gmap string jsstring := ∅ in
  (* Cloudflare AI Gateway, native *)
  let envVars := put_if (is_set (CF_ACCOUNT_ID env))
                   "CF_ACCOUNT_ID" (CF_ACCOUNT_ID env) envVars in
  let envVars := put_if (is_set (CF_ACCOUNT_ID env))
                   "CLOUDFLARE_AI_GATEWAY_ACCOUNT_ID" (CF_ACCOUNT_ID env) envVars in
  let envVars := put_if (is_set (AI_GATEWAY_ID env))
                   "CLOUDFLARE_AI_GATEWAY_GATEWAY_ID" (AI_GATEWAY_ID env) envVars in
  let envVars := put_if (is_set (AI_GATEWAY_API_KEY env))
                   "CLOUDFLARE_AI_GATEWAY_API_KEY" (AI_GATEWAY_API_KEY env) envVars in
  let envVars := put_if (is_set (AI_GATEWAY_API_KEY env))
                   "AI_GATEWAY_API_KEY" (AI_GATEWAY_API_KEY env) envVars in
  let envVars := put_if (is_set (CF_AIG_AUTHORIZATION env))
                   "CF_AIG_AUTHORIZATION" (CF_AIG_AUTHORIZATION env) envVars in
  let envVars := put_if (is_set (DEFAULT_MODEL env))
                   "DEFAULT_MODEL" (DEFAULT_MODEL env) envVars in
  (* legacy AI Gateway *)
  let normalizedBaseUrl := strip_trailing_slashes <$> AI_GATEWAY_BASE_URL env in
  let isOpenAIGateway :=
    match normalizedBaseUrl with
    | Some u => endsWith u (js "/openai") || endsWith u (js "/compat")
    | None => false
    end in
  let envVars :=
    if is_set normalizedBaseUrl then
      let envVars := put_if true "AI_GATEWAY_BASE_URL" normalizedBaseUrl envVars in
      if isOpenAIGateway then
        let envVars := put_if true "OPENAI_BASE_URL" normalizedBaseUrl envVars in
        put_if (is_set (AI_GATEWAY_API_KEY env))
          "OPENAI_API_KEY" (AI_GATEWAY_API_KEY env) envVars
      else
        let envVars := put_if true "ANTHROPIC_BASE_URL" normalizedBaseUrl envVars in
        put_if (is_set (AI_GATEWAY_API_KEY env))
          "ANTHROPIC_API_KEY" (AI_GATEWAY_API_KEY env) envVars
    else envVars in
  (* direct provider keys *)
  let envVars := put_if (negb (has envVars "ANTHROPIC_API_KEY")
                         && is_set (ANTHROPIC_API_KEY env))
                   "ANTHROPIC_API_KEY" (ANTHROPIC_API_KEY env) envVars in
  let envVars := put_if (negb (has envVars "OPENAI_API_KEY")
                         && is_set (OPENAI_API_KEY env))
                   "OPENAI_API_KEY" (OPENAI_API_KEY env) envVars in
  let envVars := put_if (is_set (ANTHROPIC_BASE_URL env)
                         && negb (has envVars "ANTHROPIC_BASE_URL"))
                   "ANTHROPIC_BASE_URL" (ANTHROPIC_BASE_URL env) envVars in
  (* gateway and channels *)
  let envVars := put_if (is_set (MOLTBOT_GATEWAY_TOKEN env))
                   "CLAWDBOT_GATEWAY_TOKEN" (MOLTBOT_GATEWAY_TOKEN env) envVars in
  let envVars := put_if (is_set (DEV_MODE env))
                   "CLAWDBOT_DEV_MODE" (DEV_MODE env) envVars in
  let envVars := put_if (is_set (CLAWDBOT_BIND_MODE env))
                   "CLAWDBOT_BIND_MODE" (CLAWDBOT_BIND_MODE env) envVars in
  let envVars := put_if (is_set (TELEGRAM_BOT_TOKEN env))
                   "TELEGRAM_BOT_TOKEN" (TELEGRAM_BOT_TOKEN env) envVars in
  let envVars := put_if (is_set (TELEGRAM_DM_POLICY env))
                   "TELEGRAM_DM_POLICY" (TELEGRAM_DM_POLICY env) envVars in
  let envVars := put_if (is_set (DISCORD_BOT_TOKEN env))
                   "DISCORD_BOT_TOKEN" (DISCORD_BOT_TOKEN env) envVars in
  let envVars := put_if (is_set (DISCORD_DM_POLICY env))
                   "DISCORD_DM_POLICY" (DISCORD_DM_POLICY env) envVars in
  let envVars := put_if (is_set (SLACK_BOT_TOKEN env))
                   "SLACK_BOT_TOKEN" (SLACK_BOT_TOKEN env) envVars in
  let envVars := put_if (is_set (SLACK_APP_TOKEN env))
                   "SLACK_APP_TOKEN" (SLACK_APP_TOKEN env) envVars in
  let envVars := put_if (is_set (CDP_SECRET env))
                   "CDP_SECRET" (CDP_SECRET env) envVars in
  let envVars := put_if (is_set (WORKER_URL env))
                   "WORKER_URL" (WORKER_URL env) envVars in
  envVars.

(** The names [buildEnvVars] writes under. *)
Definition container_variables : list string :=
  ["CF_ACCOUNT_ID"; "CLOUDFLARE_AI_GATEWAY_ACCOUNT_ID";
   "CLOUDFLARE_AI_GATEWAY_GATEWAY_ID"; "CLOUDFLARE_AI_GATEWAY_API_KEY";
   "AI_GATEWAY_API_KEY"; "CF_AIG_AUTHORIZATION"; "DEFAULT_MODEL";
   "AI_GATEWAY_BASE_URL"; "OPENAI_BASE_URL"; "OPENAI_API_KEY";
   "ANTHROPIC_BASE_URL"; "ANTHROPIC_API_KEY";
   "CLAWDBOT_GATEWAY_TOKEN"; "CLAWDBOT_DEV_MODE"; "CLAWDBOT_BIND_MODE";
   "TELEGRAM_BOT_TOKEN"; "TELEGRAM_DM_POLICY";
   "DISCORD_BOT_TOKEN"; "DISCORD_DM_POLICY";
   "SLACK_BOT_TOKEN"; "SLACK_APP_TOKEN"; "CDP_SECRET"; "WORKER_URL"]%string.

(** Names of the Worker's bindings that are for the Worker alone. *)
Definition worker_only : list string :=
  ["MOLTBOT_GATEWAY_TOKEN"; "AI_GATEWAY_ID"; "DEV_MODE"; "DEBUG_ROUTES";
   "SANDBOX_SLEEP_AFTER"; "CF_ACCESS_TEAM_DOMAIN"; "CF_ACCESS_AUD";
   "R2_ACCESS_KEY_ID"; "R2_SECRET_ACCESS_KEY"]%string.

End Worker.

(** ** The start-up script: [start-moltbot.sh] *)

Module Startup.
Import JS.

Local Open Scope string_scope.

(** *** Files

    What the script sees of the container's files: the tree under
    [$BACKUP_DIR] (the R2 mount, [/data/moltbot]) and the tree under
    [$CONFIG_DIR] ([/root/.clawdbot]).  Names and contents are byte
    strings. *)

#[warnings="-register-all"] Inductive node : Type :=
| File (content : string)
| Dir (entries : list (string * node)).

Fixpoint find (name : string) (entries : list (string * node)) : option node :=
  match entries with
  | [] => None
  | (n, x) :: rest => if String.eqb name n then Some x else find name rest
  end.

(** The entry [name] becomes [x]: in place when it exists, else added. *)
Fixpoint put (name : string) (x : node) (entries : list (string * node))
  : list (string * node) :=
  match entries with
  | [] => [(name, x)]
  | (n, y) :: rest =>
      if String.eqb name n then (n, x) :: rest else (n, y) :: put name x rest
  end.

Fixpoint lookup_path (x : node) (path : list string) : option node :=
  match path with
  | [] => Some x
  | name :: path' =>
      match x with
      | Dir entries =>
          match find name entries with
          | Some y => lookup_path y path'
          | None => None
          end
      | File _ => None
      end
  end.

Record disk : Type := {
  (** what is at [/data/moltbot], if anything *)
  backup : option node;
  (** the entries of [/root/.clawdbot], a directory since [mkdir -p] *)
  config : list (string * node)
}.

Definition at_backup (d : disk) (path : list string) : option node :=
  match backup d with
  | Some b => lookup_path b path
  | None => None
  end.

(** [[ -f path ]] and [[ -d path ]] *)
Definition is_file (x : option node) : bool :=
  match x with Some (File _) => true | _ => false end.

Definition is_dir (x : option node) : bool :=
  match x with Some (Dir _) => true | _ => false end.

(** *** The integers of [test]

    [[ a -gt b ]] reads its operands with bash's [legal_number]: [strtoimax]
    in base 10, which skips leading white space and takes a sign and digits,
    then blanks up to the end of the string; nothing else may follow, and the
    value has to fit [intmax_t]. *)

Definition isspace (c : ascii) : bool :=
  let n := N_of_ascii c in
  (n =? 32)%N || ((9 <=? n)%N && (n <=? 13)%N).

Definition isblank (c : ascii) : bool :=
  let n := N_of_ascii c in (n =? 32)%N || (n =? 9)%N.

Definition isdigit (c : ascii) : bool :=
  let n := N_of_ascii c in (48 <=? n)%N && (n <=? 57)%N.

Fixpoint skip (p : ascii -> bool) (s : string) : string :=
  match s with
  | String c s' => if p c then skip p s' else s
  | EmptyString => EmptyString
  end.

(** The digits at the head of [s]: how many, their value after [acc], and
    the rest. *)
Fixpoint digits (acc : Z) (s : string) : nat * Z * string :=
  match s with
  | String c s' =>
      if isdigit c
      then let '(n, v, r) := digits (acc * 10 + Z.of_N (N_of_ascii c - 48)) s' in
           (S n, v, r)
      else (O, acc, s)
  | EmptyString => (O, acc, EmptyString)
  end.

Definition INTMAX_MAX : Z := 9223372036854775807.
Definition INTMAX_MIN : Z := -9223372036854775808.

Definition legal_number (s : string) : option Z :=
  let s1 := skip isspace s in
  let '(negative, s2) :=
    match s1 with
    | String "-" r => (true, r)
    | String "+" r => (false, r)
    | _ => (false, s1)
    end in
  let '(n, v, rest) := digits 0 s2 in
  let value := if negative then (- v)%Z else v in
  match n with
  | O => None
  | S _ =>
      if (INTMAX_MIN <=? value)%Z && (value <=? INTMAX_MAX)%Z then
        match skip isblank rest with
        | EmptyString => Some value
        | String _ _ => None
        end
      else None
  end.

(** [[ a -gt b ] 2>/dev/null]: an operand that is no integer makes [test]
    fail. *)
Definition test_gt (a b : string) : bool :=
  match legal_number a, legal_number b with
  | Some x, Some y => (y <? x)%Z
  | _, _ => false
  end.

(** [$(cat file)]: the bytes of the file without the NUL bytes and without
    the newlines at its end. *)
Fixpoint drop_nul (s : string) : string :=
  match s with
  | String c s' =>
      if (N_of_ascii c =? 0)%N then drop_nul s' else String c (drop_nul s')
  | EmptyString => EmptyString
  end.

Fixpoint chomp (s : string) : string :=
  match s with
  | String c s' =>
      match chomp s' with
      | EmptyString => if (N_of_ascii c =? 10)%N then EmptyString
                       else String c EmptyString
      | r => String c r
      end
  | EmptyString => EmptyString
  end.

Definition command_substitution (output : string) : string :=
  chomp (drop_nul output).

(** *** [should_restore_from_r2] *)

Definition should_restore_from_r2 (d : disk) : bool :=
  let R2_SYNC_FILE := at_backup d [".last-sync"] in
  let LOCAL_SYNC_FILE := find ".last-sync" (config d) in
  (* no R2 backup: do not restore *)
  if negb (is_file (at_backup d ["clawdbot"; "clawdbot.json"])) then false
  (* no local config: restore *)
  else if negb (is_file (find "clawdbot.json" (config d))) then true
  else
    (* compare the sync timestamps when both exist *)
    match R2_SYNC_FILE, LOCAL_SYNC_FILE with
    | Some (File r2), Some (File local) =>
        let R2_TIME := command_substitution r2 in
        let LOCAL_TIME := command_substitution local in
        test_gt R2_TIME LOCAL_TIME
    | _, _ => false
    end.

(** *** The restore *)

(** [cp -r source dest/] for one source named [name]: a file replaces a file,
    a directory is merged into a directory, entry by entry; [cp] refuses to
    put a file over a directory or a directory over a file, and goes on. *)
Fixpoint cp_r (source : node) (name : string) (dest : list (string * node))
  : list (string * node) :=
  match source with
  | File content =>
      match find name dest with
      | Some (Dir _) => dest
      | _ => put name (File content) dest
      end
  | Dir entries =>
      match find name dest with
      | Some (File _) => dest
      | None => put name (Dir entries) dest
      | Some (Dir below) =>
          put name
            (Dir ((fix each (l : list (string * node))
                       (acc : list (string * node)) :=
                     match l with
                     | [] => acc
                     | (n, x) :: l' => each l' (cp_r x n acc)
                     end) entries below))
            dest
      end
  end.

(** The names [*] expands to: those that do not start with a dot. *)
Definition hidden (name : string) : bool :=
  match name with
  | String "." _ => true
  | _ => false
  end.

Definition glob_star (entries : list (string * node)) : list (string * node) :=
  List.filter (fun e => negb (hidden (fst e))) entries.

(** [cp -r dir/* dest/ 2>/dev/null || true] *)
Definition cp_r_star (entries dest : list (string * node))
  : list (string * node) :=
  fold_left (fun acc e => cp_r (snd e) (fst e) acc) (glob_star entries) dest.



(** [[ "$(ls -A dir)" ]]: what [ls -A] prints, a line for every entry, is
    not empty once the newlines at its end are gone. *)
Definition ls_A (entries : list (string * node)) : string :=
  fold_right (fun e out => fst e ++ String (ascii_of_N 10) out) "" entries.

Definition nonempty (s : string) : bool :=
  match s with EmptyString => false | String _ _ => true end.

(** The restore of the configuration, then of the skills; [None] when
    [mkdir -p] fails and [set -e] ends the script. *)
Definition restore_config (d : disk) : disk :=
  match at_backup d ["clawdbot"] with
  | Some (Dir entries) =>
      {| backup := backup d; config := cp_r_star entries (config d) |}
  | _ => d
  end.

Definition restore_skills (d : disk) : option disk :=
  match at_backup d ["skills"] with
  | Some (Dir entries) =>
      if nonempty (command_substitution (ls_A entries)) then
        match find "skills" (config d) with
        | Some (File _) => None
        | Some (Dir local) =>
            Some {| backup := backup d;
                    config := put "skills" (Dir (cp_r_star entries local)) (config d) |}
        | None =>
            Some {| backup := backup d;
                    config := put "skills" (Dir (cp_r_star entries [])) (config d) |}
        end
      else Some d
  | _ => Some d
  end.

Definition restore (d : disk) : option disk :=
  if should_restore_from_r2 d then restore_skills (restore_config d)
  else Some d.

(** *** The configuration file when there is none

    After the restore, a configuration file that is still missing is made:
    a copy of the template when there is one, and [{}] otherwise.
    [template] is what is at [$TEMPLATE_FILE]; [None] is the end of the
    script under [set -e]. *)

Definition ensure_config_file (template : option node) (d : disk)
  : option disk :=
  match find "clawdbot.json" (config d) with
  | Some (File _) => Some d
  | Some (Dir below) =>
      match template with
      | Some (File content) =>
          (* [cp] puts the file into the directory, under its own name *)
          match find "moltbot.json.template" below with
          | Some (Dir _) => None
          | _ =>
              Some {| backup := backup d;
                      config := put "clawdbot.json"
                                  (Dir (put "moltbot.json.template"
                                          (File content) below))
                                  (config d) |}
          end
      | _ =>
          (* [echo '{}' > directory] fails *)
          None
      end
  | None =>
      match template with
      | Some (File content) =>
          Some {| backup := backup d;
                  config := put "clawdbot.json" (File content) (config d) |}
      | _ =>
          Some {| backup := backup d;
                  config := put "clawdbot.json"
                              (File (String "{" (String "}"
                                       (String (ascii_of_N 10) ""))))
                              (config d) |}
      end
  end.

(** *** The projection of the environment onto [clawdbot.json]

    The [node] script of the start-up script.  It is sloppy-mode code: an
    assignment to a property of a primitive is dropped, a property of
    [undefined] or [null] is a TypeError, which nothing catches. *)

(** [root.k1.k2...kn] *)
Fixpoint read (root : jsval) (path : list string) : result jsval :=
  match path with
  | [] => Ok root
  | k :: path' => x ← js_get root k; read x path'
  end.

(** [root.k1.k2...kn = x], giving [root] afterwards *)
Fixpoint assign (root : jsval) (path : list string) (x : jsval) : result jsval :=
  match path with
  | [] => Ok x
  | k :: path' =>
      match path' with
      | [] => js_set false root k x
      | _ :: _ =>
          child ← js_get root k;
          child' ← assign child path' x;
          js_set false root k child'
      end
  end.

(** [delete root.k1.k2...kn], giving [root] afterwards *)
Fixpoint remove (root : jsval) (path : list string) : result jsval :=
  match path with
  | [] => Ok root
  | k :: path' =>
      match path' with
      | [] => js_delete root k
      | _ :: _ =>
          child ← js_get root k;
          child' ← remove child path';
          js_set false root k child'
      end
  end.

(** [root.k1...kn = root.k1...kn || {}] *)
Definition default_object `{Builtins} (root : jsval) (path : list string)
  : result jsval :=
  current ← read root path;
  assign root path (or_else current (JObj [])).

(** [a || b] on the variables of the environment *)
Definition env_or (a b : option jsstring) : option jsstring :=
  if is_set a then a else b.

(** [a || 'lit'] *)
Definition env_or_lit (a : option jsstring) (lit : string) : jsstring :=
  if is_set a then default [] a else js lit.

Inductive provider : Type :=
| NativeGateway (accountId apiKey : jsstring)
| DirectAnthropic
| BuiltinDefault.

Definition select_provider (env : gmap string jsstring) : provider :=
  let accountId := env_or (env !! "CLOUDFLARE_AI_GATEWAY_ACCOUNT_ID")
                     (env !! "CF_ACCOUNT_ID") in
  let apiKey := env_or (env !! "CLOUDFLARE_AI_GATEWAY_API_KEY")
                  (env !! "AI_GATEWAY_API_KEY") in
  if is_set accountId && is_set apiKey
  then NativeGateway (default [] accountId) (default [] apiKey)
  else if is_set (env !! "ANTHROPIC_API_KEY") then DirectAnthropic
  else BuiltinDefault.

Definition alias (name : string) : jsval := JObj [(js "alias", JStr (js name))].

Definition models (name : string) : list string :=
  ["agents"; "defaults"; "models"; name].
Definition providers (name : string) : list string :=
  ["models"; "providers"; name].

(** "Ensure nested objects exist" *)
Definition ensure_sections `{Builtins} (config : jsval) : result jsval :=
  config ← default_object config ["agents"];
  config ← default_object config ["agents"; "defaults"];
  config ← default_object config ["agents"; "defaults"; "model"];
  config ← default_object config ["gateway"];
  config ← default_object config ["channels"];
  config ← default_object config ["models"];
  default_object config ["models"; "providers"].

(** "Gateway configuration", the token and the dev mode *)
Definition gateway_settings `{Builtins} (env : gmap string jsstring)
    (config : jsval) : result jsval :=
  config ← assign config ["gateway"; "port"] (JNum (js "18789"));
  config ← assign config ["gateway"; "mode"] (JStr (js "local"));
  config ← assign config ["gateway"; "trustedProxies"]
             (JArr [JStr (js "10.1.0.0")] []);
  config ←
    (if is_set (env !! "CLAWDBOT_GATEWAY_TOKEN") then
       config ← default_object config ["gateway"; "auth"];
       assign config ["gateway"; "auth"; "token"]
         (JStr (default [] (env !! "CLAWDBOT_GATEWAY_TOKEN")))
     else Ok config);
  if is_lit (env !! "CLAWDBOT_DEV_MODE") "true" then
    config ← default_object config ["gateway"; "controlUi"];
    assign config ["gateway"; "controlUi"; "allowInsecureAuth"] (JBool true)
  else Ok config.

(** "Telegram configuration", "Discord configuration", "Slack
    configuration" *)
Definition channel_settings `{Builtins} (env : gmap string jsstring)
    (config : jsval) : result jsval :=
  config ←
    (if is_set (env !! "TELEGRAM_BOT_TOKEN") then
       config ← default_object config ["channels"; "telegram"];
       config ← assign config ["channels"; "telegram"; "botToken"]
                  (JStr (default [] (env !! "TELEGRAM_BOT_TOKEN")));
       config ← assign config ["channels"; "telegram"; "enabled"] (JBool true);
       config ← default_object config ["channels"; "telegram"; "dm"];
       assign config ["channels"; "telegram"; "dmPolicy"]
         (JStr (env_or_lit (env !! "TELEGRAM_DM_POLICY") "pairing"))
     else Ok config);
  config ←
    (if is_set (env !! "DISCORD_BOT_TOKEN") then
       config ← default_object config ["channels"; "discord"];
       config ← assign config ["channels"; "discord"; "token"]
                  (JStr (default [] (env !! "DISCORD_BOT_TOKEN")));
       config ← assign config ["channels"; "discord"; "enabled"] (JBool true);
       config ← default_object config ["channels"; "discord"; "dm"];
       assign config ["channels"; "discord"; "dm"; "policy"]
         (JStr (env_or_lit (env !! "DISCORD_DM_POLICY") "pairing"))
     else Ok config);
  if is_set (env !! "SLACK_BOT_TOKEN") && is_set (env !! "SLACK_APP_TOKEN") then
    config ← default_object config ["channels"; "slack"];
    config ← assign config ["channels"; "slack"; "botToken"]
               (JStr (default [] (env !! "SLACK_BOT_TOKEN")));
    config ← assign config ["channels"; "slack"; "appToken"]
               (JStr (default [] (env !! "SLACK_APP_TOKEN")));
    assign config ["channels"; "slack"; "enabled"] (JBool true)
  else Ok config.

(** The native provider of the Cloudflare AI Gateway *)
Definition native_provider `{Builtins} (env : gmap string jsstring)
    (accountId apiKey : jsstring) (config : jsval) : result jsval :=
  let gatewayId := env_or_lit (env !! "CLOUDFLARE_AI_GATEWAY_GATEWAY_ID")
                     "moltbot-gateway" in
  let cfAuthToken := env !! "CF_AIG_AUTHORIZATION" in
  (* clear any legacy provider configs to avoid conflicts *)
  config ← remove config (providers "anthropic");
  config ← remove config (providers "openai");
  config ← assign config (providers "cloudflare-ai-gateway")
             (JObj [(js "accountId", JStr accountId);
                    (js "gatewayId", JStr gatewayId);
                    (js "apiKey", JStr apiKey)]);
  config ←
    (if is_set cfAuthToken then
       let token := default [] cfAuthToken in
       assign config ["models"; "providers"; "cloudflare-ai-gateway"; "headers"]
         (JObj [(js "cf-aig-authorization",
                 JStr (if startsWith token (js "Bearer ") then token
                       else (js "Bearer " ++ token)%list))])
     else Ok config);
  config ← default_object config ["agents"; "defaults"; "models"];
  config ← assign config
             (models "cloudflare-ai-gateway/google-ai-studio/gemini-2.0-flash")
             (alias "Gemini 2.0 Flash");
  config ← assign config
             (models "cloudflare-ai-gateway/google-ai-studio/gemini-2.5-flash")
             (alias "Gemini 2.5 Flash");
  config ← assign config
             (models "cloudflare-ai-gateway/google-ai-studio/gemini-2.5-pro")
             (alias "Gemini 2.5 Pro");
  config ← assign config (models "cloudflare-ai-gateway/claude-opus-4-5")
             (alias "Claude Opus 4.5");
  config ← assign config (models "cloudflare-ai-gateway/claude-sonnet-4-5")
             (alias "Claude Sonnet 4.5");
  config ← assign config (models "cloudflare-ai-gateway/gpt-4o")
             (alias "GPT-4o");
  config ← assign config (models "cloudflare-ai-gateway/gpt-4o-mini")
             (alias "GPT-4o Mini");
  let defaultModel :=
    env_or_lit (env !! "DEFAULT_MODEL")
      "cloudflare-ai-gateway/google-ai-studio/gemini-2.5-flash" in
  assign config ["agents"; "defaults"; "model"; "primary"] (JStr defaultModel).

(** The direct Anthropic provider *)
Definition direct_provider `{Builtins} (config : jsval) : result jsval :=
  config ← default_object config ["agents"; "defaults"; "models"];
  config ← assign config (models "anthropic/claude-opus-4-5-20251101")
             (alias "Opus 4.5");
  config ← assign config (models "anthropic/claude-sonnet-4-5-20250929")
             (alias "Sonnet 4.5");
  config ← assign config (models "anthropic/claude-haiku-4-5-20251001")
             (alias "Haiku 4.5");
  assign config ["agents"; "defaults"; "model"; "primary"]
    (JStr (js "anthropic/claude-opus-4-5-20251101")).

(** The default provider, of the built-in catalog *)
Definition default_provider (config : jsval) : result jsval :=
  assign config ["agents"; "defaults"; "model"; "primary"]
    (JStr (js "anthropic/claude-opus-4-5")).

(** The script, from "Ensure nested objects exist" to the choice of the
    provider; the result is the configuration it writes. *)
Definition configure `{Builtins} (env : gmap string jsstring) (config : jsval)
  : result jsval :=
  config ← ensure_sections config;
  config ← gateway_settings env config;
  config ← channel_settings env config;
  match select_provider env with
  | NativeGateway accountId apiKey => native_provider env accountId apiKey config
  | DirectAnthropic => direct_provider config
  | BuiltinDefault => default_provider config
  end.

(** [config = {}; try { config = JSON.parse(text) } catch {}], where [text]
    is what [readFileSync] gives, if it gives anything. *)
Definition load_config (text : option jsstring) : jsval :=
  match text with
  | Some t => default (JObj []) (JSON_parse t)
  | None => JObj []
  end.

(** The entry of the configuration at a path of keys: the own property, at
    every key of the path.  This is what [JSON.stringify(config, null, 2)]
    writes under those keys, when it is there. *)
Fixpoint entry (doc : jsval) (path : list string) : option jsval :=
  match path with
  | [] => Some doc
  | k :: path' =>
      match doc with
      | JObj props | JArr _ props =>
          match assoc (js k) props with
          | Some x => entry x path'
          | None => None
          end
      | _ => None
      end
  end.

(** *** The shape of a configuration

    The configuration is a nested mapping: where the script reaches into a
    section, the section is an object or is not there. *)

(** Two paths part ways at some key. *)
Fixpoint diverge (p q : list string) : bool :=
  match p, q with
  | a :: p', b :: q' => if String.eqb a b then diverge p' q' else true
  | _, _ => false
  end.

(** [q] leads to a proper ancestor of what [p] leads to. *)
Fixpoint above (q p : list string) : bool :=
  match q, p with
  | [], _ :: _ => true
  | a :: q', b :: p' => String.eqb a b && above q' p'
  | _, _ => false
  end.

Fixpoint path_eqb (p q : list string) : bool :=
  match p, q with
  | [], [] => true
  | a :: p', b :: q' => String.eqb a b && path_eqb p' q'
  | _, _ => false
  end.

Definition path_in (p : list string) (l : list (list string)) : bool :=
  existsb (path_eqb p) l.

(** The proper ancestors of what [p] leads to, the root apart. *)
Fixpoint ancestors (p : list string) : list (list string) :=
  match p with
  | [] => []
  | k :: p' =>
      match p' with
      | [] => []
      | _ :: _ => [k] :: map (cons k) (ancestors p')
      end
  end.

Definition is_object (v : jsval) : bool :=
  match v with JObj _ => true | _ => false end.

Definition object_at (config : jsval) (p : list string) : bool :=
  match entry config p with
  | Some (JObj _) => true
  | _ => false
  end.

Definition free_or_object_at (config : jsval) (p : list string) : bool :=
  match entry config p with
  | None | Some (JObj _) => true
  | Some _ => false
  end.

Definition sections : list (list string) :=
  [["agents"]; ["agents"; "defaults"]; ["agents"; "defaults"; "model"];
   ["agents"; "defaults"; "models"];
   ["gateway"]; ["gateway"; "auth"]; ["gateway"; "controlUi"];
   ["channels"];
   ["channels"; "telegram"]; ["channels"; "telegram"; "dm"];
   ["channels"; "discord"]; ["channels"; "discord"; "dm"];
   ["channels"; "slack"];
   ["models"]; ["models"; "providers"]].

Definition nested_mapping (config : jsval) : bool :=
  is_object config && forallb (free_or_object_at config) sections.

(** What is known of a configuration while the script runs: it is an object,
    [objs] lead to objects, [oks] to objects or to nothing. *)
Definition holds (r : jsval) (objs oks : list (list string)) : Prop :=
  is_object r = true
  /\ Forall (fun q => object_at r q = true) objs
  /\ Forall (fun q => free_or_object_at r q = true) oks.

(** The objects the script has made sure of after its first lines. *)
Definition made_sure : list (list string) :=
  [["models"; "providers"]; ["models"]; ["channels"]; ["gateway"];
   ["agents"; "defaults"; "model"]; ["agents"; "defaults"]; ["agents"]].

(** The entries of the legacy providers are what they were. *)
Definition legacy_kept (config config' : jsval) : Prop :=
  entry config' (providers "anthropic") = entry config (providers "anthropic")
  /\ entry config' (providers "openai") = entry config (providers "openai").

(** Where the primary model is. *)
Definition primary : list string := ["agents"; "defaults"; "model"; "primary"].

(** *** The guard and the launch *)

(** [pgrep -f "clawdbot gateway"] over the command lines of the processes *)
Definition pgrep_gateway (processes : list jsstring) : bool :=
  existsb (fun command => includes command (js "clawdbot gateway")) processes.

Definition gateway_command (env : gmap string jsstring) : list jsstring :=
  let BIND_MODE := js "lan" in
  let command := [js "clawdbot"; js "gateway"; js "--port"; js "18789";
                  js "--verbose"; js "--allow-unconfigured";
                  js "--bind"; BIND_MODE] in
  if is_set (env !! "CLAWDBOT_GATEWAY_TOKEN")
  then (command ++ [js "--token"; default [] (env !! "CLAWDBOT_GATEWAY_TOKEN")])%list
  else command.

(** How the script ends: it exits, or it becomes the gateway. *)
Inductive ending : Type :=
| Exit (code : Z)
| Exec (command : list jsstring).

(** The script up to the projection of the environment, on the text [node]
    reads, if it reads any: the guard, the restore and the [node] program,
    without the files it is read from and written to ([start_script] below
    has them). *)
Definition start_moltbot `{Builtins} (processes : list jsstring)
    (env : gmap string jsstring) (d : disk) (text : option jsstring) : ending :=
  if pgrep_gateway processes then Exit 0
  else
    match restore d with
    | None => Exit 1
    | Some _ =>
        match configure env (load_config text) with
        | Throw _ => Exit 1
        | Ok _ => Exec (gateway_command env)
        end
    end.

(** *** The script from its first line to its last

    The files hold bytes and [node] reads and writes them as UTF-8: decoding
    puts U+FFFD for what is no UTF-8 and encoding does the same for a lone
    surrogate, so neither fails. *)

Class Codec : Type := {
  utf8_decode : string -> jsstring;
  utf8_encode : jsstring -> string
}.

(** [fs.readFileSync(configPath, 'utf8')]: [None] when it throws, on a
    directory or on nothing. *)
Definition read_config `{Codec} (d : disk) : option jsstring :=
  match find "clawdbot.json" (config d) with
  | Some (File content) => Some (utf8_decode content)
  | _ => None
  end.

(** [fs.writeFileSync(configPath, JSON.stringify(config, null, 2))]: [None]
    when it throws, on [undefined] or on a directory. *)
Definition write_config `{Builtins} `{Codec} (final : jsval) (d : disk)
  : option disk :=
  match JSON_stringify_spaced final 2 with
  | None => None
  | Some text =>
      match find "clawdbot.json" (config d) with
      | Some (Dir _) => None
      | _ =>
          Some {| backup := backup d;
                  config := put "clawdbot.json" (File (utf8_encode text))
                              (config d) |}
      end
  end.

Definition unlink (name : string) (entries : list (string * node))
  : list (string * node) :=
  List.filter (fun e => negb (String.eqb name (fst e))) entries.

(** [rm -f "$CONFIG_DIR/gateway.lock" 2>/dev/null || true]: a file is
    removed, a directory stays.  The lock under [/tmp], removed the same way,
    is in neither of the two trees. *)
Definition remove_lock (d : disk) : disk :=
  match find "gateway.lock" (config d) with
  | Some (File _) =>
      {| backup := backup d; config := unlink "gateway.lock" (config d) |}
  | _ => d
  end.

(** How the script ends, with the files it leaves to the gateway. *)
Inductive finish : Type :=
| Stopped (code : Z)
| Launched (command : list jsstring) (d : disk).

(** The script from its first line to its last: the guard, the restore, the
    configuration file when there is none, the [node] program on the file,
    the lock, the launch.  [template] is what is at [$TEMPLATE_FILE].  Under
    [set -e] a command that fails ends the script with status 1. *)
Definition start_script `{Builtins} `{Codec} (processes : list jsstring)
    (env : gmap string jsstring) (template : option node) (d : disk)
  : finish :=
  if pgrep_gateway processes then Stopped 0
  else
    match restore d with
    | None => Stopped 1
    | Some d1 =>
        match ensure_config_file template d1 with
        | None => Stopped 1
        | Some d2 =>
            match configure env (load_config (read_config d2)) with
            | Throw _ => Stopped 1
            | Ok final =>
                match write_config final d2 with
                | None => Stopped 1
                | Some d3 => Launched (gateway_command env) (remove_lock d3)
                end
            end
        end
    end.

End Startup.

(** ** The supervisor of the gateway *)

Module Supervisor.

(** Modelled from the spec: [ensureMoltbotGateway] of [src/gateway], which
    [src/index.ts] imports and [src/] does not hold.  Section 4.2 of the
    design gives its algorithm, section 5 the guard and the suspension
    points:

    + probe, a query of the process list that the call awaits; if the
      gateway is running, return success at once;
    + otherwise acquire the single-flight guard: if a start is in flight,
      await its outcome rather than starting a second process;
    + else start the gateway (the start-up script) and poll until it is
      running or the bound is reached;
    + the guard is released only when the poll has completed, and every
      caller that awaited the start settles with its outcome.

    A call suspends on its probe, and other calls and the end of a start may
    come between the answer of the probe and the guard; from the guard to the
    spawn a call does not suspend. *)

(** Modelled from the spec: how a start ends. *)
Inductive outcome : Type := Success | StartupError.

(** Modelled from the spec: where a call is. *)
Inductive call : Type :=
| Observed          (* its probe has answered: not running *)
| Starting          (* holds the guard: has spawned, polls *)
| Awaiting          (* awaits the start in flight *)
| Returned (o : outcome).

(** Modelled from the spec: the supervisor and its callers. *)
Record state : Type := {
  (** what the probe reports: the gateway is running *)
  running : bool;
  (** the guard: a start is in flight *)
  in_flight : bool;
  (** how many times the gateway was spawned *)
  spawns : nat;
  (** the calls made so far, by caller *)
  calls : gmap nat call
}.


(** Modelled from the spec: step 1 of section 4.2, the probe of a new call
    [i] answers. *)
Definition probe (i : nat) (s : state) : state :=
  match calls s !! i with
  | Some _ => s
  | None =>
      {| running := running s; in_flight := in_flight s; spawns := spawns s;
         calls := <[i := if running s then Returned Success else Observed]>
                    (calls s) |}
  end.

(** Modelled from the spec: steps 2 to 5 of section 4.2, the call [i] whose
    probe answered "not running" reaches the guard. *)
Definition enter (i : nat) (s : state) : state :=
  match calls s !! i with
  | Some Observed =>
      if in_flight s then
        {| running := running s; in_flight := in_flight s; spawns := spawns s;
           calls := <[i := Awaiting]> (calls s) |}
      else
        {| running := running s; in_flight := true; spawns := S (spawns s);
           calls := <[i := Starting]> (calls s) |}
  | _ => s
  end.

(** Modelled from the spec: step 6 completes with [o]; the guard is released
    and the start settles for the caller that made it and for those that
    awaited it. *)
Definition settle (o : outcome) (s : state) : state :=
  if in_flight s then
    {| running := match o with Success => true | StartupError => running s end;
       in_flight := false;
       spawns := spawns s;
       calls := (λ c, match c with
                      | Starting | Awaiting => Returned o
                      | c' => c'
                      end) <$> calls s |}
  else s.

(** Modelled from the spec: what a caller does next. *)
Inductive move : Type :=
| Probe (i : nat)
| Enter (i : nat).

(** Modelled from the spec: what happens next. *)
Inductive step : Type :=
| Do (m : move)
| Settle (o : outcome).

(** Modelled from the spec: one step of the supervisor. *)
Definition exec (s : state) (x : step) : state :=
  match x with
  | Do (Probe i) => probe i s
  | Do (Enter i) => enter i s
  | Settle o => settle o s
  end.

(** Modelled from the spec: the steps of a schedule, one after the other. *)
Definition run (schedule : list step) (s : state) : state :=
  fold_left exec schedule s.




End Supervisor.

(** ** Sample data *)

Module Samples.
Import JS Worker Startup.

(** An engine that is JavaScript's on ASCII text and on the integer
    literals written the way [JSON.stringify] prints them. *)
Definition ascii_lowercase (s : jsstring) : jsstring :=
  map (fun c => if (65 <=? c)%N && (c <=? 90)%N then (c + 32)%N else c) s.

Definition all_zeros (literal : jsstring) : bool :=
  forallb (fun c => negb (is_digit c) || (c =? 48)%N) literal.

(** The codec, for the texts of the samples, which are ASCII. *)
Definition ascii_codec : Codec :=
  {| utf8_decode := js;
     utf8_encode := fun text =>
       string_of_list_ascii (map ascii_of_N text) |}.

Definition ascii_engine : Builtins :=
  {| Number_is_zero := all_zeros;
     Number_text := fun literal => literal;
     toLowerCase := ascii_lowercase |}.

Definition pages : Assets :=
  {| loadingPageHtml := js "<html><body>Starting...</body></html>";
     configErrorHtml := js "<html><body>Missing: {{MISSING_VARS}}</body></html>";
     MOLTBOT_PORT := 18789 |}.

Definition ok_response : Response :=
  {| status := 200; statusText := js "OK";
     headers := {[ "content-type"%string := [js "text/html"] ]};
     body := Stream 1; webSocket := None |}.

Definition upgrade_response : Response :=
  {| status := 101; statusText := js "Switching Protocols";
     headers := ∅; body := NoBody; webSocket := Some containerWs |}.

(** The gateway is absent, its start succeeds, every send goes through. *)
Definition cold_world : World :=
  {| the_process := None;
     ensure_outcome := None;
     fetch_outcome := fun request _ =>
       match req_headers request !! "upgrade"%string with
       | Some _ => inl upgrade_response
       | None => inl ok_response
       end;
     send_outcome := fun _ _ => None |}.

Definition browser_request : Request :=
  {| method := js "GET"; host := js "bot.example.com"; pathname := js "/chat";
     search := [];
     req_headers := {[ "accept"%string := [js "text/html,application/xhtml+xml"] ]} |}.

Definition api_request : Request :=
  {| method := js "GET"; host := js "bot.example.com"; pathname := js "/v1/x";
     search := [];
     req_headers := {[ "accept"%string := [js "application/json"] ]} |}.

Definition upgrade_request : Request :=
  {| method := js "GET"; host := js "bot.example.com"; pathname := js "/ws";
     search := [];
     req_headers := {[ "upgrade"%string := [js "WebSocket"] ]} |}.

Definition no_bindings : MoltbotEnv :=
  {| CF_ACCOUNT_ID := None; AI_GATEWAY_ID := None; AI_GATEWAY_API_KEY := None;
     CF_AIG_AUTHORIZATION := None; DEFAULT_MODEL := None;
     AI_GATEWAY_BASE_URL := None; ANTHROPIC_API_KEY := None;
     ANTHROPIC_BASE_URL := None; OPENAI_API_KEY := None;
     MOLTBOT_GATEWAY_TOKEN := None; CLAWDBOT_BIND_MODE := None;
     DEV_MODE := None; DEBUG_ROUTES := None; SANDBOX_SLEEP_AFTER := None;
     TELEGRAM_BOT_TOKEN := None; TELEGRAM_DM_POLICY := None;
     DISCORD_BOT_TOKEN := None; DISCORD_DM_POLICY := None;
     SLACK_BOT_TOKEN := None; SLACK_APP_TOKEN := None;
     CF_ACCESS_TEAM_DOMAIN := None; CF_ACCESS_AUD := None;
     CDP_SECRET := None; WORKER_URL := None |}.

(** A legacy gateway URL with a key of the gateway and a direct key. *)
Definition legacy_env (url : string) : MoltbotEnv :=
  {| CF_ACCOUNT_ID := None; AI_GATEWAY_ID := None;
     AI_GATEWAY_API_KEY := Some (js "gateway-key");
     CF_AIG_AUTHORIZATION := None; DEFAULT_MODEL := None;
     AI_GATEWAY_BASE_URL := Some (js url);
     ANTHROPIC_API_KEY := Some (js "direct-key");
     ANTHROPIC_BASE_URL := None; OPENAI_API_KEY := None;
     MOLTBOT_GATEWAY_TOKEN := None; CLAWDBOT_BIND_MODE := None;
     DEV_MODE := None; DEBUG_ROUTES := None; SANDBOX_SLEEP_AFTER := None;
     TELEGRAM_BOT_TOKEN := None; TELEGRAM_DM_POLICY := None;
     DISCORD_BOT_TOKEN := None; DISCORD_DM_POLICY := None;
     SLACK_BOT_TOKEN := None; SLACK_APP_TOKEN := None;
     CF_ACCESS_TEAM_DOMAIN := None; CF_ACCESS_AUD := None;
     CDP_SECRET := None; WORKER_URL := None |}.

(** The frame [{"error": "boom"}], with a space after the colon, and what
    [JSON.stringify] prints for its value. *)
Definition spaced_frame : jsstring :=
  js "{" ++ [34%N] ++ js "error" ++ [34%N] ++ js ": "
     ++ [34%N] ++ js "boom" ++ [34%N] ++ js "}".

Definition packed_frame : jsstring :=
  js "{" ++ [34%N] ++ js "error" ++ [34%N] ++ js ":"
     ++ [34%N] ++ js "boom" ++ [34%N] ++ js "}".

(** The frame [{"error":"gateway token mismatch"}]. *)
Definition mismatch_frame : jsstring :=
  js "{" ++ [34%N] ++ js "error" ++ [34%N] ++ js ":"
     ++ [34%N] ++ js "gateway token mismatch" ++ [34%N] ++ js "}".

(** The frame [{"\u0065rror":"pairing required"}]: its key is [error],
    written with an escape for its first letter. *)
Definition escaped_frame : jsstring :=
  js "{" ++ [34%N] ++ js "\u0065rror" ++ [34%N] ++ js ":"
     ++ [34%N] ++ js "pairing required" ++ [34%N] ++ js "}".

(** The variables of a container with the native gateway and a direct key. *)
Definition native_env : gmap string jsstring :=
  {[ "CF_ACCOUNT_ID"%string := js "account";
     "AI_GATEWAY_API_KEY"%string := js "gateway-key";
     "ANTHROPIC_API_KEY"%string := js "direct-key" ]}.

(** A configuration with both legacy providers. *)
Definition legacy_config : jsval :=
  JObj [(js "models",
         JObj [(js "providers",
                JObj [(js "anthropic", JObj [(js "apiKey", JStr (js "old"))]);
                      (js "openai", JObj [])])])].

(** A backup and local files, each with its [.last-sync]. *)
Definition stamped_disk (remote local : string) : disk :=
  {| backup := Some (Dir [("clawdbot"%string,
                           Dir [("clawdbot.json"%string, File "{}")]);
                          (".last-sync"%string, File remote)]);
     config := [("clawdbot.json"%string, File "{}");
                (".last-sync"%string, File local)] |}.


Definition fresh_disk : disk :=
  {| backup := Some (Dir [("clawdbot"%string,
                           Dir [("clawdbot.json"%string, File "{}")]);
                          ("skills"%string,
                           Dir [("hello.md"%string, File "hi")])]);
     config := [] |}.

(** The start of the gateway fails, the container does not answer, no send
    goes through. *)
Definition failing_world : World :=
  {| the_process := None;
     ensure_outcome := Some (ErrorObject (js "Gateway did not start"));
     fetch_outcome := fun _ _ => inr (ErrorObject (js "Container is not running"));
     send_outcome := fun _ _ => Some (ErrorObject (js "WebSocket is closed")) |}.

(** The gateway runs and answers an upgrade without a WebSocket. *)
Definition plain_world : World :=
  {| the_process := Some {| proc_id := js "p1"; proc_status := js "running" |};
     ensure_outcome := None;
     fetch_outcome := fun _ _ => inl ok_response;
     send_outcome := fun _ _ => None |}.

(** The gateway runs, the container does not answer. *)
Definition unreachable_world : World :=
  {| the_process := Some {| proc_id := js "p1"; proc_status := js "running" |};
     ensure_outcome := None;
     fetch_outcome := fun _ _ => inr (ErrorObject (js "Container is not running"));
     send_outcome := fun _ _ => None |}.

(** An account and a gateway id, no API key of any kind. *)
Definition keyless_env : MoltbotEnv :=
  {| CF_ACCOUNT_ID := Some (js "account"); AI_GATEWAY_ID := Some (js "my-gateway");
     AI_GATEWAY_API_KEY := None;
     CF_AIG_AUTHORIZATION := None; DEFAULT_MODEL := None;
     AI_GATEWAY_BASE_URL := None; ANTHROPIC_API_KEY := None;
     ANTHROPIC_BASE_URL := None; OPENAI_API_KEY := None;
     MOLTBOT_GATEWAY_TOKEN := Some (js "secret"); CLAWDBOT_BIND_MODE := Some (js "loopback");
     DEV_MODE := None; DEBUG_ROUTES := None; SANDBOX_SLEEP_AFTER := None;
     TELEGRAM_BOT_TOKEN := None; TELEGRAM_DM_POLICY := None;
     DISCORD_BOT_TOKEN := None; DISCORD_DM_POLICY := None;
     SLACK_BOT_TOKEN := None; SLACK_APP_TOKEN := None;
     CF_ACCESS_TEAM_DOMAIN := Some (js "team.cloudflareaccess.com");
     CF_ACCESS_AUD := Some (js "aud");
     CDP_SECRET := None; WORKER_URL := None |}.

(** A configuration with a section of its own and an old gateway token. *)
Definition custom_config : jsval :=
  JObj [(js "tools", JObj [(js "web", JObj [(js "enabled", JBool true)])]);
        (js "gateway",
         JObj [(js "auth", JObj [(js "token", JStr (js "old-token"))]);
               (js "bind", JStr (js "loopback"))]);
        (js "channels",
         JObj [(js "telegram", JObj [(js "botToken", JStr (js "old-bot"))])])].

(** The bot token of Slack without the app token. *)
Definition slack_env : gmap string jsstring :=
  {[ "SLACK_BOT_TOKEN"%string := js "xoxb-1" ]}.

(** The native gateway with a token for an authenticated gateway. *)
Definition bearer_env : gmap string jsstring :=
  {[ "CF_ACCOUNT_ID"%string := js "account";
     "AI_GATEWAY_API_KEY"%string := js "gateway-key";
     "CF_AIG_AUTHORIZATION"%string := js "cf-token" ]}.

(** A configuration whose native provider holds a key of its own. *)
Definition stale_provider_config : jsval :=
  JObj [(js "models",
         JObj [(js "providers",
                JObj [(js "cloudflare-ai-gateway",
                       JObj [(js "baseUrl", JStr (js "https://old.example"));
                             (js "headers", JObj [(js "x-old", JStr (js "1"))])])])])].

(** A backup with a skill, over a local directory where [skills] is a
    file. *)
Definition blocked_disk : disk :=
  {| backup := Some (Dir [("clawdbot"%string,
                           Dir [("clawdbot.json"%string, File "{}")]);
                          ("skills"%string,
                           Dir [("hello.md"%string, File "hi")])]);
     config := [("skills"%string, File "notes")] |}.

End Samples.

(** * Properties *)

(** ** JavaScript values and JSON *)

Module JSFacts.
Import JS.
Local Open Scope string_scope.
Local Open Scope list_scope.

(** *** Keys *)

Lemma str_eqb_eq (s t : jsstring) : str_eqb s t = true <-> s = t.
Proof.
  revert t. induction s as [|a s IH]; intros [|b t]; simpl;
    try (split; [discriminate|discriminate]); [tauto|].
  rewrite andb_true_iff, N.eqb_eq, IH. split.
  - now intros [-> ->].
  - intros E. now inversion E.
Qed.

Lemma str_eqb_refl (s : jsstring) : str_eqb s s = true.
Proof. now apply str_eqb_eq. Qed.

Lemma js_inj (a b : string) : js a = js b -> a = b.
Proof.
  unfold js. intros E.
  rewrite <- (string_of_list_ascii_of_string a),
          <- (string_of_list_ascii_of_string b).
  f_equal. revert E.
  generalize (list_ascii_of_string a) (list_ascii_of_string b).
  intros l. induction l as [|x l IH]; intros [|y m]; simpl; try discriminate;
    auto.
  intros E. inversion E as [[Hx Hl]]. f_equal; auto.
  rewrite <- (ascii_N_embedding x), <- (ascii_N_embedding y). now rewrite Hx.
Qed.

Lemma str_eqb_js (a b : string) : str_eqb (js a) (js b) = String.eqb a b.
Proof.
  destruct (String.eqb a b) eqn:E.
  - apply String.eqb_eq in E. subst. now apply str_eqb_eq.
  - apply String.eqb_neq in E. destruct (str_eqb (js a) (js b)) eqn:E'; auto.
    apply str_eqb_eq, js_inj in E'. contradiction.
Qed.

Section Assoc.
Context {A : Type}.
Implicit Types (l : list (jsstring * A)).

Lemma assoc_set_same (k : jsstring) (v : A) l :
  assoc k (assoc_set k v l) = Some v.
Proof.
  induction l as [|[k' v'] l IH]; simpl.
  - assert (E : str_eqb k k = true) by now apply str_eqb_eq.
    now rewrite E.
  - destruct (str_eqb k k') eqn:E; simpl; now rewrite E.
Qed.

Lemma assoc_set_other (k k' : jsstring) (v : A) l :
  str_eqb k' k = false -> assoc k' (assoc_set k v l) = assoc k' l.
Proof.
  intros Hne. induction l as [|[k0 v0] l IH]; simpl.
  - now rewrite Hne.
  - destruct (str_eqb k k0) eqn:E; simpl.
    + apply str_eqb_eq in E. subst k0. now rewrite Hne.
    + destruct (str_eqb k' k0); auto.
Qed.

Lemma assoc_set_id (k : jsstring) (v : A) l :
  assoc k l = Some v -> assoc_set k v l = l.
Proof.
  induction l as [|[k0 v0] l IH]; simpl; [discriminate|].
  destruct (str_eqb k k0) eqn:E.
  - now intros [= ->].
  - intros H. now rewrite IH.
Qed.

Lemma assoc_del_same (k : jsstring) l : assoc k (assoc_del k l) = None.
Proof.
  induction l as [|[k0 v0] l IH]; simpl; auto.
  destruct (str_eqb k k0) eqn:E; simpl; auto. now rewrite E.
Qed.

Lemma assoc_del_other (k k' : jsstring) l :
  str_eqb k' k = false -> assoc k' (assoc_del k l) = assoc k' l.
Proof.
  intros Hne. induction l as [|[k0 v0] l IH]; simpl; auto.
  destruct (str_eqb k k0) eqn:E; simpl.
  - apply str_eqb_eq in E. subst k0. now rewrite Hne.
  - destruct (str_eqb k' k0); auto.
Qed.
End Assoc.

(** *** The fuel of the parser *)

Lemma skip_ws_length (s : jsstring) : length (skip_ws s) <= length s.
Proof.
  induction s as [|c s IH]; simpl; [lia|].
  destruct (is_ws c); simpl; lia.
Qed.

Lemma take_digits_length (s : jsstring) :
  length (snd (take_digits s)) <= length s.
Proof.
  induction s as [|c s IH]; simpl; [lia|].
  destruct (is_digit c); simpl; [|lia].
  destruct (take_digits s); simpl in *; lia.
Qed.

Ltac break_var :=
  match goal with
  | |- context [match ?x with _ => _ end] => is_var x; destruct x; cbv beta iota
  end.

Ltac lengths := cbn [length fst snd] in *; lia.

Lemma parse_string_body_length (n : nat) :
  forall s acc str r,
    length s <= n -> parse_string_body acc s = Some (str, r) ->
    length r < length s.
Proof.
  induction n as [|n IH]; intros s acc str r Hn.
  - destruct s; [discriminate|lengths].
  - destruct s as [|c s]; [discriminate|].
    cbn [parse_string_body]. repeat break_var;
      try discriminate;
      try (intros E; injection E as <- <-; lengths);
      try (intros E; apply IH in E; lengths);
      try (destruct (_ <? _)%N; [discriminate|];
           intros E; apply IH in E; lengths);
      try (destruct (hex4 _ _ _ _); [|discriminate];
           intros E; apply IH in E; lengths).
Qed.

Ltac lex_leaf :=
  repeat match goal with
    | |- _ -> _ => intro
    | H : Some _ = Some _ |- _ => injection H as <- <-
    | H : None = Some _ |- _ => discriminate H
    | H : context [take_digits ?r] |- _ =>
        pose proof (take_digits_length r); destruct (take_digits r)
    | H : context [if ?b then _ else _] |- _ => destruct b
    | H : context [match ?x with _ => _ end] |- _ => is_var x; destruct x
    end;
  try lengths.

Lemma lex_int_length s l r : lex_int s = Some (l, r) -> length r < length s.
Proof. unfold lex_int. repeat break_var; lex_leaf. Qed.

Lemma lex_frac_length s l r : lex_frac s = Some (l, r) -> length r <= length s.
Proof. unfold lex_frac. repeat break_var; lex_leaf. Qed.

Lemma lex_digits1_length s l r :
  lex_digits1 s = Some (l, r) -> length r <= length s.
Proof. unfold lex_digits1. lex_leaf. Qed.

Lemma lex_exp_length s l r : lex_exp s = Some (l, r) -> length r <= length s.
Proof.
  unfold lex_exp. destruct s as [|e s]; [lex_leaf|].
  destruct (_ || _); [|lex_leaf].
  destruct s as [|sign s]; [lex_leaf|].
  destruct (_ || _).
  - destruct (lex_digits1 s) as [[ds r']|] eqn:E; [|discriminate].
    apply lex_digits1_length in E. lex_leaf.
  - destruct (lex_digits1 (sign :: s)) as [[ds r']|] eqn:E; [|discriminate].
    apply lex_digits1_length in E. lex_leaf.
Qed.

Lemma lex_number_length s l r :
  lex_number s = Some (l, r) -> length r < length s.
Proof.
  unfold lex_number.
  assert (exists sign s1,
             match s with
             | 45%N :: r => ([45%N], r)
             | _ => ([], s)
             end = (sign, s1) /\ length s1 <= length s) as (sign & s1 & -> & Hs1).
  { repeat break_var; eexists _, _; (split; [reflexivity|lengths]). }
  destruct (lex_int s1) as [[i s2]|] eqn:Ei; [|discriminate].
  destruct (lex_frac s2) as [[f s3]|] eqn:Ef; [|discriminate].
  destruct (lex_exp s3) as [[e s4]|] eqn:Ee; [|discriminate].
  apply lex_int_length in Ei. apply lex_frac_length in Ef.
  apply lex_exp_length in Ee. intros E. injection E as <- <-. lia.
Qed.

Lemma shorter_le p s s' : shorter p s -> length s <= length s' -> shorter p s'.
Proof. destruct p; simpl; auto. lia. Qed.

Ltac hide_skip_ws :=
  match goal with
  | |- context [skip_ws ?r] =>
      let w := fresh "w" in
      pose proof (skip_ws_length r);
      set (w := skip_ws r) in *; clearbody w
  end.

Ltac parse_leaf IHv IHe IHm :=
  match goal with
  | |- shorter (POk _ _) _ => unfold shorter; lengths
  | |- shorter PSyntaxError _ => exact I
  | |- shorter PFuel _ => exact I
  | |- shorter (parse_members _ _ _) _ =>
      eapply shorter_le; [apply IHm|lengths]
  | |- shorter (parse_elements _ _ _) _ =>
      eapply shorter_le; [apply IHe|lengths]
  | |- shorter (match lex_number ?x with _ => _ end) _ =>
      let E := fresh "E" in
      destruct (lex_number x) as [[? ?]|] eqn:E;
      [apply lex_number_length in E; unfold shorter; lengths|exact I]
  end.

Ltac parse_string :=
  match goal with
  | |- context [parse_string_body [] ?x] =>
      let E := fresh "E" in
      destruct (parse_string_body [] x) as [[? ?]|] eqn:E;
      [apply (parse_string_body_length _ _ _ _ _ (le_n _)) in E|exact I]
  end.

Ltac parse_inner IHv :=
  match goal with
  | |- context [parse_value ?f ?x] =>
      let H := fresh "H" in
      pose proof (IHv x) as H;
      destruct (parse_value f x); unfold shorter in H
  end.

(** What a parse leaves is shorter than what it was given. *)
Lemma parse_shorter (fuel : nat) :
  (forall s, shorter (parse_value fuel s) s)
  /\ (forall acc s, shorter (parse_elements fuel acc s) s)
  /\ (forall acc s, shorter (parse_members fuel acc s) s).
Proof.
  induction fuel as [|fuel (IHv & IHe & IHm)]; [now repeat split|].
  split; [|split].
  - intros s. cbn [parse_value].
    repeat first [parse_leaf IHv IHe IHm | hide_skip_ws | break_var
                 | parse_string].
  - intros acc s. cbn [parse_elements].
    repeat first [parse_leaf IHv IHe IHm | parse_inner IHv | hide_skip_ws
                 | break_var].
  - intros acc s. cbn [parse_members].
    repeat first [parse_leaf IHv IHe IHm | parse_string | parse_inner IHv
                 | hide_skip_ws | break_var ].
Qed.

Ltac fuel_leaf IHv IHe IHm :=
  match goal with
  | |- POk _ _ <> PFuel => discriminate
  | |- PSyntaxError <> PFuel => discriminate
  | |- parse_members _ _ _ <> PFuel => apply IHm; lengths
  | |- parse_elements _ _ _ <> PFuel => apply IHe; lengths
  | |- match lex_number ?x with _ => _ end <> PFuel =>
      destruct (lex_number x) as [[? ?]|]; discriminate
  end.

Ltac fuel_string :=
  match goal with
  | |- context [parse_string_body [] ?x] =>
      let E := fresh "E" in
      destruct (parse_string_body [] x) as [[? ?]|] eqn:E;
      [apply (parse_string_body_length _ _ _ _ _ (le_n _)) in E|discriminate]
  end.

Ltac fuel_inner IHv :=
  match goal with
  | |- context [parse_value ?f ?x] =>
      let H := fresh "H" in
      let F := fresh "F" in
      pose proof (proj1 (parse_shorter f) x) as H;
      assert (parse_value f x <> PFuel) as F by (apply IHv; lengths);
      destruct (parse_value f x);
      [unfold shorter in H; clear F|discriminate|now destruct F]
  end.

(** Every call uses up a character or follows one that did: with more fuel
    than twice the length, the parse does not run out of it. *)
Lemma parse_fuel (fuel : nat) :
  (forall s, 2 * length s < fuel -> parse_value fuel s <> PFuel)
  /\ (forall acc s,
        2 * length s + 1 < fuel -> parse_elements fuel acc s <> PFuel)
  /\ (forall acc s,
        2 * length s + 1 < fuel -> parse_members fuel acc s <> PFuel).
Proof.
  induction fuel as [|fuel (IHv & IHe & IHm)]; [repeat split; intros; lia|].
  split; [|split].
  - intros s Hs. cbn [parse_value].
    repeat first [fuel_leaf IHv IHe IHm | hide_skip_ws | break_var
                 | fuel_string].
  - intros acc s Hs. cbn [parse_elements].
    repeat first [fuel_leaf IHv IHe IHm | fuel_inner IHv | hide_skip_ws
                 | break_var].
  - intros acc s Hs. cbn [parse_members].
    repeat first [fuel_leaf IHv IHe IHm | fuel_string | fuel_inner IHv
                 | hide_skip_ws | break_var].
Qed.

(** [JSON_parse] gives its parse enough fuel. *)
Lemma parse_value_fuel (s : jsstring) :
  parse_value (2 * length s + 1) s <> PFuel.
Proof. apply parse_fuel. lia. Qed.

(** So [JSON_parse] gives nothing only for a text that is not JSON: a syntax
    error in the value, or something after it. *)
Lemma JSON_parse_None (s : jsstring) :
  JSON_parse s = None ->
  parse_value (2 * length s + 1) s = PSyntaxError
  \/ exists v r, parse_value (2 * length s + 1) s = POk v r /\ skip_ws r <> [].
Proof.
  unfold JSON_parse. pose proof (parse_value_fuel s) as F.
  destruct (parse_value _ s) as [v r| |]; [|now left|now destruct F].
  intros E. right. exists v, r. split; [reflexivity|].
  now destruct (skip_ws r).
Qed.

End JSFacts.

(** ** The restore from the backup *)

Module RestoreFacts.
Import Startup Samples.
Local Open Scope string_scope.

Lemma find_put_eq name x entries : find name (put name x entries) = Some x.
Proof.
  induction entries as [|[n y] rest IH]; simpl.
  - now rewrite String.eqb_refl.
  - destruct (String.eqb name n) eqn:E; simpl; rewrite E; auto.
Qed.

Lemma find_put_ne name n x entries :
  n <> name -> find n (put name x entries) = find n entries.
Proof.
  intros Hne. induction entries as [|[m y] rest IH]; simpl.
  - apply String.eqb_neq in Hne. now rewrite Hne.
  - destruct (String.eqb name m) eqn:E; simpl.
    + apply String.eqb_eq in E. subst m.
      apply String.eqb_neq in Hne. now rewrite Hne.
    + destruct (String.eqb n m); auto.
Qed.

Lemma find_cp_r_ne source name n dest :
  n <> name -> find n (cp_r source name dest) = find n dest.
Proof.
  intros Hne. destruct source as [content|entries]; simpl.
  - destruct (find name dest) as [[?|?]|]; auto using find_put_ne.
  - destruct (find name dest) as [[?|?]|]; auto using find_put_ne.
Qed.

Lemma find_cp_r_file content name dest :
  is_dir (find name dest) = false ->
  find name (cp_r (File content) name dest) = Some (File content).
Proof.
  intros H. simpl. destruct (find name dest) as [[?|?]|]; try discriminate;
    apply find_put_eq.
Qed.

Lemma find_cp_r_new entries name dest :
  find name dest = None ->
  find name (cp_r (Dir entries) name dest) = Some (Dir entries).
Proof. intros H. simpl. rewrite H. apply find_put_eq. Qed.

Lemma is_dir_cp_r source name n dest :
  n <> name -> is_dir (find n (cp_r source name dest)) = is_dir (find n dest).
Proof. intros. now rewrite find_cp_r_ne. Qed.

(** What [cp -r dir/* dest/] leaves under a name that is not copied. *)
Lemma find_copies_other (l : list (string * node)) n dest :
  ~ In n (map fst l) ->
  find n (fold_left (fun acc e => cp_r (snd e) (fst e) acc) l dest) = find n dest.
Proof.
  revert dest. induction l as [|[m x] l IH]; intros dest Hn; simpl; auto.
  rewrite IH.
  - apply find_cp_r_ne. intros ->. apply Hn. now left.
  - intros Hin. apply Hn. now right.
Qed.

Lemma in_glob_star name x entries :
  In (name, x) (glob_star entries) <-> In (name, x) entries /\ hidden name = false.
Proof.
  unfold glob_star. rewrite filter_In. simpl.
  rewrite negb_true_iff. tauto.
Qed.


(** A file that [*] matches is in the destination afterwards, with the
    content it has in the source, unless a directory has its name there. *)
Lemma find_copies_file (l : list (string * node)) name content dest :
  List.NoDup (map fst l) ->
  In (name, File content) l ->
  is_dir (find name dest) = false ->
  find name (fold_left (fun acc e => cp_r (snd e) (fst e) acc) l dest)
  = Some (File content).
Proof.
  revert dest. induction l as [|[m x] l IH]; intros dest Hnd Hin Hdir.
  - destruct Hin.
  - simpl. inversion Hnd as [|? ? Hm Hl]; subst.
    destruct Hin as [Heq|Hin].
    + inversion Heq; subst. rewrite find_copies_other by assumption.
      now apply find_cp_r_file.
    + apply IH; auto.
      rewrite is_dir_cp_r; auto.
      intros ->. apply Hm. apply in_map_iff. now exists (m, File content).
Qed.

(** A directory that [*] matches and that the destination does not have is
    there afterwards, whole. *)
Lemma find_copies_dir (l : list (string * node)) name entries dest :
  List.NoDup (map fst l) ->
  In (name, Dir entries) l ->
  find name dest = None ->
  find name (fold_left (fun acc e => cp_r (snd e) (fst e) acc) l dest)
  = Some (Dir entries).
Proof.
  revert dest. induction l as [|[m x] l IH]; intros dest Hnd Hin Hnone.
  - destruct Hin.
  - simpl. inversion Hnd as [|? ? Hm Hl]; subst.
    destruct Hin as [Heq|Hin].
    + inversion Heq; subst. rewrite find_copies_other by assumption.
      now apply find_cp_r_new.
    + apply IH; auto.
      rewrite find_cp_r_ne; auto.
      intros ->. apply Hm. apply in_map_iff. now exists (m, Dir entries).
Qed.



Lemma at_backup_restore_config d path :
  at_backup (restore_config d) path = at_backup d path.
Proof.
  unfold restore_config.
  destruct (at_backup d ["clawdbot"]) as [[?|?]|]; reflexivity.
Qed.

Lemma should_restore_backup d :
  should_restore_from_r2 d = true ->
  exists entries content,
    at_backup d ["clawdbot"] = Some (Dir entries)
    /\ find "clawdbot.json" entries = Some (File content).
Proof.
  unfold should_restore_from_r2, at_backup.
  destruct (backup d) as [b|]; simpl; [|discriminate].
  destruct b as [c|es]; simpl; [discriminate|].
  destruct (find "clawdbot" es) as [[c|es2]|]; simpl; try discriminate.
  destruct (find "clawdbot.json" es2) as [[c|es3]|] eqn:E; simpl; try discriminate.
  intros _. eauto.
Qed.

(** C2.  The decision of the restore, for every state of the backup and of
    the local files.  Without [clawdbot.json] in the backup nothing is
    restored and the local files stay as they are, whatever they are.  With
    it and without a local [clawdbot.json] the restore happens, whatever the
    markers say.  With both, and both [.last-sync] markers holding integers,
    the restore happens exactly when the value of the remote marker is
    greater than the value of the local one; otherwise, and when a marker is
    missing, the local files stay as they are. *)
Theorem restore_decision (d : disk) :
  let remote := is_file (at_backup d ["clawdbot"; "clawdbot.json"]) in
  let local := is_file (find "clawdbot.json" (config d)) in
  (remote = false -> should_restore_from_r2 d = false /\ restore d = Some d)
  /\ (remote = true -> local = false ->
      should_restore_from_r2 d = true
      /\ restore d = restore_skills (restore_config d))
  /\ (remote = true -> local = true ->
      forall r2 loc r l,
        at_backup d [".last-sync"] = Some (File r2) ->
        find ".last-sync" (config d) = Some (File loc) ->
        legal_number (command_substitution r2) = Some r ->
        legal_number (command_substitution loc) = Some l ->
        (should_restore_from_r2 d = true <-> (l < r)%Z)
        /\ ((l < r)%Z -> restore d = restore_skills (restore_config d))
        /\ ((r <= l)%Z -> restore d = Some d))
  /\ (remote = true -> local = true ->
      is_file (at_backup d [".last-sync"]) = false
      \/ is_file (find ".last-sync" (config d)) = false ->
      should_restore_from_r2 d = false /\ restore d = Some d).
Proof.
  cbv zeta. unfold restore, should_restore_from_r2.
  repeat split.
  - now rewrite H.
  - now rewrite H.
  - now rewrite H, H0.
  - now rewrite H, H0.
  - rewrite H, H0, H1, H2. simpl. unfold test_gt. rewrite H3, H4.
    now intros ?%Z.ltb_lt.
  - rewrite H, H0, H1, H2. simpl. unfold test_gt. rewrite H3, H4.
    now intros ?%Z.ltb_lt.
  - intros Hlt. rewrite H, H0, H1, H2. simpl. unfold test_gt.
    rewrite H3, H4. apply Z.ltb_lt in Hlt. now rewrite Hlt.
  - intros Hle. rewrite H, H0, H1, H2. simpl. unfold test_gt.
    rewrite H3, H4. apply Z.ltb_ge in Hle. now rewrite Hle.
  - rewrite H, H0. simpl.
    destruct H1 as [H1|H1].
    + destruct (at_backup d [".last-sync"]) as [[?|?]|]; try discriminate;
        reflexivity.
    + destruct (at_backup d [".last-sync"]) as [[?|?]|]; try reflexivity.
      destruct (find ".last-sync" (config d)) as [[?|?]|]; try discriminate;
        reflexivity.
  - rewrite H, H0. simpl.
    destruct H1 as [H1|H1].
    + destruct (at_backup d [".last-sync"]) as [[?|?]|]; try discriminate;
        reflexivity.
    + destruct (at_backup d [".last-sync"]) as [[?|?]|]; try reflexivity.
      destruct (find ".last-sync" (config d)) as [[?|?]|]; try discriminate;
        reflexivity.
Qed.

(** A backup stamped 200 over local files stamped 100 is restored. *)
Lemma restore_decision_witness :
  should_restore_from_r2 (stamped_disk "200" "100") = true.
Proof.
  pose proof (restore_decision (stamped_disk "200" "100")) as H.
  cbv zeta in H. destruct H as (_ & _ & H & _).
  apply (H eq_refl eq_refl "200" "100" 200%Z 100%Z
           eq_refl eq_refl eq_refl eq_refl).
  reflexivity.
Defined.

Lemma hidden_not_in_glob_star name entries :
  hidden name = true -> ~ In name (map fst (glob_star entries)).
Proof.
  intros Hhidden Hin. apply in_map_iff in Hin as ([n x] & Hn & Hin).
  cbn [fst] in Hn. subst n. apply in_glob_star in Hin as [_ Hshown].
  congruence.
Qed.

Lemma find_cp_r_star_hidden entries name dest :
  hidden name = true -> find name (cp_r_star entries dest) = find name dest.
Proof.
  intros Hhidden. unfold cp_r_star.
  now apply find_copies_other, hidden_not_in_glob_star.
Qed.

Lemma find_glob_star name entries :
  hidden name = false -> find name (glob_star entries) = find name entries.
Proof.
  intros Hshown. induction entries as [|[n x] entries IH]; [reflexivity|].
  unfold glob_star in *. cbn [List.filter fst find].
  destruct (String.eqb_spec name n) as [->|Hne].
  - rewrite Hshown. cbn [negb find]. now rewrite String.eqb_refl.
  - destruct (negb (hidden n)); [|exact IH].
    cbn [find]. destruct (String.eqb_spec name n); [contradiction|exact IH].
Qed.











End RestoreFacts.

(** ** The environment of the container *)

Module EnvFacts.
Import JS Worker Samples.

Lemma lookup_put_if_ne cond key key' value (m : gmap string jsstring) :
  String.eqb key key' = false -> put_if cond key value m !! key' = m !! key'.
Proof.
  intros Hne%String.eqb_neq. unfold put_if. destruct value, cond; auto.
  now rewrite lookup_insert_ne.
Qed.

Lemma lookup_put_if_eq cond key value (m : gmap string jsstring) :
  put_if cond key value m !! key
  = if cond then match value with Some v => Some v | None => m !! key end
    else m !! key.
Proof.
  unfold put_if. destruct value, cond; auto. now rewrite lookup_insert_eq.
Qed.

Ltac lookup_puts :=
  repeat first
    [ rewrite lookup_put_if_ne by reflexivity
    | rewrite lookup_put_if_eq
    | rewrite lookup_empty ].

Lemma is_set_Some (x : option jsstring) :
  is_set x = true -> exists v, x = Some v.
Proof. destruct x as [v|]; [eauto|discriminate]. Qed.

(** C10, as amended.  When [AI_GATEWAY_BASE_URL] is not empty once the
    slashes at its end are removed, and [AI_GATEWAY_API_KEY] is set, the
    output has [AI_GATEWAY_API_KEY] as [OPENAI_API_KEY] for a URL that then
    ends in [/openai] or [/compat], and as [ANTHROPIC_API_KEY] otherwise,
    whatever the direct keys are.  A direct key, and [ANTHROPIC_BASE_URL], is
    in the output only when the legacy mapping left that entry unset. *)
Theorem buildEnvVars_legacy_first (env : MoltbotEnv) :
  let base := strip_trailing_slashes <$> AI_GATEWAY_BASE_URL env in
  let openai := match base with
                | Some u => endsWith u (js "/openai") || endsWith u (js "/compat")
                | None => false
                end in
  let key := AI_GATEWAY_API_KEY env in
  let out := buildEnvVars env in
  (is_set base = true -> is_set key = true ->
   (openai = true -> out !! "OPENAI_API_KEY"%string = key)
   /\ (openai = false -> out !! "ANTHROPIC_API_KEY"%string = key))
  /\ out !! "ANTHROPIC_API_KEY"%string
     = (if is_set base && negb openai && is_set key then key
        else if is_set (ANTHROPIC_API_KEY env) then ANTHROPIC_API_KEY env
        else None)
  /\ out !! "OPENAI_API_KEY"%string
     = (if is_set base && openai && is_set key then key
        else if is_set (OPENAI_API_KEY env) then OPENAI_API_KEY env
        else None)
  /\ out !! "ANTHROPIC_BASE_URL"%string
     = (if is_set base && negb openai then base
        else if is_set (ANTHROPIC_BASE_URL env) then ANTHROPIC_BASE_URL env
        else None).
Proof.
  cbv zeta. unfold buildEnvVars, has. cbv zeta.
  set (base := strip_trailing_slashes <$> AI_GATEWAY_BASE_URL env).
  set (openai := match base with
                 | Some u => endsWith u (js "/openai") || endsWith u (js "/compat")
                 | None => false
                 end).
  match goal with
  | |- context [put_if _ "ANTHROPIC_API_KEY" (ANTHROPIC_API_KEY env) ?m] =>
      set (legacy := m)
  end.
  assert (Hanthropic :
    legacy !! "ANTHROPIC_API_KEY"%string
    = if is_set base && negb openai && is_set (AI_GATEWAY_API_KEY env)
      then AI_GATEWAY_API_KEY env else None).
  { subst legacy. destruct (is_set base), openai; lookup_puts; try reflexivity.
    destruct (is_set (AI_GATEWAY_API_KEY env)) eqn:E; try reflexivity.
    now destruct (is_set_Some _ E) as [v ->]. }
  assert (Hopenai :
    legacy !! "OPENAI_API_KEY"%string
    = if is_set base && openai && is_set (AI_GATEWAY_API_KEY env)
      then AI_GATEWAY_API_KEY env else None).
  { subst legacy. destruct (is_set base), openai; lookup_puts; try reflexivity.
    destruct (is_set (AI_GATEWAY_API_KEY env)) eqn:E; try reflexivity.
    now destruct (is_set_Some _ E) as [v ->]. }
  assert (Hurl :
    legacy !! "ANTHROPIC_BASE_URL"%string
    = if is_set base && negb openai then base else None).
  { subst legacy. destruct (is_set base) eqn:E, openai; lookup_puts;
      try reflexivity. now destruct (is_set_Some _ E) as [v ->]. }
  clearbody legacy.
  assert (Hout1 :
    forall direct : option jsstring,
      (if negb (is_set (if is_set base && negb openai
                           && is_set (AI_GATEWAY_API_KEY env)
                        then AI_GATEWAY_API_KEY env else None))
          && is_set direct
       then match direct with
            | Some v => Some v
            | None => if is_set base && negb openai
                         && is_set (AI_GATEWAY_API_KEY env)
                      then AI_GATEWAY_API_KEY env else None
            end
       else if is_set base && negb openai && is_set (AI_GATEWAY_API_KEY env)
            then AI_GATEWAY_API_KEY env else None)
      = if is_set base && negb openai && is_set (AI_GATEWAY_API_KEY env)
        then AI_GATEWAY_API_KEY env
        else if is_set direct then direct else None).
  { intros direct.
    destruct (is_set base && negb openai && is_set (AI_GATEWAY_API_KEY env)) eqn:E.
    - apply andb_prop in E as [_ E]. rewrite E. reflexivity.
    - destruct direct as [[|c d]|]; reflexivity. }
  assert (Hout2 :
    forall direct : option jsstring,
      (if negb (is_set (if is_set base && openai
                           && is_set (AI_GATEWAY_API_KEY env)
                        then AI_GATEWAY_API_KEY env else None))
          && is_set direct
       then match direct with
            | Some v => Some v
            | None => if is_set base && openai
                         && is_set (AI_GATEWAY_API_KEY env)
                      then AI_GATEWAY_API_KEY env else None
            end
       else if is_set base && openai && is_set (AI_GATEWAY_API_KEY env)
            then AI_GATEWAY_API_KEY env else None)
      = if is_set base && openai && is_set (AI_GATEWAY_API_KEY env)
        then AI_GATEWAY_API_KEY env
        else if is_set direct then direct else None).
  { intros direct.
    destruct (is_set base && openai && is_set (AI_GATEWAY_API_KEY env)) eqn:E.
    - apply andb_prop in E as [_ E]. rewrite E. reflexivity.
    - destruct direct as [[|c d]|]; reflexivity. }
  split; [|split; [|split]].
  - intros Hbase Hkey. split; intros Hopen.
    + lookup_puts. rewrite Hopenai, Hout2, Hbase, Hkey, Hopen. reflexivity.
    + lookup_puts. rewrite Hanthropic, Hout1, Hbase, Hkey, Hopen. reflexivity.
  - lookup_puts. rewrite Hanthropic. apply Hout1.
  - lookup_puts. rewrite Hopenai. apply Hout2.
  - lookup_puts. rewrite Hurl.
    destruct (is_set base && negb openai) eqn:E.
    + apply andb_prop in E as [E _]. rewrite E.
      rewrite andb_false_r. reflexivity.
    + rewrite andb_true_r. destruct (ANTHROPIC_BASE_URL env) as [[|c d]|];
        reflexivity.
Qed.

(** A legacy URL of the OpenAI kind, with slashes at its end: the key of the
    gateway goes out as [OPENAI_API_KEY]. *)
Lemma buildEnvVars_legacy_witness :
  buildEnvVars (legacy_env "https://gw.example/v1/a/g/openai//")
    !! "OPENAI_API_KEY"%string
  = Some (js "gateway-key").
Proof.
  pose proof (buildEnvVars_legacy_first
                (legacy_env "https://gw.example/v1/a/g/openai//")) as H.
  cbv zeta in H. destruct H as (H & _).
  destruct (H eq_refl eq_refl) as (Hopenai & _).
  exact (Hopenai eq_refl).
Defined.

(** A gateway URL that is a slash only, with both keys: the direct key goes
    out, not the key of the gateway. *)
Lemma buildEnvVars_slash_url :
  is_set (AI_GATEWAY_BASE_URL (legacy_env "/")) = true
  /\ is_set (AI_GATEWAY_API_KEY (legacy_env "/")) = true
  /\ buildEnvVars (legacy_env "/") !! "ANTHROPIC_API_KEY"%string
     = ANTHROPIC_API_KEY (legacy_env "/")
  /\ buildEnvVars (legacy_env "/") !! "ANTHROPIC_API_KEY"%string
     <> AI_GATEWAY_API_KEY (legacy_env "/")
  /\ buildEnvVars (legacy_env "/") !! "OPENAI_API_KEY"%string = None.
Proof. vm_compute. repeat split; discriminate. Qed.

End EnvFacts.

(** ** The Worker's handlers *)

Module WorkerFacts.
Import JS Worker Samples JSFacts.

Lemma is_lit_true (x : option jsstring) (lit : string) :
  is_lit x lit = true <-> x = Some (js lit).
Proof.
  destruct x as [s|]; simpl.
  - rewrite str_eqb_eq. split; [now intros ->|now intros [= ->]].
  - split; discriminate.
Qed.

(** C5.  A request outside [/debug], when [DEV_MODE] is not ['true'] and a
    required setting is unset, is answered with status 503: with the HTML
    page naming what is missing when its [Accept] header includes
    [text/html], and otherwise with a JSON body of [error], [message], the
    list [missing] and [hint].  [missing] is the exact list of the settings
    that are unset.  A path that starts with [/debug], or [DEV_MODE] being
    ['true'], skips the check altogether. *)
Theorem validation_answers_503 `{Assets} (w : World) (env : MoltbotEnv)
    (request : Request) :
  let o := run w (validation_middleware env request) in
  let missing := validateRequiredEnv env in
  let provider :=
    (is_set (CF_ACCOUNT_ID env)
     && (is_set (AI_GATEWAY_ID env) || is_set (AI_GATEWAY_API_KEY env)))
    || (is_set (AI_GATEWAY_API_KEY env) && is_set (AI_GATEWAY_BASE_URL env))
    || is_set (ANTHROPIC_API_KEY env) in
  (startsWith (pathname request) (js "/debug") = true
   \/ DEV_MODE env = Some (js "true") ->
   result o = inl Next /\ trace o = [])
  /\ (startsWith (pathname request) (js "/debug") = false ->
      DEV_MODE env <> Some (js "true") ->
      missing <> [] ->
      exists r,
        result o = inl (Respond r)
        /\ reply_status r = 503%Z
        /\ (acceptsHtml request = true ->
            r = Html (replace configErrorHtml (js "{{MISSING_VARS}}")
                        (join (js ", ") missing)) (Some 503%Z))
        /\ (acceptsHtml request = false ->
            exists value,
              r = Json value (Some 503%Z)
              /\ js_get value "error" = Ok (JStr (js "Configuration error"))
              /\ js_get value "message"
                 = Ok (JStr (js "Required environment variables are not configured"))
              /\ js_get value "missing" = Ok (JArr (map JStr missing) [])))
  /\ (startsWith (pathname request) (js "/debug") = false ->
      DEV_MODE env <> Some (js "true") ->
      missing = [] -> result o = inl Next)
  /\ missing
     = (if is_set (MOLTBOT_GATEWAY_TOKEN env) then []
        else [js "MOLTBOT_GATEWAY_TOKEN"])
       ++ (if is_set (CF_ACCESS_TEAM_DOMAIN env) then []
           else [js "CF_ACCESS_TEAM_DOMAIN"])
       ++ (if is_set (CF_ACCESS_AUD env) then [] else [js "CF_ACCESS_AUD"])
       ++ (if provider then [] else [provider_hint]).
Proof.
  cbv zeta. unfold validation_middleware.
  split; [|split; [|split]].
  - intros [Hdebug|Hdev].
    + rewrite Hdebug. now split.
    + apply is_lit_true in Hdev. rewrite Hdev.
      destruct (startsWith _ _); now split.
  - intros Hdebug Hdev Hmissing. rewrite Hdebug.
    destruct (is_lit (DEV_MODE env) "true") eqn:E;
      [now apply is_lit_true in E|].
    destruct (validateRequiredEnv env) as [|m ms] eqn:Em; [easy|].
    simpl Nat.ltb.
    destruct (acceptsHtml request) eqn:Ea; simpl.
    + eexists. split; [reflexivity|]. split; [reflexivity|].
      split; [reflexivity|discriminate].
    + eexists. split; [reflexivity|]. split; [reflexivity|].
      split; [discriminate|]. intros _. eexists. split; [reflexivity|].
      repeat split.
  - intros Hdebug Hdev Hmissing. rewrite Hdebug.
    destruct (is_lit (DEV_MODE env) "true") eqn:E;
      [now apply is_lit_true in E|].
    now rewrite Hmissing.
  - unfold validateRequiredEnv, push_if.
    destruct (is_set (MOLTBOT_GATEWAY_TOKEN env)),
      (is_set (CF_ACCESS_TEAM_DOMAIN env)), (is_set (CF_ACCESS_AUD env)),
      (is_set (CF_ACCOUNT_ID env)), (is_set (AI_GATEWAY_ID env)),
      (is_set (AI_GATEWAY_API_KEY env)), (is_set (AI_GATEWAY_BASE_URL env)),
      (is_set (ANTHROPIC_API_KEY env)); reflexivity.
Qed.

(** C6.  When the gateway is not ready, the request is no WebSocket upgrade
    and its [Accept] header includes [text/html], the handler answers with
    the loading page, status 200, without awaiting the start of the gateway:
    all it does is probe, log, and hand one promise to [waitUntil].  That
    promise starts the gateway once; when the start fails the failure is
    logged, and the promise resolves all the same. *)
Theorem loading_page_at_once `{Builtins} `{Assets} (w : World)
    (env : MoltbotEnv) (request : Request) :
  isGatewayReady (the_process w) = false ->
  isWebSocketRequest request = false ->
  acceptsHtml request = true ->
  let o := run w (proxy env request) in
  result o = inl (Html loadingPageHtml None)
  /\ reply_status (Html loadingPageHtml None) = 200%Z
  /\ trace o
     = [EConsole log [LStr (js "[PROXY] Handling request:");
                      LStr (pathname request)];
        EFindProcess;
        EConsole log [LStr (js "[PROXY] Gateway not ready, serving loading page")];
        EWaitUntil background_start]
  /\ ~ In EEnsureGateway (trace o)
  /\ forall w' : World,
      result (run w' background_start) = inl tt
      /\ trace (run w' background_start)
         = EEnsureGateway
           :: match ensure_outcome w' with
              | Some err =>
                  [EConsole error
                     [LStr (js "[PROXY] Background gateway start failed:");
                      LThrown err]]
              | None => []
              end.
Proof.
  intros Hready Hws Hhtml. cbv zeta. unfold proxy. simpl run.
  rewrite Hready, Hws, Hhtml. simpl.
  split; [reflexivity|]. split; [reflexivity|]. split; [reflexivity|].
  split.
  - intros [E|[E|[E|[E|[]]]]]; discriminate.
  - intros w'. unfold background_start. simpl.
    destruct (ensure_outcome w'); simpl; auto.
Qed.

Lemma Headers_get_set_eq (h : gmap string (list jsstring)) name value :
  Headers_get (Headers_set h name value) name = Some value.
Proof.
  unfold Headers_get, Headers_set. now rewrite lookup_insert_eq.
Qed.

Lemma Headers_get_set_ne (h : gmap string (list jsstring)) name name' value :
  lower name <> lower name' ->
  Headers_get (Headers_set h name value) name' = Headers_get h name'.
Proof.
  intros Hne. unfold Headers_get, Headers_set. now rewrite lookup_insert_ne.
Qed.

(** C9.  A request that is no WebSocket upgrade, forwarded once the gateway
    is there, is answered with the status, the status text and the body of
    the gateway's response; the headers are the gateway's with
    [X-Worker-Debug] set to [proxy-to-moltbot] and [X-Debug-Path] set to the
    path of the request, every other header as the gateway sent it. *)
Theorem proxied_response_is_the_gateways `{Builtins} `{Assets} (w : World)
    (env : MoltbotEnv) (request : Request) (httpResponse : Response) :
  isGatewayReady (the_process w) = true \/ acceptsHtml request = false ->
  isWebSocketRequest request = false ->
  ensure_outcome w = None ->
  fetch_outcome w request MOLTBOT_PORT = inl httpResponse ->
  exists r,
    result (run w (proxy env request)) = inl (Raw r)
    /\ status r = status httpResponse
    /\ statusText r = statusText httpResponse
    /\ body r = body httpResponse
    /\ Headers_get (headers r) "X-Worker-Debug" = Some (js "proxy-to-moltbot")
    /\ Headers_get (headers r) "X-Debug-Path" = Some (pathname request)
    /\ forall name,
        lower name <> "x-worker-debug"%string ->
        lower name <> "x-debug-path"%string ->
        Headers_get (headers r) name = Headers_get (headers httpResponse) name.
Proof.
  intros Hforward Hws Hensure Hfetch. unfold proxy. simpl run.
  assert (Hbranch : negb (isGatewayReady (the_process w))
                    && negb (isWebSocketRequest request)
                    && acceptsHtml request = false).
  { destruct Hforward as [-> | ->]; [reflexivity|apply andb_false_r]. }
  rewrite Hbranch. simpl run. rewrite Hensure, Hws. simpl run.
  rewrite Hfetch. simpl.
  eexists. split; [reflexivity|]. simpl.
  split; [reflexivity|]. split; [reflexivity|]. split; [reflexivity|].
  split; [|split].
  - rewrite Headers_get_set_ne by discriminate. apply Headers_get_set_eq.
  - apply Headers_get_set_eq.
  - intros name H1 H2. rewrite !Headers_get_set_ne; auto.
Qed.

(** *** The relay *)

Lemma perform_log_keeps_legs lvl args r :
  legs_of (perform (EConsole lvl args) r) = legs_of r.
Proof. reflexivity. Qed.

Lemma perform_send_keeps_legs s data r :
  legs_of (perform (ESend s data) r) = legs_of r.
Proof. destruct s; reflexivity. Qed.

Create HintDb relay.
#[local] Hint Constructors quiet : relay.

Lemma quiet_keeps_legs t r :
  quiet t -> legs_of (fold_left (fun r e => perform e r) t r) = legs_of r.
Proof.
  intros Hq. revert r. induction Hq; intros r; cbn [fold_left].
  - reflexivity.
  - rewrite IHHq. apply perform_send_keeps_legs.
  - rewrite IHHq. apply perform_log_keeps_legs.
Qed.

Lemma forward_quiet (w : World) s data :
  quiet (trace (run w (Send s data (fun threw =>
    match threw with
    | Some e => Console error [LStr (js "[WS] Error forwarding to client:");
                               LThrown e] (Ret tt)
    | None => Ret tt
    end)))).
Proof. simpl. destruct (send_outcome w s data); simpl; auto with relay. Qed.

Lemma on_container_message_quiet `{Builtins} (w : World) request data :
  quiet (trace (run w (on_container_message request data))).
Proof.
  unfold on_container_message.
  destruct data as [text|bytes]; [|apply forward_quiet].
  destruct (includes text _); [|apply forward_quiet].
  destruct (JSON_parse text) as [parsed|]; [|apply forward_quiet].
  destruct (js_get parsed "error") as [[| | | |e| |]|]; try apply forward_quiet.
  destruct (truthy (JStr e)); [|apply forward_quiet].
  destruct (js_set true parsed "error" _) as [parsed'|]; [|apply forward_quiet].
  simpl. destruct (send_outcome w serverWs _); simpl; auto with relay.
  constructor. destruct (send_outcome w serverWs _); simpl; auto with relay.
Qed.

Lemma on_server_message_quiet (w : World) data :
  quiet (trace (run w (on_server_message data))).
Proof.
  unfold on_server_message. simpl.
  destruct (send_outcome w containerWs data); simpl; auto with relay.
Qed.

Lemma proxy_registers `{Builtins} `{Assets} (w : World) (env : MoltbotEnv)
    (request : Request) (containerWsResponse : Response) (s : socket) :
  isWebSocketRequest request = true ->
  ensure_outcome w = None ->
  fetch_outcome w request MOLTBOT_PORT = inl containerWsResponse ->
  webSocket containerWsResponse = Some s ->
  listeners (run w (proxy env request)) = relay_listeners request.
Proof.
  intros Hws Hensure Hfetch Hsocket. unfold proxy. simpl run.
  rewrite Hws. rewrite andb_false_r. simpl run.
  rewrite Hensure. simpl run. rewrite Hfetch, Hsocket. reflexivity.
Qed.

Lemma forward_returns (w : World) s data :
  threw w (Send s data (fun threw =>
    match threw with
    | Some e => Console error [LStr (js "[WS] Error forwarding to client:");
                               LThrown e] (Ret tt)
    | None => Ret tt
    end)) = false.
Proof. unfold threw. simpl. now destruct (send_outcome w s data). Qed.

Lemma on_container_message_returns `{Builtins} (w : World) request data :
  threw w (on_container_message request data) = false.
Proof.
  unfold on_container_message.
  destruct data as [text|bytes]; [|apply forward_returns].
  destruct (includes text _); [|apply forward_returns].
  destruct (JSON_parse text) as [parsed|]; [|apply forward_returns].
  destruct (js_get parsed "error") as [[| | | |e| |]|]; try apply forward_returns.
  destruct (truthy (JStr e)); [|apply forward_returns].
  destruct (js_set true parsed "error" _) as [parsed'|]; [|apply forward_returns].
  unfold threw. simpl. destruct (send_outcome w serverWs _); simpl; [|reflexivity].
  now destruct (send_outcome w serverWs _).
Qed.

Lemma on_server_message_returns (w : World) data :
  threw w (on_server_message data) = false.
Proof.
  unfold threw, on_server_message. simpl.
  now destruct (send_outcome w containerWs data).
Qed.

Lemma close_leg_twice l code reason code' reason' :
  close_leg (close_leg l code reason) code' reason' = close_leg l code reason.
Proof. now destruct l. Qed.

Lemma deliver_legs `{Builtins} (w : World) request ev r :
  legs_of (deliver w (relay_listeners request) ev r)
  = match ev with
    | MessageEvent _ _ | CloseEvent clientWs _ _ | ErrorEvent clientWs =>
        legs_of r
    | CloseEvent serverWs code reason =>
        (close_leg (caller r) code reason,
         if valid_close_code code then close_leg (gateway r) code reason
         else close_leg (gateway r) 1011 (js "Client error"))
    | CloseEvent containerWs code reason =>
        (if valid_close_code code then close_leg (caller r) code reason
         else close_leg (caller r) 1011 (js "Container error"),
         close_leg (gateway r) code reason)
    | ErrorEvent serverWs =>
        (close_leg (caller r) 1006 [],
         close_leg (gateway r) 1011 (js "Client error"))
    | ErrorEvent containerWs =>
        (close_leg (caller r) 1011 (js "Container error"),
         close_leg (gateway r) 1006 [])
    end.
Proof.
  unfold deliver, dispatch.
  destruct ev as [s data|s code reason|s]; destruct s; try reflexivity.
  - simpl called. simpl arrive. cbn [existsb fold_left].
    rewrite on_server_message_returns. cbn [orb].
    apply quiet_keeps_legs, on_server_message_quiet.
  - simpl called. simpl arrive. cbn [existsb fold_left].
    rewrite on_container_message_returns. cbn [orb].
    apply quiet_keeps_legs, on_container_message_quiet.
  - simpl called. unfold threw, on_server_close. cbn [run existsb].
    destruct (valid_close_code code) eqn:Hv;
      repeat (progress (cbn -[valid_close_code]; rewrite ?Hv));
      unfold legs_of; cbn; now rewrite ?close_leg_twice.
  - simpl called. unfold threw, on_container_close. cbn [run existsb].
    destruct (valid_close_code code) eqn:Hv;
      repeat (progress (cbn -[valid_close_code]; rewrite ?Hv));
      unfold legs_of; cbn; now rewrite ?close_leg_twice.
Qed.



(** *** The rewriting of error frames *)

Lemma get_error_props (parsed : jsval) (e : jsstring) :
  js_get parsed "error" = Ok (JStr e) ->
  exists parsed',
    js_set true parsed "error" = (fun x => Ok (parsed' x))
    /\ forall x, js_get (parsed' x) "error" = Ok x.
Proof.
  destruct parsed as [| | | | |elems props|props]; simpl; try discriminate;
    intros _.
  - exists (fun x => JArr elems (assoc_set (js "error") x props)).
    split; [reflexivity|]. intros x. simpl. now rewrite assoc_set_same.
  - exists (fun x => JObj (assoc_set (js "error") x props)).
    split; [reflexivity|]. intros x. simpl. now rewrite assoc_set_same.
Qed.

(** C3, as amended.  A text frame from the gateway that holds ["error"],
    parses as JSON and has a top-level [error] that is a non-empty string is
    sent to the caller as [JSON.stringify] of the parsed value, whose [error]
    is then: the message that points to
    [https://{host}?token={REPLACE_WITH_YOUR_TOKEN}] when it contained
    [gateway token missing] or [gateway token mismatch]; else the message
    that points to [https://{host}/_admin/] when it contained
    [pairing required]; else what it was.  Every other frame, binary or
    text, is sent to the caller as it came. *)
Theorem relay_rewrites_error_frames `{Builtins} (w : World) (request : Request)
    (data : frame) :
  let sent := trace (run w (on_container_message request data)) in
  (forall parsed e,
      error_frame data parsed e ->
      exists parsed' rest,
        js_set true parsed "error"
          (JStr (transformErrorMessage e (host request))) = Ok parsed'
        /\ js_get parsed' "error"
           = Ok (JStr (transformErrorMessage e (host request)))
        /\ sent = ESend serverWs (TextFrame (JSON_stringify parsed')) :: rest
        /\ (send_outcome w serverWs (TextFrame (JSON_stringify parsed')) = None ->
            rest = [])
        /\ (includes e (js "gateway token missing")
            || includes e (js "gateway token mismatch") = true ->
            transformErrorMessage e (host request)
            = js "Invalid or missing token. Visit https://" ++ host request
              ++ js "?token={REPLACE_WITH_YOUR_TOKEN}")
        /\ (includes e (js "gateway token missing")
            || includes e (js "gateway token mismatch") = false ->
            includes e (js "pairing required") = true ->
            transformErrorMessage e (host request)
            = js "Pairing required. Visit https://" ++ host request
              ++ js "/_admin/")
        /\ (includes e (js "gateway token missing")
            || includes e (js "gateway token mismatch") = false ->
            includes e (js "pairing required") = false ->
            transformErrorMessage e (host request) = e))
  /\ ((forall parsed e, ~ error_frame data parsed e) ->
      exists rest,
        sent = ESend serverWs data :: rest
        /\ (send_outcome w serverWs data = None -> rest = [])).
Proof.
  cbv zeta. split.
  - intros parsed e Hframe. destruct Hframe as [text parsed e Hinc Hparse Hget He].
    destruct (get_error_props parsed e Hget) as (parsed' & Hset & Hget').
    exists (parsed' (JStr (transformErrorMessage e (host request)))).
    unfold on_container_message. rewrite Hinc, Hparse, Hget, Hset.
    assert (Htruthy : truthy (JStr e) = true).
    { simpl. destruct e; [contradiction|reflexivity]. }
    rewrite Htruthy. simpl run. cbn [trace did].
    eexists. split; [reflexivity|]. split; [apply Hget'|].
    split; [reflexivity|]. split.
    + intros ->. reflexivity.
    + unfold transformErrorMessage.
      split; [|split].
      * now intros ->.
      * now intros -> ->.
      * now intros -> ->.
  - intros Hother.
    assert (Hforward : forall s,
      exists rest,
        trace (run w (Send s data (fun threw =>
          match threw with
          | Some e => Console error [LStr (js "[WS] Error forwarding to client:");
                                     LThrown e] (Ret tt)
          | None => Ret tt
          end))) = ESend s data :: rest
        /\ (send_outcome w s data = None -> rest = [])).
    { intros s. simpl. eexists. split; [reflexivity|]. now intros ->. }
    unfold on_container_message.
    destruct data as [text|bytes]; [|apply Hforward].
    destruct (includes text _) eqn:Hinc; [|apply Hforward].
    destruct (JSON_parse text) as [parsed|] eqn:Hparse; [|apply Hforward].
    destruct (js_get parsed "error") as [[| | | |e| |]|] eqn:Hget;
      try apply Hforward.
    destruct e as [|c e]; [apply Hforward|].
    exfalso. apply (Hother parsed (c :: e)). now constructor.
Qed.

(** *** The handlers on sample requests *)

(** A JSON client with nothing configured gets the 503. *)
Lemma validation_answers_503_witness :
  exists r,
    result (run cold_world (@validation_middleware pages no_bindings api_request))
    = inl (Respond r)
    /\ reply_status r = 503%Z.
Proof.
  pose proof (@validation_answers_503 pages cold_world no_bindings api_request)
    as H.
  cbv zeta in H. destruct H as (_ & H & _).
  destruct H as (r & Hr & Hstatus & _).
  - reflexivity.
  - discriminate.
  - vm_compute. discriminate.
  - exists r. split; assumption.
Defined.

(** A browser gets the loading page while the gateway is absent. *)
Lemma loading_page_at_once_witness :
  result (run cold_world (@proxy ascii_engine pages no_bindings browser_request))
  = inl (Html (@loadingPageHtml pages) None).
Proof.
  apply (@loading_page_at_once ascii_engine pages cold_world no_bindings
           browser_request); reflexivity.
Defined.

(** A JSON client gets the gateway's answer. *)
Lemma proxied_response_witness :
  exists r,
    result (run cold_world (@proxy ascii_engine pages no_bindings api_request))
    = inl (Raw r)
    /\ status r = 200%Z.
Proof.
  destruct (@proxied_response_is_the_gateways ascii_engine pages cold_world
              no_bindings api_request ok_response)
    as (r & Hr & Hstatus & _).
  - right. reflexivity.
  - reflexivity.
  - reflexivity.
  - reflexivity.
  - exists r. split; assumption.
Defined.


(** [{"error":"gateway token mismatch"}] goes out rewritten. *)
Lemma relay_rewrites_witness :
  exists parsed' rest,
    trace (run cold_world
             (@on_container_message ascii_engine upgrade_request
                (TextFrame mismatch_frame)))
    = ESend serverWs (TextFrame (@JSON_stringify ascii_engine parsed')) :: rest
    /\ js_get parsed' "error"
       = Ok (JStr (js "Invalid or missing token. Visit https://bot.example.com?token={REPLACE_WITH_YOUR_TOKEN}")).
Proof.
  pose proof (@relay_rewrites_error_frames ascii_engine cold_world
                upgrade_request (TextFrame mismatch_frame)) as H.
  cbv zeta in H. destruct H as (H & _).
  destruct (H (JObj [(js "error", JStr (js "gateway token mismatch"))])
              (js "gateway token mismatch"))
    as (parsed' & rest & _ & Hget & Hsent & _).
  - constructor; [reflexivity|reflexivity|reflexivity|discriminate].
  - exists parsed', rest. split; [exact Hsent|exact Hget].
Defined.

(** [{"error": "boom"}] holds none of the phrases, and does not reach the
    caller as it came: it is parsed and printed again, without the space.
    And a frame whose key is written with an escape has [pairing required]
    as its top-level [error], and reaches the caller as it came. *)
Lemma error_frames_diverge :
  (JSON_parse spaced_frame = Some (JObj [(js "error", JStr (js "boom"))])
   /\ transformErrorMessage (js "boom") (host upgrade_request) = js "boom"
   /\ trace (run cold_world
               (@on_container_message ascii_engine upgrade_request
                  (TextFrame spaced_frame)))
      = [ESend serverWs (TextFrame packed_frame)]
   /\ packed_frame <> spaced_frame)
  /\ (JSON_parse escaped_frame
      = Some (JObj [(js "error", JStr (js "pairing required"))])
      /\ trace (run cold_world
                  (@on_container_message ascii_engine upgrade_request
                     (TextFrame escaped_frame)))
         = [ESend serverWs (TextFrame escaped_frame)]).
Proof.
  split.
  - split; [reflexivity|]. split; [reflexivity|]. split; [reflexivity|].
    discriminate.
  - split; reflexivity.
Qed.

End WorkerFacts.


(** ** The projection of the environment *)

Module ConfigFacts.
Import JS Startup Samples JSFacts.
Local Open Scope string_scope.
Local Open Scope list_scope.

(** *** Reading and writing along a path *)

Lemma bind_Ok {A B : Type} (m : result A) (f : A -> result B) (b : B) :
  (x ← m; f x) = Ok b -> exists a, m = Ok a /\ f a = Ok b.
Proof. destruct m as [a|e]; simpl; [eauto|discriminate]. Qed.

Lemma bind_of_Ok {A B : Type} (a : A) (f : A -> result B) :
  (x ← Ok a; f x) = f a.
Proof. reflexivity. Qed.

Lemma entry_cons (v : jsval) (k : string) (p : list string) :
  entry v (k :: p)
  = match v with
    | JObj props | JArr _ props =>
        match assoc (js k) props with
        | Some x => entry x p
        | None => None
        end
    | _ => None
    end.
Proof. reflexivity. Qed.

Lemma entry_app (v : jsval) (p rest : list string) :
  entry v (p ++ rest)
  = match entry v p with
    | Some x => entry x rest
    | None => None
    end.
Proof.
  revert v. induction p as [|k p IH]; intros v; [reflexivity|].
  simpl. destruct v; auto; destruct (assoc (js k) props); auto.
Qed.

Lemma assign_deeper (r x : jsval) (k k2 : string) (p : list string) :
  assign r (k :: k2 :: p) x
  = (child ← js_get r k; child' ← assign child (k2 :: p) x;
     js_set false r k child').
Proof. reflexivity. Qed.

Lemma remove_deeper (r : jsval) (k k2 : string) (p : list string) :
  remove r (k :: k2 :: p)
  = (child ← js_get r k; child' ← remove child (k2 :: p);
     js_set false r k child').
Proof. reflexivity. Qed.

Lemma assign_undefined (p : list string) (x : jsval) :
  p <> [] -> assign JUndefined p x = Throw TypeError.
Proof. destruct p as [|k [|k' p]]; [contradiction| |]; reflexivity. Qed.

Lemma remove_undefined (p : list string) :
  p <> [] -> remove JUndefined p = Throw TypeError.
Proof. destruct p as [|k [|k' p]]; [contradiction| |]; reflexivity. Qed.

Lemma js_get_props (v : jsval) (k : string) (x : jsval) :
  js_get v k = Ok x ->
  x = JUndefined
  \/ exists props,
       assoc (js k) props = Some x
       /\ (v = JObj props \/ exists elems, v = JArr elems props).
Proof.
  destruct v; simpl; try discriminate; intros [= <-]; auto;
    destruct (assoc (js k) props) eqn:E; simpl; eauto 6.
Qed.

(** What a write does to a value, key by key. *)
Lemma js_set_other (v v' x : jsval) (k k' : string) (p : list string) :
  js_set false v k x = Ok v' -> String.eqb k' k = false ->
  entry v' (k' :: p) = entry v (k' :: p).
Proof.
  intros Hset Hne. rewrite <- str_eqb_js in Hne.
  destruct v; simpl in Hset; try discriminate; inversion Hset; subst; auto;
    simpl; now rewrite assoc_set_other.
Qed.

Lemma js_delete_other (v v' : jsval) (k k' : string) (p : list string) :
  js_delete v k = Ok v' -> String.eqb k' k = false ->
  entry v' (k' :: p) = entry v (k' :: p).
Proof.
  intros Hdel Hne. rewrite <- str_eqb_js in Hne.
  destruct v; simpl in Hdel; try discriminate; inversion Hdel; subst; auto;
    simpl; now rewrite assoc_del_other.
Qed.

Lemma js_set_same (v v' x child : jsval) (k : string) (p : list string) :
  js_get v k = Ok child -> child <> JUndefined ->
  js_set false v k x = Ok v' ->
  entry v' (k :: p) = entry x p.
Proof.
  intros Hget Hdef Hset.
  destruct v; simpl in *; try discriminate; inversion Hset; subst;
    try (inversion Hget; subst; contradiction);
    simpl; now rewrite assoc_set_same.
Qed.

Lemma js_get_entry (v child : jsval) (k : string) (p : list string) :
  js_get v k = Ok child -> child <> JUndefined ->
  entry v (k :: p) = entry child p.
Proof.
  intros Hget Hdef.
  destruct v; simpl in *; try discriminate;
    try (inversion Hget; subst; contradiction);
    destruct (assoc (js k) props); simpl in Hget; inversion Hget; subst;
    auto; contradiction.
Qed.

(** A write leaves alone what lies on a path that parts ways with its own. *)
Lemma entry_assign_diverge (p q : list string) (r r' x : jsval) :
  assign r p x = Ok r' -> diverge p q = true -> entry r' q = entry r q.
Proof.
  revert q r r'. induction p as [|k p IH]; intros q r r' Hassign Hdiv;
    [discriminate|].
  destruct q as [|k' q]; [discriminate|]. simpl in Hdiv.
  rewrite String.eqb_sym in Hdiv.
  destruct p as [|k2 p].
  - simpl in Hassign. destruct (String.eqb k' k) eqn:E.
    + destruct q; discriminate.
    + eapply js_set_other; eauto.
  - rewrite assign_deeper in Hassign.
    apply bind_Ok in Hassign as (child & Hget & Hassign).
    apply bind_Ok in Hassign as (child' & Hchild & Hset).
    destruct (String.eqb k' k) eqn:E.
    + apply String.eqb_eq in E. subst k'.
      assert (Hdef : child <> JUndefined).
      { intros ->. rewrite assign_undefined in Hchild; discriminate. }
      rewrite (js_set_same _ _ _ _ _ _ Hget Hdef Hset).
      rewrite (js_get_entry _ _ _ _ Hget Hdef). eapply IH; eauto.
    + eapply js_set_other; eauto.
Qed.

Lemma entry_remove_diverge (p q : list string) (r r' : jsval) :
  remove r p = Ok r' -> diverge p q = true -> entry r' q = entry r q.
Proof.
  revert q r r'. induction p as [|k p IH]; intros q r r' Hremove Hdiv;
    [discriminate|].
  destruct q as [|k' q]; [discriminate|]. simpl in Hdiv.
  rewrite String.eqb_sym in Hdiv.
  destruct p as [|k2 p].
  - simpl in Hremove. destruct (String.eqb k' k) eqn:E.
    + destruct q; discriminate.
    + eapply js_delete_other; eauto.
  - rewrite remove_deeper in Hremove.
    apply bind_Ok in Hremove as (child & Hget & Hremove).
    apply bind_Ok in Hremove as (child' & Hchild & Hset).
    destruct (String.eqb k' k) eqn:E.
    + apply String.eqb_eq in E. subst k'.
      assert (Hdef : child <> JUndefined).
      { intros ->. rewrite remove_undefined in Hchild; discriminate. }
      rewrite (js_set_same _ _ _ _ _ _ Hget Hdef Hset).
      rewrite (js_get_entry _ _ _ _ Hget Hdef). eapply IH; eauto.
    + eapply js_set_other; eauto.
Qed.

(** What [delete] removed is not there. *)
Lemma entry_remove_same (p : list string) (r r' : jsval) :
  p <> [] -> remove r p = Ok r' -> entry r' p = None.
Proof.
  revert r r'. induction p as [|k p IH]; intros r r' Hne Hremove;
    [contradiction|].
  destruct p as [|k2 p].
  - simpl in Hremove.
    destruct r; simpl in Hremove; try discriminate; inversion Hremove; subst;
      auto; simpl; now rewrite assoc_del_same.
  - rewrite remove_deeper in Hremove.
    apply bind_Ok in Hremove as (child & Hget & Hremove).
    apply bind_Ok in Hremove as (child' & Hchild & Hset).
    assert (Hdef : child <> JUndefined).
    { intros ->. rewrite remove_undefined in Hchild; discriminate. }
    rewrite (js_set_same _ _ _ _ _ _ Hget Hdef Hset).
    apply (IH child child'); [discriminate|assumption].
Qed.

Lemma entry_default_diverge `{Builtins} (p q : list string) (r r' : jsval) :
  default_object r p = Ok r' -> diverge p q = true -> entry r' q = entry r q.
Proof.
  unfold default_object. intros Hd Hdiv.
  apply bind_Ok in Hd as (current & _ & Hassign).
  eapply entry_assign_diverge; eauto.
Qed.

(** *** The legacy providers go *)

Ltac split_bind H :=
  let c := fresh "config" in
  let Hc := fresh "Hstep" in
  apply bind_Ok in H as (c & Hc & H).

Ltac frame_back :=
  repeat match goal with
    | H : assign ?r ?p ?x = Ok ?r' |- context [entry ?r' ?q] =>
        rewrite (entry_assign_diverge p q r r' x H eq_refl)
    | H : default_object ?r ?p = Ok ?r' |- context [entry ?r' ?q] =>
        rewrite (entry_default_diverge p q r r' H eq_refl)
    | H : remove ?r ?p = Ok ?r' |- context [entry ?r' ?q] =>
        rewrite (entry_remove_diverge p q r r' H eq_refl)
    | H : Ok ?r = Ok ?r' |- context [entry ?r' ?q] =>
        injection H as <-
    end.

Lemma native_provider_clears `{Builtins} (env : gmap string jsstring)
    (accountId apiKey : jsstring) (config config' : jsval) :
  native_provider env accountId apiKey config = Ok config' ->
  entry config' (providers "anthropic") = None
  /\ entry config' (providers "openai") = None.
Proof.
  unfold native_provider. cbv zeta. intros Hrun.
  do 4 split_bind Hrun.
  assert (Hheaders : forall q,
            diverge ["models"; "providers"; "cloudflare-ai-gateway"; "headers"] q
            = true ->
            entry config3 q = entry config2 q).
  { intros q Hq. destruct (is_set (env !! "CF_AIG_AUTHORIZATION")).
    - eapply entry_assign_diverge; eauto.
    - now injection Hstep2 as <-. }
  clear Hstep2.
  do 8 split_bind Hrun.
  split.
  - frame_back. rewrite Hheaders by reflexivity. frame_back.
    eapply entry_remove_same; [discriminate|eassumption].
  - frame_back. rewrite Hheaders by reflexivity. frame_back.
    eapply entry_remove_same; [discriminate|eassumption].
Qed.

(** *** On a nested mapping nothing throws *)

Lemma path_eqb_eq (p q : list string) : path_eqb p q = true <-> p = q.
Proof.
  revert q. induction p as [|a p IH]; intros [|b q]; simpl;
    try (split; [discriminate|discriminate]); [tauto|].
  rewrite andb_true_iff, String.eqb_eq, IH. split.
  - now intros [-> ->].
  - intros E. now inversion E.
Qed.

Lemma path_in_In (p : list string) (l : list (list string)) :
  path_in p l = true -> In p l.
Proof.
  unfold path_in. rewrite existsb_exists. intros (q & Hq & E).
  apply path_eqb_eq in E. now subst.
Qed.

Lemma above_ancestors (q p : list string) :
  q <> [] -> above q p = true -> In q (ancestors p).
Proof.
  revert q. induction p as [|k p IH]; intros [|a q] Hne Habove;
    try contradiction; try discriminate.
  simpl in Habove. apply andb_prop in Habove as [Ea Habove].
  apply String.eqb_eq in Ea. subst a.
  destruct p as [|k2 p]; [destruct q; discriminate|].
  cbn [ancestors]. destruct q as [|b q]; [now left|].
  right. apply in_map. apply IH; [discriminate|assumption].
Qed.

Lemma object_at_root (r : jsval) : object_at r [] = is_object r.
Proof. now destruct r. Qed.

Lemma object_at_cons (r : jsval) (k : string) (q : list string) :
  object_at r (k :: q) = true ->
  exists child,
    js_get r k = Ok child /\ child <> JUndefined
    /\ object_at child q = true.
Proof.
  unfold object_at. rewrite entry_cons.
  destruct r; try discriminate;
    destruct (assoc (js k) props) as [c|] eqn:E; try discriminate;
    intros Hq; exists c; simpl; rewrite E; repeat split; auto;
    intros ->; destruct q; discriminate.
Qed.

Lemma is_object_set (r x : jsval) (k : string) :
  is_object r = true ->
  exists r', js_set false r k x = Ok r' /\ is_object r' = true
             /\ forall p, entry r' (k :: p) = entry x p.
Proof.
  destruct r; try discriminate. intros _. eexists. split; [reflexivity|].
  split; [reflexivity|]. intros p. simpl. now rewrite assoc_set_same.
Qed.

(** Under objects a write goes through and is read back. *)
Lemma assign_succeeds (p : list string) (r x : jsval) :
  p <> [] -> is_object r = true ->
  (forall q, q <> [] -> above q p = true -> object_at r q = true) ->
  exists r', assign r p x = Ok r' /\ is_object r' = true
             /\ forall rest, entry r' (p ++ rest) = entry x rest.
Proof.
  revert r. induction p as [|k p IH]; intros r Hne Hobj Hparents;
    [contradiction|].
  destruct p as [|k2 p].
  - destruct (is_object_set r x k Hobj) as (r' & Hset & Hobj' & Hentry).
    exists r'. simpl. auto.
  - assert (Hk : object_at r [k] = true).
    { apply Hparents; [discriminate|]. simpl. now rewrite String.eqb_refl. }
    apply object_at_cons in Hk as (child & Hget & Hdef & Hchild).
    rewrite object_at_root in Hchild.
    destruct (IH child) as (child' & Hassign & Hobj' & Hentry);
      [discriminate|assumption| |].
    { intros q Hq Habove.
      assert (Hkq : object_at r (k :: q) = true).
      { apply Hparents; [discriminate|]. simpl. now rewrite String.eqb_refl. }
      apply object_at_cons in Hkq as (child2 & Hget2 & _ & Hq2).
      rewrite Hget in Hget2. now injection Hget2 as <-. }
    destruct (is_object_set r child' k Hobj) as (r' & Hset & Hobj2 & Hentry2).
    exists r'. rewrite assign_deeper, Hget, bind_of_Ok, Hassign, bind_of_Ok.
    split; [assumption|]. split; [assumption|].
    intros rest. rewrite <- app_comm_cons, Hentry2. apply Hentry.
Qed.

Lemma remove_succeeds (p : list string) (r : jsval) :
  p <> [] -> is_object r = true ->
  (forall q, q <> [] -> above q p = true -> object_at r q = true) ->
  exists r', remove r p = Ok r' /\ is_object r' = true.
Proof.
  revert r. induction p as [|k p IH]; intros r Hne Hobj Hparents;
    [contradiction|].
  destruct p as [|k2 p].
  - destruct r; try discriminate. simpl. eauto.
  - assert (Hk : object_at r [k] = true).
    { apply Hparents; [discriminate|]. simpl. now rewrite String.eqb_refl. }
    apply object_at_cons in Hk as (child & Hget & Hdef & Hchild).
    rewrite object_at_root in Hchild.
    destruct (IH child) as (child' & Hremove & Hobj');
      [discriminate|assumption| |].
    { intros q Hq Habove.
      assert (Hkq : object_at r (k :: q) = true).
      { apply Hparents; [discriminate|]. simpl. now rewrite String.eqb_refl. }
      apply object_at_cons in Hkq as (child2 & Hget2 & _ & Hq2).
      rewrite Hget in Hget2. now injection Hget2 as <-. }
    destruct (is_object_set r child' k Hobj) as (r' & Hset & Hobj2 & _).
    exists r'. rewrite remove_deeper, Hget, bind_of_Ok, Hremove, bind_of_Ok.
    auto.
Qed.

(** The objects above a write stay objects. *)
Lemma object_at_assign_above (p q : list string) (r r' x : jsval) :
  assign r p x = Ok r' -> above q p = true ->
  object_at r q = true -> object_at r' q = true.
Proof.
  revert q r r'. induction p as [|k p IH]; intros q r r' Hassign Habove Hq.
  - destruct q; discriminate.
  - destruct q as [|a q].
    + rewrite object_at_root in *. destruct r; try discriminate.
      destruct p as [|k2 p].
      * simpl in Hassign. now injection Hassign as <-.
      * rewrite assign_deeper in Hassign.
        apply bind_Ok in Hassign as (c & _ & Hassign).
        apply bind_Ok in Hassign as (c' & _ & Hset).
        simpl in Hset. now injection Hset as <-.
    + simpl in Habove. apply andb_prop in Habove as [Ea Habove].
      apply String.eqb_eq in Ea. subst a.
      destruct p as [|k2 p]; [destruct q; discriminate|].
      rewrite assign_deeper in Hassign.
      apply bind_Ok in Hassign as (child & Hget & Hassign).
      apply bind_Ok in Hassign as (child' & Hchild & Hset).
      apply object_at_cons in Hq as (child2 & Hget2 & Hdef & Hq).
      rewrite Hget in Hget2. injection Hget2 as <-.
      unfold object_at. rewrite (js_set_same _ _ _ _ _ _ Hget Hdef Hset).
      apply (IH q child child' Hchild Habove Hq).
Qed.

Lemma object_at_remove_above (p q : list string) (r r' : jsval) :
  remove r p = Ok r' -> above q p = true ->
  object_at r q = true -> object_at r' q = true.
Proof.
  revert q r r'. induction p as [|k p IH]; intros q r r' Hremove Habove Hq.
  - destruct q; discriminate.
  - destruct q as [|a q].
    + rewrite object_at_root in *. destruct r; try discriminate.
      destruct p as [|k2 p].
      * simpl in Hremove. now injection Hremove as <-.
      * rewrite remove_deeper in Hremove.
        apply bind_Ok in Hremove as (c & _ & Hremove).
        apply bind_Ok in Hremove as (c' & _ & Hset).
        simpl in Hset. now injection Hset as <-.
    + simpl in Habove. apply andb_prop in Habove as [Ea Habove].
      apply String.eqb_eq in Ea. subst a.
      destruct p as [|k2 p]; [destruct q; discriminate|].
      rewrite remove_deeper in Hremove.
      apply bind_Ok in Hremove as (child & Hget & Hremove).
      apply bind_Ok in Hremove as (child' & Hchild & Hset).
      apply object_at_cons in Hq as (child2 & Hget2 & Hdef & Hq).
      rewrite Hget in Hget2. injection Hget2 as <-.
      unfold object_at. rewrite (js_set_same _ _ _ _ _ _ Hget Hdef Hset).
      apply (IH q child child' Hchild Habove Hq).
Qed.

(** Under objects a read gives the entry. *)
Lemma read_entry (p : list string) (r : jsval) :
  is_object r = true ->
  (forall q, q <> [] -> above q p = true -> object_at r q = true) ->
  read r p = Ok (default JUndefined (entry r p)).
Proof.
  revert r. induction p as [|k p IH]; intros r Hobj Hparents; [reflexivity|].
  destruct p as [|k2 p].
  - destruct r; try discriminate. simpl.
    now destruct (assoc (js k) props).
  - assert (Hk : object_at r [k] = true).
    { apply Hparents; [discriminate|]. simpl. now rewrite String.eqb_refl. }
    apply object_at_cons in Hk as (child & Hget & Hdef & Hchild).
    rewrite object_at_root in Hchild.
    cbn [read]. rewrite Hget, bind_of_Ok.
    rewrite (js_get_entry _ _ _ _ Hget Hdef).
    apply IH; [assumption|].
    intros q Hq Habove.
    assert (Hkq : object_at r (k :: q) = true).
    { apply Hparents; [discriminate|]. simpl. now rewrite String.eqb_refl. }
    apply object_at_cons in Hkq as (child2 & Hget2 & _ & Hq2).
    rewrite Hget in Hget2. now injection Hget2 as <-.
Qed.

(** Writing an entry what it holds changes nothing. *)
Lemma assign_entry_same (p : list string) (r v : jsval) :
  p <> [] -> is_object r = true ->
  (forall q, q <> [] -> above q p = true -> object_at r q = true) ->
  entry r p = Some v -> assign r p v = Ok r.
Proof.
  revert r. induction p as [|k p IH]; intros r Hne Hobj Hparents Hentry;
    [contradiction|].
  destruct p as [|k2 p].
  - destruct r; try discriminate. simpl in *.
    destruct (assoc (js k) props) as [c|] eqn:E; [|discriminate].
    injection Hentry as ->. now rewrite assoc_set_id.
  - assert (Hk : object_at r [k] = true).
    { apply Hparents; [discriminate|]. simpl. now rewrite String.eqb_refl. }
    apply object_at_cons in Hk as (child & Hget & Hdef & Hchild).
    rewrite object_at_root in Hchild.
    rewrite (js_get_entry _ _ _ _ Hget Hdef) in Hentry.
    rewrite assign_deeper, Hget, bind_of_Ok.
    rewrite (IH child); [|discriminate|assumption| |assumption].
    + rewrite bind_of_Ok. destruct r; try discriminate. simpl in *.
      destruct (assoc (js k) props) as [c|] eqn:E.
      * injection Hget as ->. now rewrite assoc_set_id.
      * injection Hget as <-. contradiction.
    + intros q Hq Habove.
      assert (Hkq : object_at r (k :: q) = true).
      { apply Hparents; [discriminate|]. simpl. now rewrite String.eqb_refl. }
      apply object_at_cons in Hkq as (child2 & Hget2 & _ & Hq2).
      rewrite Hget in Hget2. now injection Hget2 as <-.
Qed.

(** Two paths part ways, or one leads above the other, or below it. *)
Lemma paths_compare (p q : list string) :
  diverge p q = true \/ above q p = true \/ exists rest, q = p ++ rest.
Proof.
  revert q. induction p as [|a p IH]; intros q.
  - right. right. now exists q.
  - destruct q as [|b q]; [right; left; reflexivity|].
    simpl. destruct (String.eqb a b) eqn:E.
    + apply String.eqb_eq in E. subst b. rewrite String.eqb_refl.
      destruct (IH q) as [H|[H|[rest ->]]]; auto.
      right. right. now exists rest.
    + now left.
Qed.

Lemma free_or_object_of_object (r : jsval) (q : list string) :
  object_at r q = true -> free_or_object_at r q = true.
Proof.
  unfold object_at, free_or_object_at.
  now destruct (entry r q) as [[]|].
Qed.

Lemma holds_parents (r : jsval) (objs oks : list (list string))
    (p : list string) :
  holds r objs oks ->
  forallb (fun q => path_in q objs) (ancestors p) = true ->
  forall q, q <> [] -> above q p = true -> object_at r q = true.
Proof.
  intros (_ & Hobjs & _) Hin q Hq Habove.
  rewrite forallb_forall in Hin. rewrite Forall_forall in Hobjs.
  apply Hobjs. apply list_elem_of_In, path_in_In, Hin.
  now apply above_ancestors.
Qed.

Lemma holds_forget (r : jsval) (objs objs' oks : list (list string)) :
  holds r objs oks ->
  forallb (fun q => path_in q objs) objs' = true ->
  holds r objs' oks.
Proof.
  intros (Hobj & Hobjs & Hoks) Hin. split; [assumption|]. split; [|assumption].
  rewrite Forall_forall in *. rewrite forallb_forall in Hin.
  intros q Hq. apply Hobjs.
  apply list_elem_of_In, path_in_In, Hin. now apply list_elem_of_In.
Qed.

Lemma holds_assign (r x : jsval) (objs oks : list (list string))
    (p : list string) :
  holds r objs oks -> p <> [] ->
  forallb (fun q => path_in q objs) (ancestors p) = true ->
  forallb (fun q => diverge p q || above q p) objs = true ->
  forallb (fun q => diverge p q || path_in q objs) oks = true ->
  exists r',
    assign r p x = Ok r' /\ holds r' objs oks
    /\ forall rest, entry r' (p ++ rest) = entry x rest.
Proof.
  intros Hholds Hne Hanc Hobjs Hoks.
  pose proof (holds_parents r objs oks p Hholds Hanc) as Hparents.
  destruct Hholds as (Hobj & Hobjs' & Hoks').
  destruct (assign_succeeds p r x Hne Hobj Hparents)
    as (r' & Hassign & Hobj' & Hentry).
  exists r'. split; [assumption|]. split; [|assumption].
  assert (Hkeep : forall q, In q objs -> object_at r' q = true).
  { intros q Hq. rewrite forallb_forall in Hobjs.
    rewrite Forall_forall in Hobjs'.
    specialize (Hobjs q Hq). apply orb_prop in Hobjs as [Hd|Ha].
    - unfold object_at. rewrite (entry_assign_diverge p q r r' x Hassign Hd).
      apply Hobjs'. now apply list_elem_of_In.
    - eapply object_at_assign_above; eauto.
      apply Hobjs'. now apply list_elem_of_In. }
  split; [assumption|]. split.
  - apply Forall_forall. intros q Hq. apply Hkeep. now apply list_elem_of_In.
  - apply Forall_forall. intros q Hq. apply list_elem_of_In in Hq.
    rewrite forallb_forall in Hoks. rewrite Forall_forall in Hoks'.
    specialize (Hoks q Hq). apply orb_prop in Hoks as [Hd|Hin].
    + unfold free_or_object_at.
      rewrite (entry_assign_diverge p q r r' x Hassign Hd).
      apply Hoks'. now apply list_elem_of_In.
    + apply free_or_object_of_object, Hkeep, path_in_In, Hin.
Qed.

Lemma holds_assign_object (r : jsval) (props : list (jsstring * jsval))
    (objs oks : list (list string)) (p : list string) :
  holds r objs oks -> p <> [] ->
  forallb (fun q => path_in q objs) (ancestors p) = true ->
  forallb (fun q => diverge p q || above q p) objs = true ->
  forallb (fun q => diverge p q || path_in q objs) oks = true ->
  exists r',
    assign r p (JObj props) = Ok r' /\ holds r' (p :: objs) oks
    /\ forall rest, entry r' (p ++ rest) = entry (JObj props) rest.
Proof.
  intros Hholds Hne Hanc Hobjs Hoks.
  destruct (holds_assign r (JObj props) objs oks p)
    as (r' & Hassign & (Hobj & Hobjs' & Hoks') & Hentry); auto.
  exists r'. split; [assumption|]. split; [|assumption].
  split; [assumption|]. split; [|assumption].
  constructor; [|assumption].
  unfold object_at. rewrite <- (app_nil_r p), Hentry. reflexivity.
Qed.

Lemma holds_remove (r : jsval) (objs oks : list (list string))
    (p : list string) :
  holds r objs oks -> p <> [] ->
  forallb (fun q => path_in q objs) (ancestors p) = true ->
  forallb (fun q => diverge p q || above q p) objs = true ->
  forallb (fun q => diverge p q || path_in q objs) oks = true ->
  exists r', remove r p = Ok r' /\ holds r' objs oks.
Proof.
  intros Hholds Hne Hanc Hobjs Hoks.
  pose proof (holds_parents r objs oks p Hholds Hanc) as Hparents.
  destruct Hholds as (Hobj & Hobjs' & Hoks').
  destruct (remove_succeeds p r Hne Hobj Hparents) as (r' & Hremove & Hobj').
  exists r'. split; [assumption|].
  assert (Hkeep : forall q, In q objs -> object_at r' q = true).
  { intros q Hq. rewrite forallb_forall in Hobjs.
    rewrite Forall_forall in Hobjs'.
    specialize (Hobjs q Hq). apply orb_prop in Hobjs as [Hd|Ha].
    - unfold object_at. rewrite (entry_remove_diverge p q r r' Hremove Hd).
      apply Hobjs'. now apply list_elem_of_In.
    - eapply object_at_remove_above; eauto.
      apply Hobjs'. now apply list_elem_of_In. }
  split; [assumption|]. split.
  - apply Forall_forall. intros q Hq. apply Hkeep. now apply list_elem_of_In.
  - apply Forall_forall. intros q Hq. apply list_elem_of_In in Hq.
    rewrite forallb_forall in Hoks. rewrite Forall_forall in Hoks'.
    specialize (Hoks q Hq). apply orb_prop in Hoks as [Hd|Hin].
    + unfold free_or_object_at.
      rewrite (entry_remove_diverge p q r r' Hremove Hd).
      apply Hoks'. now apply list_elem_of_In.
    + apply free_or_object_of_object, Hkeep, path_in_In, Hin.
Qed.

(** [x = x || {}] on an entry that is an object or is not there. *)
Lemma default_object_cases `{Builtins} (p : list string) (r : jsval) :
  p <> [] -> is_object r = true ->
  (forall q, q <> [] -> above q p = true -> object_at r q = true) ->
  free_or_object_at r p = true ->
  (object_at r p = true /\ default_object r p = Ok r)
  \/ (entry r p = None /\ default_object r p = assign r p (JObj [])).
Proof.
  intros Hne Hobj Hparents Hok. unfold default_object.
  rewrite (read_entry p r Hobj Hparents), bind_of_Ok.
  unfold free_or_object_at, object_at in *.
  destruct (entry r p) as [v|] eqn:E.
  - left. destruct v; try discriminate. split; [reflexivity|].
    simpl. now apply assign_entry_same.
  - right. split; reflexivity.
Qed.

Lemma above_split (p q : list string) :
  above p q = true -> exists k rest, q = p ++ k :: rest.
Proof.
  revert q. induction p as [|a p IH]; intros [|b q] H; try discriminate.
  - now exists b, q.
  - simpl in H. apply andb_prop in H as [E H].
    apply String.eqb_eq in E. subst b.
    destruct (IH q H) as (k & rest & ->). now exists k, rest.
Qed.

Lemma holds_default `{Builtins} (r : jsval) (objs oks : list (list string))
    (p : list string) :
  holds r objs oks -> p <> [] ->
  forallb (fun q => path_in q objs) (ancestors p) = true ->
  path_in p oks || path_in p objs = true ->
  exists r',
    default_object r p = Ok r' /\ holds r' (p :: objs) oks
    /\ forall q, above p q = true -> entry r' q = entry r q.
Proof.
  intros Hholds Hne Hanc Hp.
  pose proof (holds_parents r objs oks p Hholds Hanc) as Hparents.
  destruct Hholds as (Hobj & Hobjs & Hoks).
  assert (Hok : free_or_object_at r p = true).
  { rewrite Forall_forall in Hobjs, Hoks.
    apply orb_prop in Hp as [Hp|Hp]; apply path_in_In in Hp.
    - apply Hoks. now apply list_elem_of_In.
    - apply free_or_object_of_object, Hobjs. now apply list_elem_of_In. }
  destruct (default_object_cases p r Hne Hobj Hparents Hok)
    as [[Hat ->]|[Hnone ->]].
  - exists r. split; [reflexivity|]. split; [|reflexivity].
    split; [assumption|]. split; [|assumption]. now constructor.
  - destruct (assign_succeeds p r (JObj []) Hne Hobj Hparents)
      as (r' & Hassign & Hobj' & Hentry).
    exists r'. split; [assumption|].
    assert (Hbelow : forall rest, entry r (p ++ rest) = None).
    { intros rest. now rewrite entry_app, Hnone. }
    split; [split; [assumption|split]|].
    + constructor.
      * unfold object_at. now rewrite <- (app_nil_r p), Hentry.
      * rewrite Forall_forall in *. intros q Hq. specialize (Hobjs q Hq).
        destruct (paths_compare p q) as [Hd|[Ha|[rest ->]]].
        -- unfold object_at.
           now rewrite (entry_assign_diverge p q r r' _ Hassign Hd).
        -- eapply object_at_assign_above; eauto.
        -- unfold object_at in Hobjs. now rewrite Hbelow in Hobjs.
    + rewrite Forall_forall in *. intros q Hq. specialize (Hoks q Hq).
      destruct (paths_compare p q) as [Hd|[Ha|[rest ->]]].
      * unfold free_or_object_at.
        now rewrite (entry_assign_diverge p q r r' _ Hassign Hd).
      * apply free_or_object_of_object.
        eapply object_at_assign_above; eauto.
        destruct q as [|a q]; [now rewrite object_at_root|].
        apply Hparents; [discriminate|assumption].
      * unfold free_or_object_at. rewrite Hentry.
        destruct rest; reflexivity.
    + intros q Hq. apply above_split in Hq as (k & rest & ->).
      now rewrite Hentry, Hbelow.
Qed.

(** *** The script, section by section *)

Ltac run_default :=
  match goal with
  | Hh : holds ?r ?objs ?oks |- context [default_object ?r ?p] =>
      let r' := fresh "config" in
      let He := fresh "Hstep" in
      let Hh' := fresh "Hholds" in
      let Hb := fresh "Hbelow" in
      destruct (holds_default r objs oks p Hh) as (r' & He & Hh' & Hb);
      [discriminate | reflexivity | reflexivity |];
      rewrite He, ?bind_of_Ok; clear Hh
  end.

Ltac run_assign :=
  match goal with
  | Hh : holds ?r ?objs ?oks |- context [assign ?r ?p (JObj ?props)] =>
      let r' := fresh "config" in
      let He := fresh "Hstep" in
      let Hh' := fresh "Hholds" in
      let Hw := fresh "Hwritten" in
      destruct (holds_assign_object r props objs oks p Hh)
        as (r' & He & Hh' & Hw);
      [discriminate | reflexivity | reflexivity | reflexivity |];
      rewrite He, ?bind_of_Ok; clear Hh
  | Hh : holds ?r ?objs ?oks |- context [assign ?r ?p ?x] =>
      let r' := fresh "config" in
      let He := fresh "Hstep" in
      let Hh' := fresh "Hholds" in
      let Hw := fresh "Hwritten" in
      destruct (holds_assign r x objs oks p Hh) as (r' & He & Hh' & Hw);
      [discriminate | reflexivity | reflexivity | reflexivity |];
      rewrite He, ?bind_of_Ok; clear Hh
  end.

Ltac run_remove :=
  match goal with
  | Hh : holds ?r ?objs ?oks |- context [remove ?r ?p] =>
      let r' := fresh "config" in
      let He := fresh "Hstep" in
      let Hh' := fresh "Hholds" in
      destruct (holds_remove r objs oks p Hh) as (r' & He & Hh');
      [discriminate | reflexivity | reflexivity | reflexivity |];
      rewrite He, ?bind_of_Ok; clear Hh
  end.

Ltac run_script := repeat first [run_default | run_remove | run_assign].

(** Back through the steps to what an entry was. *)
Ltac trace_back :=
  repeat match goal with
    | H : assign ?r ?p ?x = Ok ?r' |- context [entry ?r' ?q] =>
        rewrite (entry_assign_diverge p q r r' x H eq_refl)
    | H : forall q, above ?p q = true -> entry ?r' q = entry ?r q
      |- context [entry ?r' ?q] =>
        rewrite (H q eq_refl)
    | H : default_object ?r ?p = Ok ?r' |- context [entry ?r' ?q] =>
        rewrite (entry_default_diverge p q r r' H eq_refl)
    | H : remove ?r ?p = Ok ?r' |- context [entry ?r' ?q] =>
        rewrite (entry_remove_diverge p q r r' H eq_refl)
    end.

Lemma ensure_sections_runs `{Builtins} (config : jsval) :
  holds config [] sections ->
  exists config', ensure_sections config = Ok config'
                  /\ holds config' made_sure sections
                  /\ legacy_kept config config'.
Proof.
  intros Hholds. unfold ensure_sections. run_script.
  eexists. split; [reflexivity|]. split; [assumption|].
  split; unfold providers; trace_back; reflexivity.
Qed.

Lemma gateway_settings_runs `{Builtins} (env : gmap string jsstring)
    (config : jsval) :
  holds config made_sure sections ->
  exists config', gateway_settings env config = Ok config'
                  /\ holds config' made_sure sections
                  /\ legacy_kept config config'.
Proof.
  intros Hholds. unfold gateway_settings. do 3 run_assign.
  destruct (is_set (env !! "CLAWDBOT_GATEWAY_TOKEN")),
    (is_lit (env !! "CLAWDBOT_DEV_MODE") "true");
    cbv beta iota; run_script; rewrite ?bind_of_Ok; run_script;
    (eexists; split; [reflexivity|]);
    (split; [eapply holds_forget; [eassumption|reflexivity]|]);
    split; unfold providers; trace_back; reflexivity.
Qed.

Lemma legacy_kept_trans (a b c : jsval) :
  legacy_kept a b -> legacy_kept b c -> legacy_kept a c.
Proof. intros [H1 H2] [H3 H4]. split; congruence. Qed.

Lemma legacy_kept_refl (a : jsval) : legacy_kept a a.
Proof. now split. Qed.

Lemma channel_settings_runs `{Builtins} (env : gmap string jsstring)
    (config : jsval) :
  holds config made_sure sections ->
  exists config', channel_settings env config = Ok config'
                  /\ holds config' made_sure sections
                  /\ legacy_kept config config'.
Proof.
  intros Hholds. unfold channel_settings.
  assert (Htelegram : exists config1,
    (if is_set (env !! "TELEGRAM_BOT_TOKEN") then
       config ← default_object config ["channels"; "telegram"];
       config ← assign config ["channels"; "telegram"; "botToken"]
                  (JStr (default [] (env !! "TELEGRAM_BOT_TOKEN")));
       config ← assign config ["channels"; "telegram"; "enabled"] (JBool true);
       config ← default_object config ["channels"; "telegram"; "dm"];
       assign config ["channels"; "telegram"; "dmPolicy"]
         (JStr (env_or_lit (env !! "TELEGRAM_DM_POLICY") "pairing"))
     else Ok config) = Ok config1 /\ holds config1 made_sure sections
     /\ legacy_kept config config1).
  { destruct (is_set (env !! "TELEGRAM_BOT_TOKEN"));
      [|eauto using legacy_kept_refl].
    cbv beta iota. run_script. eexists. split; [reflexivity|].
    split; [eapply holds_forget; [eassumption|reflexivity]|].
    split; unfold providers; trace_back; reflexivity. }
  destruct Htelegram as (config1 & -> & Hholds1 & Hkept1). rewrite bind_of_Ok.
  clear Hholds.
  assert (Hdiscord : exists config2,
    (if is_set (env !! "DISCORD_BOT_TOKEN") then
       config ← default_object config1 ["channels"; "discord"];
       config ← assign config ["channels"; "discord"; "token"]
                  (JStr (default [] (env !! "DISCORD_BOT_TOKEN")));
       config ← assign config ["channels"; "discord"; "enabled"] (JBool true);
       config ← default_object config ["channels"; "discord"; "dm"];
       assign config ["channels"; "discord"; "dm"; "policy"]
         (JStr (env_or_lit (env !! "DISCORD_DM_POLICY") "pairing"))
     else Ok config1) = Ok config2 /\ holds config2 made_sure sections
     /\ legacy_kept config1 config2).
  { destruct (is_set (env !! "DISCORD_BOT_TOKEN"));
      [|eauto using legacy_kept_refl].
    cbv beta iota. run_script. eexists. split; [reflexivity|].
    split; [eapply holds_forget; [eassumption|reflexivity]|].
    split; unfold providers; trace_back; reflexivity. }
  destruct Hdiscord as (config2 & -> & Hholds2 & Hkept2). rewrite bind_of_Ok.
  clear Hholds1.
  pose proof (legacy_kept_trans _ _ _ Hkept1 Hkept2) as Hkept.
  destruct (is_set (env !! "SLACK_BOT_TOKEN") && is_set (env !! "SLACK_APP_TOKEN"));
    [|eauto].
  cbv beta iota. run_script. eexists. split; [reflexivity|].
  split; [eapply holds_forget; [eassumption|reflexivity]|].
  eapply legacy_kept_trans; [exact Hkept|].
  split; unfold providers; trace_back; reflexivity.
Qed.

Lemma native_provider_runs `{Builtins} (env : gmap string jsstring)
    (accountId apiKey : jsstring) (config : jsval) :
  holds config made_sure sections ->
  exists config',
    native_provider env accountId apiKey config = Ok config'
    /\ entry config' primary
       = Some (JStr (env_or_lit (env !! "DEFAULT_MODEL")
                       "cloudflare-ai-gateway/google-ai-studio/gemini-2.5-flash"))
    /\ entry config' ["models"; "providers"; "cloudflare-ai-gateway"; "accountId"]
       = Some (JStr accountId)
    /\ entry config' ["models"; "providers"; "cloudflare-ai-gateway"; "apiKey"]
       = Some (JStr apiKey).
Proof.
  intros Hholds. unfold native_provider. cbv zeta.
  do 2 run_remove. run_assign.
  assert (Hid : entry config2
                  ["models"; "providers"; "cloudflare-ai-gateway"; "accountId"]
                = Some (JStr accountId)).
  { exact (Hwritten ["accountId"]). }
  assert (Hkey : entry config2
                   ["models"; "providers"; "cloudflare-ai-gateway"; "apiKey"]
                 = Some (JStr apiKey)).
  { exact (Hwritten ["apiKey"]). }
  clear Hwritten.
  destruct (is_set (env !! "CF_AIG_AUTHORIZATION")); cbv beta iota;
    run_script; rewrite ?bind_of_Ok; run_script;
    (eexists; split; [reflexivity|]);
    (split; [match goal with
             | Hw : forall rest, entry ?r (primary ++ rest) = _ |- _ =>
                 exact (Hw [])
             | Hw : forall rest, entry ?r (?p ++ rest) = _
               |- entry ?r primary = _ => exact (Hw [])
             end|]);
    split; unfold primary, models; trace_back; assumption.
Qed.

Lemma direct_provider_runs `{Builtins} (config : jsval) :
  holds config made_sure sections ->
  exists config',
    direct_provider config = Ok config'
    /\ entry config' primary
       = Some (JStr (js "anthropic/claude-opus-4-5-20251101"))
    /\ legacy_kept config config'.
Proof.
  intros Hholds. unfold direct_provider. run_script.
  eexists. split; [reflexivity|]. split.
  - match goal with
    | Hw : forall rest, entry ?r (?p ++ rest) = _ |- entry ?r primary = _ =>
        exact (Hw [])
    end.
  - split; unfold providers, models; trace_back; reflexivity.
Qed.

Lemma default_provider_runs (config : jsval) :
  holds config made_sure sections ->
  exists config',
    default_provider config = Ok config'
    /\ entry config' primary = Some (JStr (js "anthropic/claude-opus-4-5"))
    /\ legacy_kept config config'.
Proof.
  intros Hholds. unfold default_provider.
  destruct (holds_assign config (JStr (js "anthropic/claude-opus-4-5"))
              made_sure sections primary Hholds)
    as (config' & Hstep & _ & Hwritten);
    [discriminate|reflexivity|reflexivity|reflexivity|].
  exists config'. split; [assumption|]. split; [exact (Hwritten [])|].
  split; unfold providers; trace_back; reflexivity.
Qed.

Lemma nested_mapping_holds (config : jsval) :
  nested_mapping config = true -> holds config [] sections.
Proof.
  unfold nested_mapping. intros [Hobj Hsections]%andb_prop.
  split; [assumption|]. split; [constructor|].
  apply Forall_forall. intros q Hq. rewrite forallb_forall in Hsections.
  apply Hsections. now apply list_elem_of_In.
Qed.

Lemma configure_clears `{Builtins} (env : gmap string jsstring)
    (accountId apiKey : jsstring) (config config' : jsval) :
  select_provider env = NativeGateway accountId apiKey ->
  configure env config = Ok config' ->
  entry config' (providers "anthropic") = None
  /\ entry config' (providers "openai") = None.
Proof.
  intros Hselect Hrun. unfold configure in Hrun. rewrite Hselect in Hrun.
  do 3 split_bind Hrun. eapply native_provider_clears; eauto.
Qed.

(** C4.  The provider is chosen in strict order: the native gateway exactly
    when an account id and a provider key are both set; else the direct
    Anthropic provider when its key is set; else the built-in default.
    Whenever the native gateway is chosen, the configuration the script
    writes has no [models.providers.anthropic] and no
    [models.providers.openai].  On a configuration that is a nested mapping
    the script runs to its end, and the provider chosen shows in what it
    writes; the other two leave the legacy entries as they were. *)
Theorem provider_precedence `{Builtins} (env : gmap string jsstring) :
  let accountId := env_or (env !! "CLOUDFLARE_AI_GATEWAY_ACCOUNT_ID")
                     (env !! "CF_ACCOUNT_ID") in
  let apiKey := env_or (env !! "CLOUDFLARE_AI_GATEWAY_API_KEY")
                  (env !! "AI_GATEWAY_API_KEY") in
  let direct := env !! "ANTHROPIC_API_KEY" in
  (is_set accountId && is_set apiKey = true
   <-> select_provider env
       = NativeGateway (default [] accountId) (default [] apiKey))
  /\ (is_set accountId && is_set apiKey = false /\ is_set direct = true
      <-> select_provider env = DirectAnthropic)
  /\ (is_set accountId && is_set apiKey = false /\ is_set direct = false
      <-> select_provider env = BuiltinDefault)
  /\ (forall a k config config',
        select_provider env = NativeGateway a k ->
        configure env config = Ok config' ->
        entry config' (providers "anthropic") = None
        /\ entry config' (providers "openai") = None)
  /\ (forall config,
        nested_mapping config = true ->
        exists config',
          configure env config = Ok config'
          /\ match select_provider env with
             | NativeGateway a k =>
                 entry config' primary
                 = Some (JStr (env_or_lit (env !! "DEFAULT_MODEL")
                                 "cloudflare-ai-gateway/google-ai-studio/gemini-2.5-flash"))
                 /\ entry config'
                      ["models"; "providers"; "cloudflare-ai-gateway"; "accountId"]
                    = Some (JStr a)
                 /\ entry config'
                      ["models"; "providers"; "cloudflare-ai-gateway"; "apiKey"]
                    = Some (JStr k)
             | DirectAnthropic =>
                 entry config' primary
                 = Some (JStr (js "anthropic/claude-opus-4-5-20251101"))
                 /\ legacy_kept config config'
             | BuiltinDefault =>
                 entry config' primary
                 = Some (JStr (js "anthropic/claude-opus-4-5"))
                 /\ legacy_kept config config'
             end).
Proof.
  cbv zeta.
  split; [|split; [|split; [|split]]].
  - unfold select_provider.
    destruct (is_set (env_or _ _) && is_set (env_or _ _));
      [now split|].
    split; [discriminate|]. now destruct (is_set (env !! "ANTHROPIC_API_KEY")).
  - unfold select_provider.
    destruct (is_set (env_or _ _) && is_set (env_or _ _)),
      (is_set (env !! "ANTHROPIC_API_KEY")); split;
      try discriminate; try tauto; intros [? ?]; discriminate.
  - unfold select_provider.
    destruct (is_set (env_or _ _) && is_set (env_or _ _)),
      (is_set (env !! "ANTHROPIC_API_KEY")); split;
      try discriminate; try tauto; intros [? ?]; discriminate.
  - intros a k config config'. apply configure_clears.
  - intros config Hshape. apply nested_mapping_holds in Hshape.
    unfold configure.
    destruct (ensure_sections_runs config Hshape) as (c1 & -> & H1 & K1).
    rewrite bind_of_Ok.
    destruct (gateway_settings_runs env c1 H1) as (c2 & -> & H2 & K2).
    rewrite bind_of_Ok.
    destruct (channel_settings_runs env c2 H2) as (c3 & -> & H3 & K3).
    rewrite bind_of_Ok.
    pose proof (legacy_kept_trans _ _ _ (legacy_kept_trans _ _ _ K1 K2) K3)
      as K.
    destruct (select_provider env) as [a k| |].
    + destruct (native_provider_runs env a k c3 H3) as (c4 & -> & Hp).
      eauto.
    + destruct (direct_provider_runs c3 H3) as (c4 & -> & Hp & K4).
      eauto using legacy_kept_trans.
    + destruct (default_provider_runs c3 H3) as (c4 & -> & Hp & K4).
      eauto using legacy_kept_trans.
Qed.

(** The account id and the key of the gateway are set, and so is the direct
    key: a configuration that held both legacy providers holds neither. *)
Lemma provider_precedence_witness :
  exists config',
    @configure ascii_engine native_env legacy_config = Ok config'
    /\ entry config' (providers "anthropic") = None.
Proof.
  pose proof (@provider_precedence ascii_engine native_env) as H.
  cbv zeta in H. destruct H as (_ & _ & _ & Hclear & Hrun).
  destruct (Hrun legacy_config eq_refl) as (config' & Hc & _).
  exists config'. split; [exact Hc|].
  exact (proj1 (Hclear (js "account") (js "gateway-key") legacy_config config'
                  eq_refl Hc)).
Defined.

End ConfigFacts.

(** ** The catch-all handler on its other paths *)

Module ProxyFacts.
Import JS Worker Samples JSFacts WorkerFacts.

(** X1.  When the start of the gateway fails on a request that is not served the
    loading page, the handler logs the failure and answers with status 500
    without reaching for the container: the page of [config-error.html] with the
    message of the error when [Accept] includes [text/html], and otherwise a
    JSON body of [error], [details] and [hint], where the hint asks for an API
    key exactly when neither [AI_GATEWAY_API_KEY] nor [ANTHROPIC_API_KEY] is
    set. What was thrown and is no [Error] is reported as [Unknown error]. *)
Theorem start_failure_answers_500 `{Builtins} `{Assets} (w : World)
    (env : MoltbotEnv) (request : Request) (err : thrown) :
  negb (isGatewayReady (the_process w)) && negb (isWebSocketRequest request)
    && acceptsHtml request = false ->
  ensure_outcome w = Some err ->
  let o := run w (proxy env request) in
  let details := match err with
                 | ErrorObject message => message
                 | OtherValue => js "Unknown error"
                 end in
  let hint :=
    if is_set (AI_GATEWAY_API_KEY env) || is_set (ANTHROPIC_API_KEY env)
    then js "Check worker logs with: wrangler tail"
    else js "No API key set. Run: wrangler secret put AI_GATEWAY_API_KEY (or ANTHROPIC_API_KEY)" in
  trace o
  = [EConsole log [LStr (js "[PROXY] Handling request:"); LStr (pathname request)];
     EFindProcess;
     EEnsureGateway;
     EConsole error [LStr (js "[PROXY] Failed to start Moltbot:"); LThrown err]]
  /\ listeners o = []
  /\ exists r,
      result o = inl r
      /\ reply_status r = 500%Z
      /\ (acceptsHtml request = true ->
          r = Html (replace configErrorHtml (js "{{MISSING_VARS}}") details)
                (Some 500%Z))
      /\ (acceptsHtml request = false ->
          r = Json (JObj [(js "error", JStr (js "Failed to start Moltbot"));
                          (js "details", JStr details);
                          (js "hint", JStr hint)]) (Some 500%Z)).
Proof.
  intros Hbranch Hensure. cbv zeta. unfold proxy. simpl run.
  rewrite Hbranch. simpl run. rewrite Hensure. simpl run.
  assert (Hdetails : error_message err
                     = match err with
                       | ErrorObject message => message
                       | OtherValue => js "Unknown error"
                       end) by now destruct err.
  rewrite Hdetails.
  destruct (acceptsHtml request); simpl run; cbn [trace listeners result did].
  - split; [reflexivity|]. split; [reflexivity|].
    eexists. split; [reflexivity|]. split; [reflexivity|].
    split; [reflexivity|discriminate].
  - split; [reflexivity|]. split; [reflexivity|].
    eexists. split; [reflexivity|]. split; [reflexivity|].
    split; [discriminate|]. intros _.
    now destruct (is_set (AI_GATEWAY_API_KEY env) || is_set (ANTHROPIC_API_KEY env)).
Qed.

Lemma start_failure_witness :
  exists r,
    result (run failing_world (@proxy ascii_engine pages no_bindings api_request))
    = inl r
    /\ reply_status r = 500%Z.
Proof.
  pose proof (@start_failure_answers_500 ascii_engine pages failing_world
                no_bindings api_request
                (ErrorObject (js "Gateway did not start"))
                eq_refl eq_refl) as Hthm.
  cbv zeta in Hthm. destruct Hthm as (_ & _ & r & Hr & Hstatus & _).
  exists r. split; [exact Hr|exact Hstatus].
Defined.

(** X2.  A WebSocket upgrade for which the container gives a response without a
    WebSocket: the caller's socket, accepted before the container was asked, is
    closed with code 1011, the handler answers with status 500 and the text
    [WebSocket connection failed], and no listener is registered. *)
Theorem upgrade_without_socket `{Builtins} `{Assets} (w : World)
    (env : MoltbotEnv) (request : Request) (containerWsResponse : Response) :
  isWebSocketRequest request = true ->
  ensure_outcome w = None ->
  fetch_outcome w request MOLTBOT_PORT = inl containerWsResponse ->
  webSocket containerWsResponse = None ->
  let o := run w (proxy env request) in
  trace o
  = [EConsole log [LStr (js "[PROXY] Handling request:"); LStr (pathname request)];
     EFindProcess;
     EEnsureGateway;
     EConsole log [LStr (js "[WS] Intercepting WebSocket for transformation")];
     EWebSocketPair;
     EAccept serverWs;
     EContainerFetch request MOLTBOT_PORT;
     EConsole error [LStr (js "[WS] Container did not return WebSocket")];
     EClose serverWs 1011 (js "Container WebSocket connection failed")]
  /\ listeners o = []
  /\ exists r,
      result o = inl (Raw r)
      /\ status r = 500%Z
      /\ body r = Text (js "WebSocket connection failed")
      /\ webSocket r = None.
Proof.
  intros Hws Hensure Hfetch Hsocket. cbv zeta. unfold proxy. simpl run.
  rewrite Hws, andb_false_r. simpl run. rewrite Hensure. simpl run.
  rewrite Hfetch, Hsocket. simpl run. cbn [trace listeners result did].
  split; [reflexivity|]. split; [reflexivity|].
  eexists. split; [reflexivity|]. now repeat split.
Qed.

Lemma upgrade_without_socket_witness :
  listeners (run plain_world
               (@proxy ascii_engine pages no_bindings upgrade_request)) = [].
Proof.
  pose proof (@upgrade_without_socket ascii_engine pages plain_world
                no_bindings upgrade_request ok_response
                eq_refl eq_refl eq_refl eq_refl) as Hthm.
  cbv zeta in Hthm. exact (proj1 (proj2 Hthm)).
Defined.

(** X3.  A WebSocket upgrade the container accepts: the handler answers with
    status 101 and the caller's end of a new pair. It has accepted the other end
    before it asked the container and the container's socket after, and it has
    sent nothing and closed nothing on either. *)
Theorem upgrade_is_intercepted `{Builtins} `{Assets} (w : World)
    (env : MoltbotEnv) (request : Request) (containerWsResponse : Response)
    (s : socket) :
  isWebSocketRequest request = true ->
  ensure_outcome w = None ->
  fetch_outcome w request MOLTBOT_PORT = inl containerWsResponse ->
  webSocket containerWsResponse = Some s ->
  let o := run w (proxy env request) in
  trace o
  = [EConsole log [LStr (js "[PROXY] Handling request:"); LStr (pathname request)];
     EFindProcess;
     EEnsureGateway;
     EConsole log [LStr (js "[WS] Intercepting WebSocket for transformation")];
     EWebSocketPair;
     EAccept serverWs;
     EContainerFetch request MOLTBOT_PORT;
     EAccept containerWs;
     EConsole log [LStr (js "[WS] Returning intercepted WebSocket response")]]
  /\ exists r,
      result o = inl (Raw r)
      /\ status r = 101%Z
      /\ body r = NoBody
      /\ webSocket r = Some clientWs.
Proof.
  intros Hws Hensure Hfetch Hsocket. cbv zeta. unfold proxy. simpl run.
  rewrite Hws, andb_false_r. simpl run. rewrite Hensure. simpl run.
  rewrite Hfetch, Hsocket. simpl run. cbn [trace listeners result did listening].
  split; [reflexivity|].
  eexists. split; [reflexivity|]. now repeat split.
Qed.

Lemma upgrade_is_intercepted_witness :
  exists r,
    result (run cold_world
              (@proxy ascii_engine pages no_bindings upgrade_request))
    = inl (Raw r)
    /\ webSocket r = Some clientWs.
Proof.
  pose proof (@upgrade_is_intercepted ascii_engine pages cold_world
                no_bindings upgrade_request upgrade_response containerWs
                eq_refl eq_refl eq_refl eq_refl) as Hthm.
  cbv zeta in Hthm. destruct Hthm as (_ & r & Hr & _ & _ & Hsocket).
  exists r. split; [exact Hr|exact Hsocket].
Defined.

(** X4.  When the container does not answer ([containerFetch] rejects), nothing
    catches it: the handler rejects with the same reason, for an upgrade as for
    any other request. It registers no listener and closes no socket: on an
    upgrade the caller's socket was accepted and stays as it is. *)
Theorem fetch_failure_is_thrown `{Builtins} `{Assets} (w : World)
    (env : MoltbotEnv) (request : Request) (e : thrown) :
  negb (isGatewayReady (the_process w)) && negb (isWebSocketRequest request)
    && acceptsHtml request = false ->
  ensure_outcome w = None ->
  fetch_outcome w request MOLTBOT_PORT = inr e ->
  let o := run w (proxy env request) in
  result o = inr e
  /\ listeners o = []
  /\ (forall s code reason, ~ In (EClose s code reason) (trace o))
  /\ (isWebSocketRequest request = true -> In (EAccept serverWs) (trace o)).
Proof.
  intros Hbranch Hensure Hfetch. cbv zeta. unfold proxy. simpl run.
  rewrite Hbranch. simpl run. rewrite Hensure.
  destruct (isWebSocketRequest request); simpl run; rewrite Hfetch; simpl run;
    cbn [trace listeners result did].
  - split; [reflexivity|]. split; [reflexivity|]. split.
    + intros s code reason Hin. simpl in Hin.
      repeat destruct Hin as [Hin|Hin]; try discriminate; contradiction.
    + intros _. simpl. tauto.
  - split; [reflexivity|]. split; [reflexivity|]. split.
    + intros s code reason Hin. simpl in Hin.
      repeat destruct Hin as [Hin|Hin]; try discriminate; contradiction.
    + discriminate.
Qed.

Lemma fetch_failure_witness :
  result (run unreachable_world
            (@proxy ascii_engine pages no_bindings upgrade_request))
  = inr (ErrorObject (js "Container is not running")).
Proof.
  pose proof (@fetch_failure_is_thrown ascii_engine pages unreachable_world
                no_bindings upgrade_request
                (ErrorObject (js "Container is not running"))
                eq_refl eq_refl eq_refl) as Hthm.
  cbv zeta in Hthm. exact (proj1 Hthm).
Defined.

(** X5.  Every request that reaches the handler starts the gateway once, ready
    or not: either the handler awaits [ensureMoltbotGateway] itself, or it hands
    one call of it to [waitUntil], never both and never neither. *)
Theorem every_request_starts_once `{Builtins} `{Assets} (w : World)
    (env : MoltbotEnv) (request : Request) :
  starts w (trace (run w (proxy env request))) = 1.
Proof.
  unfold proxy. simpl run.
  destruct (negb (isGatewayReady (the_process w))
            && negb (isWebSocketRequest request) && acceptsHtml request).
  - unfold starts, started, background_start. simpl.
    destruct (ensure_outcome w); reflexivity.
  - simpl run.
    destruct (ensure_outcome w) as [err|].
    + destruct (acceptsHtml request); reflexivity.
    + destruct (isWebSocketRequest request); simpl run.
      * destruct (fetch_outcome w request MOLTBOT_PORT) as [r|e];
          [|reflexivity].
        destruct (webSocket r); reflexivity.
      * destruct (fetch_outcome w request MOLTBOT_PORT) as [r|e]; reflexivity.
Qed.

(** *** The relay in the other direction, and when a send fails *)

(** X7.  In a relayed session a message of the caller runs one listener, which
    sends the frame to the gateway as it came, text or binary; when that send
    throws, the error is logged and nothing else is done. *)
Theorem caller_frames_go_unchanged `{Builtins} `{Assets} (w : World)
    (env : MoltbotEnv) (request : Request) (containerWsResponse : Response)
    (s : socket) :
  isWebSocketRequest request = true ->
  ensure_outcome w = None ->
  fetch_outcome w request MOLTBOT_PORT = inl containerWsResponse ->
  webSocket containerWsResponse = Some s ->
  let ls := listeners (run w (proxy env request)) in
  forall (w' : World) (data : frame),
    map (fun p => trace (run w' p)) (called ls (MessageEvent serverWs data))
    = [ESend containerWs data
       :: match send_outcome w' containerWs data with
          | Some e =>
              [EConsole error [LStr (js "[WS] Error forwarding to container:");
                               LThrown e]]
          | None => []
          end].
Proof.
  intros Hws Hensure Hfetch Hsocket. cbv zeta.
  rewrite (proxy_registers w env request containerWsResponse s
             Hws Hensure Hfetch Hsocket).
  intros w' data. unfold relay_listeners. cbn [called socket_eqb map].
  unfold on_server_message. simpl run.
  now destruct (send_outcome w' containerWs data).
Qed.

Lemma caller_frames_witness :
  map (fun p => trace (run cold_world p))
    (called (listeners (run cold_world
                          (@proxy ascii_engine pages no_bindings upgrade_request)))
       (MessageEvent serverWs (BinaryFrame [1%N; 2%N])))
  = [[ESend containerWs (BinaryFrame [1%N; 2%N])]].
Proof.
  exact (@caller_frames_go_unchanged ascii_engine pages cold_world no_bindings
           upgrade_request upgrade_response containerWs
           eq_refl eq_refl eq_refl eq_refl cold_world (BinaryFrame [1%N; 2%N])).
Defined.

(** X8.  No message closes a leg of the session, in either direction, whatever
    the frame is and whether or not the send goes through: a failed send leaves
    both legs as they were. *)
Theorem messages_close_nothing `{Builtins} `{Assets} (w : World)
    (env : MoltbotEnv) (request : Request) (containerWsResponse : Response)
    (s : socket) :
  isWebSocketRequest request = true ->
  ensure_outcome w = None ->
  fetch_outcome w request MOLTBOT_PORT = inl containerWsResponse ->
  webSocket containerWsResponse = Some s ->
  let ls := listeners (run w (proxy env request)) in
  forall (w' : World) (from : socket) (data : frame) (r : relay),
    caller (deliver w' ls (MessageEvent from data) r) = caller r
    /\ gateway (deliver w' ls (MessageEvent from data) r) = gateway r.
Proof.
  intros Hws Hensure Hfetch Hsocket. cbv zeta.
  rewrite (proxy_registers w env request containerWsResponse s
             Hws Hensure Hfetch Hsocket).
  intros w' from data r.
  pose proof (deliver_legs w' request (MessageEvent from data) r) as Hlegs.
  unfold legs_of in Hlegs. now injection Hlegs.
Qed.

Lemma messages_close_nothing_witness :
  caller
    (deliver failing_world
       (listeners (run cold_world
                     (@proxy ascii_engine pages no_bindings upgrade_request)))
       (MessageEvent containerWs (TextFrame mismatch_frame))
       {| caller := Open; gateway := Open; to_caller := []; to_gateway := [] |})
  = Open.
Proof.
  exact (proj1 (@messages_close_nothing ascii_engine pages cold_world
                  no_bindings upgrade_request upgrade_response containerWs
                  eq_refl eq_refl eq_refl eq_refl failing_world containerWs
                  (TextFrame mismatch_frame)
                  {| caller := Open; gateway := Open;
                     to_caller := []; to_gateway := [] |})).
Defined.

(** X9.  When the send of a rewritten error frame throws, the throw is swallowed
    with the parse errors: the listener then sends the frame as it came from the
    gateway, and only a failure of that second send is logged. *)
Theorem failed_rewrite_sends_the_original `{Builtins} (w : World)
    (request : Request) (data : frame) (parsed : jsval) (e : jsstring)
    (err : thrown) :
  error_frame data parsed e ->
  (forall parsed',
      js_set true parsed "error"
        (JStr (transformErrorMessage e (host request))) = Ok parsed' ->
      send_outcome w serverWs (TextFrame (JSON_stringify parsed')) = Some err) ->
  exists parsed',
    js_set true parsed "error"
      (JStr (transformErrorMessage e (host request))) = Ok parsed'
    /\ result (run w (on_container_message request data)) = inl tt
    /\ trace (run w (on_container_message request data))
       = ESend serverWs (TextFrame (JSON_stringify parsed'))
         :: ESend serverWs data
         :: match send_outcome w serverWs data with
            | Some e' =>
                [EConsole error [LStr (js "[WS] Error forwarding to client:");
                                 LThrown e']]
            | None => []
            end.
Proof.
  intros Hframe Hthrows.
  destruct Hframe as [text parsed e Hinc Hparse Hget He].
  destruct (get_error_props parsed e Hget) as (parsed' & Hset & _).
  exists (parsed' (JStr (transformErrorMessage e (host request)))).
  specialize (Hthrows (parsed' (JStr (transformErrorMessage e (host request))))).
  rewrite Hset in Hthrows. specialize (Hthrows eq_refl).
  split; [now rewrite Hset|].
  unfold on_container_message. rewrite Hinc, Hparse, Hget, Hset.
  assert (Htruthy : truthy (JStr e) = true).
  { simpl. destruct e; [contradiction|reflexivity]. }
  rewrite Htruthy. simpl run. rewrite Hthrows. simpl run.
  destruct (send_outcome w serverWs (TextFrame text)); split; reflexivity.
Qed.

Lemma failed_rewrite_witness :
  exists parsed',
    trace (run failing_world
             (@on_container_message ascii_engine upgrade_request
                (TextFrame mismatch_frame)))
    = [ESend serverWs (TextFrame (@JSON_stringify ascii_engine parsed'));
       ESend serverWs (TextFrame mismatch_frame);
       EConsole error [LStr (js "[WS] Error forwarding to client:");
                       LThrown (ErrorObject (js "WebSocket is closed"))]].
Proof.
  destruct (@failed_rewrite_sends_the_original ascii_engine failing_world
              upgrade_request (TextFrame mismatch_frame)
              (JObj [(js "error", JStr (js "gateway token mismatch"))])
              (js "gateway token mismatch")
              (ErrorObject (js "WebSocket is closed")))
    as (parsed' & _ & _ & Htrace).
  - constructor; [reflexivity|reflexivity|reflexivity|discriminate].
  - reflexivity.
  - exists parsed'. exact Htrace.
Defined.

(** *** Who is served the loading page *)

(** X6.  The loading page is the answer exactly when the gateway is not ready,
    the request is no WebSocket upgrade and its [Accept] header includes
    [text/html]. A WebSocket upgrade, a request that does not accept HTML, and
    any request while the gateway is ready are not given the page: for them the
    handler awaits the start of the gateway itself and hands nothing to
    [waitUntil]. *)
Theorem loading_page_only_for_browsers `{Builtins} `{Assets} (w : World)
    (env : MoltbotEnv) (request : Request) :
  let o := run w (proxy env request) in
  let browser := negb (isGatewayReady (the_process w))
                 && negb (isWebSocketRequest request)
                 && acceptsHtml request in
  (result o = inl (Html loadingPageHtml None) <-> browser = true)
  /\ (browser = false ->
      In EEnsureGateway (trace o)
      /\ forall promise, ~ In (EWaitUntil promise) (trace o)).
Proof.
  cbv zeta. unfold proxy. simpl run.
  destruct (negb (isGatewayReady (the_process w))
            && negb (isWebSocketRequest request) && acceptsHtml request).
  - split; [now split|discriminate].
  - simpl run.
    assert (Hno : forall (t : list event) promise,
              (forall e, In e t -> match e with EWaitUntil _ => False | _ => True end) ->
              ~ In (EWaitUntil promise) t).
    { intros t promise Ht Hin. exact (Ht _ Hin). }
    destruct (ensure_outcome w) as [err|].
    + destruct (acceptsHtml request); simpl run; cbn [trace result did];
        (split; [split; discriminate|]); intros _;
        (split; [simpl; tauto|]); intros promise; apply Hno;
        intros e He; simpl in He;
        repeat destruct He as [<-|He]; try exact I; contradiction.
    + destruct (isWebSocketRequest request); simpl run;
        destruct (fetch_outcome w request MOLTBOT_PORT) as [r|e];
        try destruct (webSocket r);
        simpl run; cbn [trace result did listening];
        (split; [split; discriminate|]); intros _;
        (split; [simpl; tauto|]); intros promise; apply Hno;
        intros e' He; simpl in He;
        repeat destruct He as [<-|He]; try exact I; contradiction.
Qed.

Lemma loading_page_only_witness :
  In EEnsureGateway
    (trace (run cold_world
              (@proxy ascii_engine pages no_bindings upgrade_request))).
Proof.
  pose proof (@loading_page_only_for_browsers ascii_engine pages cold_world
                no_bindings upgrade_request) as Hthm.
  cbv zeta in Hthm. destruct Hthm as (_ & Hother).
  exact (proj1 (Hother eq_refl)).
Defined.

(** *** The page that names what is missing *)

Lemma GetSubstitution_plain (matched before after template : jsstring) :
  ~ In 36%N template ->
  GetSubstitution matched before after template = template.
Proof.
  induction template as [|c t IH]; intros Hplain; [reflexivity|].
  assert (Hc : c <> 36%N) by (intros ->; apply Hplain; now left).
  assert (Ht : ~ In 36%N t) by (intros Hin; apply Hplain; now right).
  specialize (IH Ht).
  destruct c as [|p]; [cbn [GetSubstitution]; now rewrite IH|].
  do 6 (destruct p as [p|p|]; try (cbn [GetSubstitution]; now rewrite IH)).
Qed.

Lemma replace_plain (s pattern text before after : jsstring) :
  ~ In 36%N text ->
  split_first s pattern = Some (before, after) ->
  replace s pattern text = before ++ text ++ after.
Proof.
  intros Hplain Hsplit. unfold replace. rewrite Hsplit.
  now rewrite GetSubstitution_plain.
Qed.

Lemma join_plain (sep : jsstring) (parts : list jsstring) :
  ~ In 36%N sep -> Forall (fun x => ~ In 36%N x) parts ->
  ~ In 36%N (join sep parts).
Proof.
  intros Hsep Hparts. induction Hparts as [|x parts Hx Hparts IH];
    [intros []|].
  destruct parts as [|y parts]; [exact Hx|].
  change (join sep (x :: y :: parts)) with (x ++ sep ++ join sep (y :: parts)).
  rewrite !in_app_iff. tauto.
Qed.

Lemma push_if_plain (c : bool) (x : jsstring) (l : list jsstring) :
  ~ In 36%N x -> Forall (fun x => ~ In 36%N x) l ->
  Forall (fun x => ~ In 36%N x) (push_if c x l).
Proof.
  intros Hx Hl. unfold push_if. destruct c; [|exact Hl].
  apply Forall_app. split; [exact Hl|]. now constructor.
Qed.

Lemma plain_literal (s : jsstring) :
  forallb (fun c => negb (N.eqb c 36)) s = true -> ~ In 36%N s.
Proof.
  intros Hall Hin. rewrite forallb_forall in Hall.
  specialize (Hall _ Hin). discriminate.
Qed.

(** X10.  The HTML answer of the configuration check is the page of
    [config-error.html] with its first [{{MISSING_VARS}}] replaced by the names
    of the settings that are missing, separated by commas, as they are: no name
    holds a dollar sign, so [replace] expands nothing in them. *)
Theorem missing_names_are_shown `{Assets} (w : World) (env : MoltbotEnv)
    (request : Request) (before after : jsstring) :
  startsWith (pathname request) (js "/debug") = false ->
  DEV_MODE env <> Some (js "true") ->
  validateRequiredEnv env <> [] ->
  acceptsHtml request = true ->
  split_first configErrorHtml (js "{{MISSING_VARS}}") = Some (before, after) ->
  result (run w (validation_middleware env request))
  = inl (Respond (Html (before ++ join (js ", ") (validateRequiredEnv env)
                          ++ after) (Some 503%Z))).
Proof.
  intros Hpath Hdev Hmissing Hhtml Hsplit.
  unfold validation_middleware. rewrite Hpath.
  assert (Hlit : is_lit (DEV_MODE env) "true" = false).
  { destruct (is_lit (DEV_MODE env) "true") eqn:E; [|reflexivity].
    apply is_lit_true in E. contradiction. }
  rewrite Hlit. cbv zeta.
  assert (Hplain : ~ In 36%N (join (js ", ") (validateRequiredEnv env))).
  { apply join_plain; [now apply plain_literal|].
    unfold validateRequiredEnv. cbv zeta.
    repeat (apply push_if_plain; [now apply plain_literal|]).
    constructor. }
  assert (Hsome : (0 <? length (validateRequiredEnv env))%nat = true)
    by now destruct (validateRequiredEnv env).
  rewrite Hsome.
  set (missing := validateRequiredEnv env) in *. clearbody missing.
  cbn [run]. rewrite Hhtml. cbn [run result did].
  now rewrite (replace_plain _ _ _ before after Hplain Hsplit).
Qed.

Lemma missing_names_witness :
  result (run cold_world
            (@validation_middleware pages no_bindings browser_request))
  = inl (Respond (Html
      (js "<html><body>Missing: "
       ++ join (js ", ") (validateRequiredEnv no_bindings)
       ++ js "</body></html>") (Some 503%Z))).
Proof.
  apply (@missing_names_are_shown pages cold_world no_bindings browser_request);
    [reflexivity|discriminate|discriminate|reflexivity|reflexivity].
Defined.

End ProxyFacts.

(** ** The variables of the container, and what the script makes of them *)

Module VariablesFacts.
Import JS Worker Startup Samples JSFacts EnvFacts.

Lemma put_if_set cond key value (m : gmap string jsstring) :
  (forall k v, m !! k = Some v -> v <> []) ->
  (cond = true -> is_set value = true) ->
  forall k v, put_if cond key value m !! k = Some v -> v <> [].
Proof.
  intros Hm Hcond k v. unfold put_if.
  destruct value as [x|]; [|apply Hm].
  destruct cond; [|apply Hm].
  destruct (decide (key = k)) as [->|Hne].
  - rewrite lookup_insert_eq. intros [= <-].
    specialize (Hcond eq_refl). now destruct x.
  - rewrite lookup_insert_ne by exact Hne. apply Hm.
Qed.

Lemma put_if_key cond key value (m : gmap string jsstring)
    (allowed : list string) :
  In key allowed ->
  (forall k, m !! k <> None -> In k allowed) ->
  forall k, put_if cond key value m !! k <> None -> In k allowed.
Proof.
  intros Hkey Hm k. unfold put_if.
  destruct value as [x|]; [|apply Hm].
  destruct cond; [|apply Hm].
  destruct (decide (key = k)) as [->|Hne]; [now intros _|].
  rewrite lookup_insert_ne by exact Hne. apply Hm.
Qed.

(** X11.  Every variable [buildEnvVars] gives the container has a value that is
    not the empty string: a binding that is unset or empty is left out, and so
    is a gateway URL that is nothing but slashes. *)
Theorem buildEnvVars_values_are_set (env : MoltbotEnv) (k : string)
    (v : jsstring) :
  buildEnvVars env !! k = Some v -> v <> [].
Proof.
  revert k v. unfold buildEnvVars, has. cbv zeta.
  repeat (apply put_if_set;
          [|intros Hc; first [exact Hc
                             | apply andb_prop in Hc; destruct Hc; assumption]]).
  destruct (is_set (strip_trailing_slashes <$> AI_GATEWAY_BASE_URL env)) eqn:Hbase;
    [destruct (match strip_trailing_slashes <$> AI_GATEWAY_BASE_URL env with
               | Some u => _
               | None => false
               end)|];
    repeat (apply put_if_set;
            [|intros Hc; first [exact Hc | exact Hbase]]);
    intros k v; rewrite lookup_empty; discriminate.
Qed.

(** X12.  [buildEnvVars] writes under its own names only. The bindings that are
    for the Worker never reach the container under their names: not the settings
    of Cloudflare Access, not the keys of R2, not [DEBUG_ROUTES] or
    [SANDBOX_SLEEP_AFTER]; and the gateway token, the gateway id and the dev
    mode go under other names. *)
Theorem buildEnvVars_names (env : MoltbotEnv) :
  (forall k, buildEnvVars env !! k <> None -> In k container_variables)
  /\ Forall (fun k => buildEnvVars env !! k = None) worker_only.
Proof.
  assert (Hnames : forall k, buildEnvVars env !! k <> None
                             -> In k container_variables).
  { unfold buildEnvVars, has. cbv zeta.
    repeat (apply put_if_key; [simpl; tauto|]).
    destruct (is_set (strip_trailing_slashes <$> AI_GATEWAY_BASE_URL env));
      [destruct (match strip_trailing_slashes <$> AI_GATEWAY_BASE_URL env with
                 | Some u => _
                 | None => false
                 end)|];
      repeat (apply put_if_key; [simpl; tauto|]);
      intros k; rewrite lookup_empty; contradiction. }
  split; [exact Hnames|].
  unfold worker_only. repeat constructor;
    match goal with
    | |- ?m !! ?k = None =>
        destruct (m !! k) eqn:E; [exfalso|reflexivity];
        assert (Hin : In k container_variables)
          by (apply Hnames; rewrite E; discriminate);
        simpl in Hin; repeat destruct Hin as [Hin|Hin]; try discriminate;
        contradiction
    end.
Qed.

Lemma values_are_set_witness : js "gateway-key" <> [].
Proof.
  apply (buildEnvVars_values_are_set
           (legacy_env "https://gw.example/v1/a/g/openai//") "OPENAI_API_KEY").
  vm_compute. reflexivity.
Defined.

(** *** The legacy URL *)

Lemma drop_slashes_spec (l : jsstring) :
  exists n, l = repeat 47%N n ++ drop_slashes l
            /\ startsWith (drop_slashes l) [47%N] = false.
Proof.
  induction l as [|c l (n & Hl & Hhead)].
  - now exists 0%nat.
  - destruct (N.eqb c 47) eqn:Hc.
    + apply N.eqb_eq in Hc. subst c. exists (S n). simpl. split; [|exact Hhead].
      now rewrite <- Hl.
    + exists 0%nat.
      assert (Hdrop : drop_slashes (c :: l) = c :: l).
      { simpl. destruct c as [|p]; [reflexivity|].
        do 6 (destruct p as [p|p|]; try reflexivity).
        discriminate. }
      rewrite Hdrop. split; [reflexivity|]. simpl. now rewrite Hc.
Qed.

Lemma strip_trailing_slashes_spec (s : jsstring) :
  endsWith (strip_trailing_slashes s) (js "/") = false
  /\ exists n, s = strip_trailing_slashes s ++ repeat 47%N n.
Proof.
  unfold strip_trailing_slashes, endsWith.
  destruct (drop_slashes_spec (rev s)) as (n & Hs & Hhead).
  set (d := drop_slashes (rev s)) in *. clearbody d.
  split.
  - rewrite rev_involutive. exact Hhead.
  - exists n. apply (f_equal (@rev N)) in Hs.
    rewrite rev_involutive, rev_app_distr in Hs. rewrite Hs. f_equal.
    clear. induction n as [|n IH]; [reflexivity|].
    simpl. rewrite IH. symmetry. apply repeat_cons.
Qed.

Lemma lookup_if (b : bool) (m1 m2 : gmap string jsstring) (key : string) :
  (if b then m1 else m2) !! key = if b then m1 !! key else m2 !! key.
Proof. now destruct b. Qed.

Ltac lookups := repeat first [progress lookup_puts | rewrite lookup_if].

(** X13.  The legacy gateway URL goes out without the slashes at its end, never
    empty and never ending in a slash, under [AI_GATEWAY_BASE_URL] and under one
    more name: [OPENAI_BASE_URL] when it then ends in [/openai] or [/compat],
    and [ANTHROPIC_BASE_URL] otherwise, where it takes the place of the binding
    [ANTHROPIC_BASE_URL]. [OPENAI_BASE_URL] has no other origin. *)
Theorem legacy_url_is_normalised (env : MoltbotEnv) :
  let out := buildEnvVars env in
  (forall u : jsstring,
      out !! "AI_GATEWAY_BASE_URL"%string = Some u ->
      u <> [] /\ endsWith u (js "/") = false
      /\ (exists n, AI_GATEWAY_BASE_URL env = Some (u ++ repeat 47%N n))
      /\ (if endsWith u (js "/openai") || endsWith u (js "/compat")
          then out !! "OPENAI_BASE_URL"%string = Some u
          else out !! "OPENAI_BASE_URL"%string = None
               /\ out !! "ANTHROPIC_BASE_URL"%string = Some u))
  /\ (out !! "AI_GATEWAY_BASE_URL"%string = None ->
      out !! "OPENAI_BASE_URL"%string = None)
  /\ (forall raw : jsstring,
        AI_GATEWAY_BASE_URL env = Some raw ->
        strip_trailing_slashes raw <> [] ->
        out !! "AI_GATEWAY_BASE_URL"%string = Some (strip_trailing_slashes raw)).
Proof.
  cbv zeta.
  assert (Hurl : buildEnvVars env !! "AI_GATEWAY_BASE_URL"%string
                 = if is_set (strip_trailing_slashes <$> AI_GATEWAY_BASE_URL env)
                   then strip_trailing_slashes <$> AI_GATEWAY_BASE_URL env
                   else None).
  { unfold buildEnvVars, has. cbv zeta. lookups.
    destruct (AI_GATEWAY_BASE_URL env) as [raw|]; simpl; [|reflexivity].
    destruct (strip_trailing_slashes raw); simpl; [reflexivity|].
    now destruct (_ || _). }
  assert (Hopenai : buildEnvVars env !! "OPENAI_BASE_URL"%string
                    = match strip_trailing_slashes <$> AI_GATEWAY_BASE_URL env with
                      | Some u =>
                          if is_set (Some u)
                             && (endsWith u (js "/openai") || endsWith u (js "/compat"))
                          then Some u else None
                      | None => None
                      end).
  { unfold buildEnvVars, has. cbv zeta. lookups.
    destruct (AI_GATEWAY_BASE_URL env) as [raw|]; simpl; [|reflexivity].
    destruct (strip_trailing_slashes raw); simpl; [reflexivity|].
    now destruct (_ || _). }
  assert (Hanthropic :
            forall u : jsstring, strip_trailing_slashes <$> AI_GATEWAY_BASE_URL env = Some u ->
                      u <> [] ->
                      endsWith u (js "/openai") || endsWith u (js "/compat") = false ->
                      buildEnvVars env !! "ANTHROPIC_BASE_URL"%string = Some u).
  { intros u Hu Hne Hkind. unfold buildEnvVars, has. cbv zeta. lookups.
    rewrite Hu. destruct u as [|c u]; [contradiction|].
    simpl is_set. cbv iota. rewrite Hkind. cbv iota. lookups.
    simpl. rewrite andb_false_r. reflexivity. }
  split; [|split].
  - intros u Hu. rewrite Hurl in Hu. rewrite Hopenai. clear Hurl Hopenai.
    destruct (AI_GATEWAY_BASE_URL env) as [raw|] eqn:Hraw;
      cbn [fmap option_fmap option_map is_set] in *; [|discriminate].
    destruct (strip_trailing_slashes raw) as [|c t] eqn:Hstrip;
      cbn [is_set] in Hu; [discriminate|].
    injection Hu as <-.
    destruct (strip_trailing_slashes_spec raw) as (Hend & n & Hn).
    rewrite Hstrip in Hend, Hn.
    split; [discriminate|]. split; [exact Hend|].
    split; [exists n; now rewrite <- Hn|].
    cbv iota. cbn [andb].
    destruct (endsWith (c :: t) (js "/openai") || endsWith (c :: t) (js "/compat"))
      eqn:Hkind; [reflexivity|].
    split; [reflexivity|].
    apply Hanthropic; [reflexivity|discriminate|exact Hkind].
  - rewrite Hurl, Hopenai.
    destruct (strip_trailing_slashes <$> AI_GATEWAY_BASE_URL env) as [[|c t]|];
      simpl; [reflexivity|discriminate|reflexivity].
  - intros raw Hraw Hne. rewrite Hurl, Hraw. simpl.
    now destruct (strip_trailing_slashes raw).
Qed.

Lemma legacy_url_witness :
  buildEnvVars (legacy_env "https://gw.example/v1/a/g/openai//")
    !! "OPENAI_BASE_URL"%string
  = Some (js "https://gw.example/v1/a/g/openai").
Proof.
  pose proof (legacy_url_is_normalised
                (legacy_env "https://gw.example/v1/a/g/openai//")) as Hthm.
  cbv zeta in Hthm. destruct Hthm as (Hthm & _).
  destruct (Hthm (js "https://gw.example/v1/a/g/openai"))
    as (_ & _ & _ & Hkind).
  - vm_compute. reflexivity.
  - exact Hkind.
Defined.

(** *** From the bindings of the Worker to the choices of the script *)

Lemma buildEnvVars_account (env : MoltbotEnv) :
  buildEnvVars env !! "CLOUDFLARE_AI_GATEWAY_ACCOUNT_ID"%string
  = (if is_set (CF_ACCOUNT_ID env) then CF_ACCOUNT_ID env else None)
  /\ buildEnvVars env !! "CF_ACCOUNT_ID"%string
     = (if is_set (CF_ACCOUNT_ID env) then CF_ACCOUNT_ID env else None).
Proof.
  unfold buildEnvVars, has. cbv zeta. split; lookups;
    destruct (CF_ACCOUNT_ID env) as [[|c t]|]; cbn [is_set];
    repeat match goal with
      | |- context [if ?b then _ else _] => destruct b
      end; reflexivity.
Qed.

Lemma buildEnvVars_key (env : MoltbotEnv) :
  buildEnvVars env !! "CLOUDFLARE_AI_GATEWAY_API_KEY"%string
  = (if is_set (AI_GATEWAY_API_KEY env) then AI_GATEWAY_API_KEY env else None)
  /\ buildEnvVars env !! "AI_GATEWAY_API_KEY"%string
     = (if is_set (AI_GATEWAY_API_KEY env) then AI_GATEWAY_API_KEY env else None).
Proof.
  unfold buildEnvVars, has. cbv zeta. split; lookups;
    destruct (AI_GATEWAY_API_KEY env) as [[|c t]|]; cbn [is_set];
    repeat match goal with
      | |- context [if ?b then _ else _] => destruct b
      end; reflexivity.
Qed.

Lemma buildEnvVars_anthropic (env : MoltbotEnv) :
  is_set (buildEnvVars env !! "ANTHROPIC_API_KEY"%string)
  = is_set (ANTHROPIC_API_KEY env)
    || (is_set (strip_trailing_slashes <$> AI_GATEWAY_BASE_URL env)
        && negb match strip_trailing_slashes <$> AI_GATEWAY_BASE_URL env with
                | Some u => endsWith u (js "/openai") || endsWith u (js "/compat")
                | None => false
                end
        && is_set (AI_GATEWAY_API_KEY env)).
Proof.
  unfold buildEnvVars, has. cbv zeta. lookups.
  destruct (is_set (strip_trailing_slashes <$> AI_GATEWAY_BASE_URL env));
    [destruct (match strip_trailing_slashes <$> AI_GATEWAY_BASE_URL env with
               | Some u => _
               | None => false
               end)|];
    lookups;
    destruct (AI_GATEWAY_API_KEY env) as [[|c t]|],
             (ANTHROPIC_API_KEY env) as [[|c' t']|]; reflexivity.
Qed.

(** X14.  Which provider the script chooses from the variables [buildEnvVars]
    gives it: the native gateway exactly when [CF_ACCOUNT_ID] and
    [AI_GATEWAY_API_KEY] are both set; otherwise the direct Anthropic provider
    when [ANTHROPIC_API_KEY] is set or when the legacy URL, not of the OpenAI
    kind, has put the key of the gateway there; otherwise the built-in default.
    [AI_GATEWAY_ID] has no part in the choice. *)
Theorem provider_from_the_bindings (env : MoltbotEnv) :
  let base := strip_trailing_slashes <$> AI_GATEWAY_BASE_URL env in
  let openai := match base with
                | Some u => endsWith u (js "/openai") || endsWith u (js "/compat")
                | None => false
                end in
  select_provider (buildEnvVars env)
  = if is_set (CF_ACCOUNT_ID env) && is_set (AI_GATEWAY_API_KEY env)
    then NativeGateway (default [] (CF_ACCOUNT_ID env))
           (default [] (AI_GATEWAY_API_KEY env))
    else if is_set (ANTHROPIC_API_KEY env)
            || (is_set base && negb openai && is_set (AI_GATEWAY_API_KEY env))
         then DirectAnthropic
         else BuiltinDefault.
Proof.
  cbv zeta. unfold select_provider.
  destruct (buildEnvVars_account env) as (-> & ->).
  destruct (buildEnvVars_key env) as (-> & ->).
  rewrite buildEnvVars_anthropic.
  destruct (CF_ACCOUNT_ID env) as [[|c t]|],
           (AI_GATEWAY_API_KEY env) as [[|c' t']|]; reflexivity.
Qed.

(** X15.  The check of the Worker and the choice of the script part ways: with
    [CF_ACCOUNT_ID] and [AI_GATEWAY_ID] set and no API key, the Worker does not
    report the provider configuration as missing, and the script, run with the
    variables the Worker gives, falls to the built-in default. *)
Theorem gateway_id_without_key (env : MoltbotEnv) :
  is_set (CF_ACCOUNT_ID env) = true ->
  is_set (AI_GATEWAY_ID env) = true ->
  is_set (AI_GATEWAY_API_KEY env) = false ->
  is_set (ANTHROPIC_API_KEY env) = false ->
  ~ In provider_hint (validateRequiredEnv env)
  /\ select_provider (buildEnvVars env) = BuiltinDefault.
Proof.
  intros Haccount Hid Hkey Hdirect. split.
  - unfold validateRequiredEnv, push_if. cbv zeta.
    rewrite Haccount, Hid, Hkey, Hdirect. cbn [andb orb negb].
    assert (Htoken : js "MOLTBOT_GATEWAY_TOKEN" <> provider_hint)
      by (vm_compute; discriminate).
    assert (Hdomain : js "CF_ACCESS_TEAM_DOMAIN" <> provider_hint)
      by (vm_compute; discriminate).
    assert (Haud : js "CF_ACCESS_AUD" <> provider_hint)
      by (vm_compute; discriminate).
    destruct (is_set (MOLTBOT_GATEWAY_TOKEN env)),
             (is_set (CF_ACCESS_TEAM_DOMAIN env)),
             (is_set (CF_ACCESS_AUD env)); cbn [negb app In]; tauto.
  - unfold select_provider.
    destruct (buildEnvVars_account env) as (-> & ->).
    destruct (buildEnvVars_key env) as (-> & ->).
    rewrite buildEnvVars_anthropic, Haccount, Hkey, Hdirect.
    rewrite !andb_false_r. cbn [orb].
    destruct (CF_ACCOUNT_ID env) as [[|c t]|],
             (AI_GATEWAY_API_KEY env) as [[|c' t']|];
      try discriminate; reflexivity.
Qed.

Lemma gateway_id_without_key_witness :
  validateRequiredEnv keyless_env = []
  /\ select_provider (buildEnvVars keyless_env) = BuiltinDefault.
Proof.
  split; [reflexivity|].
  exact (proj2 (gateway_id_without_key keyless_env
                  eq_refl eq_refl eq_refl eq_refl)).
Defined.

(** X16.  The gateway token of the Worker reaches the launch of the gateway: the
    script, run with the variables [buildEnvVars] gives, starts [clawdbot
    gateway] with [--token] and the value of [MOLTBOT_GATEWAY_TOKEN] when that
    is set, and without [--token] when it is not. The gateway is bound to [lan]
    in both cases: [CLAWDBOT_BIND_MODE] is handed to the container and the
    script does not read it. *)
Theorem token_reaches_the_launch (env : MoltbotEnv) :
  gateway_command (buildEnvVars env)
  = [js "clawdbot"; js "gateway"; js "--port"; js "18789"; js "--verbose";
     js "--allow-unconfigured"; js "--bind"; js "lan"]
    ++ match MOLTBOT_GATEWAY_TOKEN env with
       | Some (c :: t) => [js "--token"; c :: t]
       | _ => []
       end.
Proof.
  unfold gateway_command. cbv zeta.
  assert (Htoken : buildEnvVars env !! "CLAWDBOT_GATEWAY_TOKEN"%string
                   = if is_set (MOLTBOT_GATEWAY_TOKEN env)
                     then MOLTBOT_GATEWAY_TOKEN env else None).
  { unfold buildEnvVars, has. cbv zeta. lookups.
    destruct (MOLTBOT_GATEWAY_TOKEN env) as [[|c t]|]; cbn [is_set];
      repeat match goal with
        | |- context [if ?b then _ else _] => destruct b
        end; reflexivity. }
  change (default [] (buildEnvVars env !! "CLAWDBOT_GATEWAY_TOKEN"%string))
    with (default ([] : jsstring)
            (buildEnvVars env !! "CLAWDBOT_GATEWAY_TOKEN"%string)).
  rewrite !Htoken.
  destruct (MOLTBOT_GATEWAY_TOKEN env) as [[|c t]|]; cbn [is_set];
    try rewrite app_nil_r; reflexivity.
Qed.

End VariablesFacts.

(** ** The local files across a start *)

Module LocalFilesFacts.
Import Startup Samples RestoreFacts.
Local Open Scope string_scope.

(** X17.  A marker that is no integer decides nothing: when the backup and the
    local directory both have their configuration and their [.last-sync], and
    what one of the two markers holds is not an integer for [test] (an empty
    file, a date such as [2026-01-01T00:00:00Z]), the comparison fails quietly
    and the local files stay as they are. *)
Theorem unreadable_marker_keeps_local (d : disk) (r2 loc : string) :
  is_file (find "clawdbot.json" (config d)) = true ->
  at_backup d [".last-sync"] = Some (File r2) ->
  find ".last-sync" (config d) = Some (File loc) ->
  legal_number (command_substitution r2) = None
  \/ legal_number (command_substitution loc) = None ->
  should_restore_from_r2 d = false /\ restore d = Some d.
Proof.
  intros Hlocal Hr2 Hloc Hbad.
  assert (Hno : should_restore_from_r2 d = false).
  { unfold should_restore_from_r2. cbv zeta.
    destruct (is_file (at_backup d ["clawdbot"; "clawdbot.json"]));
      [|reflexivity].
    rewrite Hlocal, Hr2, Hloc. cbn [negb]. unfold test_gt.
    destruct Hbad as [-> | Hbad]; [reflexivity|].
    rewrite Hbad. now destruct (legal_number (command_substitution r2)). }
  split; [exact Hno|]. unfold restore. now rewrite Hno.
Qed.

Lemma unreadable_marker_witness :
  should_restore_from_r2
    (stamped_disk "2026-02-01T00:00:00+00:00" "2026-01-01T00:00:00+00:00")
  = false.
Proof.
  exact (proj1 (unreadable_marker_keeps_local
                  (stamped_disk "2026-02-01T00:00:00+00:00"
                     "2026-01-01T00:00:00+00:00")
                  "2026-02-01T00:00:00+00:00" "2026-01-01T00:00:00+00:00"
                  eq_refl eq_refl eq_refl (or_introl eq_refl))).
Defined.

(** *** What a restore leaves in place *)

Lemma find_cp_r_some source name n dest :
  find n dest <> None -> find n (cp_r source name dest) <> None.
Proof.
  destruct (String.eqb_spec n name) as [->|Hne];
    [|now rewrite find_cp_r_ne].
  intros Hthere.
  destruct source as [content|entries]; cbn [cp_r];
    destruct (find name dest) as [[c|below]|] eqn:Hfind;
    try (now rewrite Hfind); try contradiction;
    now rewrite find_put_eq.
Qed.

Lemma is_file_cp_r source name n dest :
  is_file (find n dest) = true ->
  is_file (find n (cp_r source name dest)) = true.
Proof.
  destruct (String.eqb_spec n name) as [->|Hne];
    [|now rewrite find_cp_r_ne].
  destruct source as [content|entries]; cbn [cp_r];
    destruct (find name dest) as [[c|below]|] eqn:Hfind; try discriminate;
    intros _; rewrite ?Hfind, ?find_put_eq; reflexivity.
Qed.

Lemma find_copies_some (l : list (string * node)) n dest :
  find n dest <> None ->
  find n (fold_left (fun acc e => cp_r (snd e) (fst e) acc) l dest) <> None.
Proof.
  revert dest. induction l as [|[name x] l IH]; intros dest Hthere;
    [exact Hthere|].
  cbn [fold_left fst snd]. apply IH. now apply find_cp_r_some.
Qed.

Lemma is_file_copies (l : list (string * node)) n dest :
  is_file (find n dest) = true ->
  is_file (find n (fold_left (fun acc e => cp_r (snd e) (fst e) acc) l dest))
  = true.
Proof.
  revert dest. induction l as [|[name x] l IH]; intros dest Hfile;
    [exact Hfile|].
  cbn [fold_left fst snd]. apply IH. now apply is_file_cp_r.
Qed.

(** The first entry of a name decides: a file among the sources, over what
    is no directory, is a file afterwards. *)
Lemma is_file_copies_first (l : list (string * node)) name content dest :
  find name l = Some (File content) ->
  is_dir (find name dest) = false ->
  is_file (find name (fold_left (fun acc e => cp_r (snd e) (fst e) acc) l dest))
  = true.
Proof.
  revert dest. induction l as [|[n x] l IH]; intros dest Hfind Hdest;
    [discriminate|].
  cbn [fold_left fst snd]. cbn [find] in Hfind.
  destruct (String.eqb_spec name n) as [->|Hne].
  - injection Hfind as ->. apply is_file_copies.
    now rewrite find_cp_r_file.
  - apply IH; [exact Hfind|]. now rewrite is_dir_cp_r.
Qed.

(** X18.  A restore adds and replaces, and takes nothing away. It leaves the
    backup as it is; every name of the local directory is still there
    afterwards; and the local entries whose names start with a dot, the marker
    [.last-sync] among them, are what they were, since [*] does not match such
    names in the backup. *)
Theorem restore_takes_nothing_away (d d' : disk) :
  restore d = Some d' ->
  backup d' = backup d
  /\ (forall name, find name (config d) <> None -> find name (config d') <> None)
  /\ (forall name, hidden name = true ->
                   find name (config d') = find name (config d)).
Proof.
  unfold restore. destruct (should_restore_from_r2 d);
    [|intros [= <-]; now repeat split].
  assert (Hconfig :
    backup (restore_config d) = backup d
    /\ (forall name, find name (config d) <> None
                     -> find name (config (restore_config d)) <> None)
    /\ (forall name, hidden name = true ->
                     find name (config (restore_config d)) = find name (config d))).
  { unfold restore_config.
    destruct (at_backup d ["clawdbot"]) as [[c|entries]|];
      try (now repeat split).
    cbn [backup config]. split; [reflexivity|]. split.
    - intros name. apply find_copies_some.
    - intros name. apply find_cp_r_star_hidden. }
  destruct Hconfig as (Hbackup & Hnames & Hhidden).
  set (d1 := restore_config d) in *. clearbody d1.
  unfold restore_skills.
  assert (Hskills : forall name, hidden name = true -> name <> "skills").
  { intros name Hname ->. discriminate. }
  destruct (at_backup d1 ["skills"]) as [[c|entries]|];
    try (intros [= <-]; now repeat split).
  destruct (nonempty (command_substitution (ls_A entries)));
    [|intros [= <-]; now repeat split].
  destruct (find "skills" (config d1)) as [[c|local]|] eqn:Hlocal;
    [discriminate| |]; intros [= <-]; cbn [backup config];
    (split; [exact Hbackup|]); split.
  - intros name Hthere.
    destruct (String.eqb_spec name "skills") as [->|Hne];
      [now rewrite find_put_eq|].
    rewrite find_put_ne by exact Hne. now apply Hnames.
  - intros name Hname. rewrite find_put_ne by now apply Hskills.
    now apply Hhidden.
  - intros name Hthere.
    destruct (String.eqb_spec name "skills") as [->|Hne];
      [now rewrite find_put_eq|].
    rewrite find_put_ne by exact Hne. now apply Hnames.
  - intros name Hname. rewrite find_put_ne by now apply Hskills.
    now apply Hhidden.
Qed.

Lemma restore_takes_nothing_away_witness :
  exists d',
    restore (stamped_disk "200" "100") = Some d'
    /\ find ".last-sync" (config d') = Some (File "100").
Proof.
  destruct (restore (stamped_disk "200" "100")) as [d'|] eqn:Hrestore;
    [|discriminate].
  exists d'. split; [reflexivity|].
  destruct (restore_takes_nothing_away _ d' Hrestore) as (_ & _ & Hhidden).
  exact (Hhidden ".last-sync" eq_refl).
Defined.

Lemma restore_config_keeps_file (d : disk) :
  should_restore_from_r2 d = true ->
  is_dir (find "clawdbot.json" (config d)) = false ->
  is_file (find "clawdbot.json" (config (restore_config d))) = true.
Proof.
  intros Hdecided Hlocal.
  destruct (should_restore_backup d Hdecided) as (entries & content & Hdir & Hfile).
  unfold restore_config. rewrite Hdir. cbn [config]. unfold cp_r_star.
  apply (is_file_copies_first _ _ content); [|exact Hlocal].
  now rewrite find_glob_star.
Qed.

Lemma restore_keeps_file (d d' : disk) :
  should_restore_from_r2 d = true ->
  is_dir (find "clawdbot.json" (config d)) = false ->
  restore d = Some d' ->
  is_file (find "clawdbot.json" (config d')) = true.
Proof.
  intros Hdecided Hlocal. unfold restore. rewrite Hdecided.
  pose proof (restore_config_keeps_file d Hdecided Hlocal) as Hfile.
  set (d1 := restore_config d) in *. clearbody d1.
  unfold restore_skills.
  destruct (at_backup d1 ["skills"]) as [[c|entries]|];
    try (now intros [= <-]).
  destruct (nonempty (command_substitution (ls_A entries)));
    [|now intros [= <-]].
  destruct (find "skills" (config d1)) as [[c|local]|];
    [discriminate| |]; intros [= <-]; cbn [config];
    now rewrite find_put_ne by discriminate.
Qed.

(** X19.  A restore does not move the local marker. When the markers decided it
    (the local configuration was there), the next run of the script finds the
    same backup, a local configuration and the same two markers, and decides to
    restore again. *)
Theorem restore_is_decided_again (d d' : disk) :
  is_file (find "clawdbot.json" (config d)) = true ->
  should_restore_from_r2 d = true ->
  restore d = Some d' ->
  find ".last-sync" (config d') = find ".last-sync" (config d)
  /\ should_restore_from_r2 d' = true.
Proof.
  intros Hlocal Hdecided Hrestore.
  assert (Hfile : is_file (find "clawdbot.json" (config d')) = true).
  { apply (restore_keeps_file d d' Hdecided); [|exact Hrestore].
    now destruct (find "clawdbot.json" (config d)) as [[c|below]|]. }
  assert (Hbackup : backup d' = backup d /\
                    find ".last-sync" (config d') = find ".last-sync" (config d)).
  { revert Hrestore. unfold restore. rewrite Hdecided.
    unfold restore_config.
    destruct (should_restore_backup d Hdecided) as (entries & content & -> & _).
    set (d1 := {| backup := backup d; config := cp_r_star entries (config d) |}).
    assert (Hd1 : backup d1 = backup d /\
                  find ".last-sync" (config d1) = find ".last-sync" (config d)).
    { split; [reflexivity|]. now apply find_cp_r_star_hidden. }
    clearbody d1. destruct Hd1 as (Hb & Hm). unfold restore_skills.
    destruct (at_backup d1 ["skills"]) as [[c|skills]|];
      try (now intros [= <-]).
    destruct (nonempty (command_substitution (ls_A skills)));
      [|now intros [= <-]].
    destruct (find "skills" (config d1)) as [[c|local]|];
      [discriminate| |]; intros [= <-]; cbn [backup config];
      now rewrite find_put_ne by discriminate. }
  destruct Hbackup as (Hbackup & Hmarker). split; [exact Hmarker|].
  revert Hdecided. unfold should_restore_from_r2, at_backup. cbv zeta.
  rewrite Hbackup, Hmarker, Hlocal, Hfile. exact (fun H => H).
Qed.

Lemma restore_is_decided_again_witness :
  exists d',
    restore (stamped_disk "200" "100") = Some d'
    /\ should_restore_from_r2 d' = true.
Proof.
  destruct (restore (stamped_disk "200" "100")) as [d'|] eqn:Hrestore;
    [|discriminate].
  exists d'. split; [reflexivity|].
  exact (proj2 (restore_is_decided_again (stamped_disk "200" "100") d'
                  eq_refl eq_refl Hrestore)).
Defined.

(** X20.  The template is for a directory without a configuration. A
    configuration file that is there is left as it is, whatever the template
    holds; and after a restore that was decided, over a local directory in which
    [clawdbot.json] was no directory, the configuration file is there, so that
    the template is not used. Where there is no entry of that name, the file is
    made: from the template if that is a file, and holding [{}] and a newline
    otherwise. *)
Theorem template_fills_the_gap (template : option node) (d : disk) :
  (is_file (find "clawdbot.json" (config d)) = true ->
   ensure_config_file template d = Some d)
  /\ (forall d',
        should_restore_from_r2 d = true ->
        is_dir (find "clawdbot.json" (config d)) = false ->
        restore d = Some d' ->
        ensure_config_file template d' = Some d')
  /\ (find "clawdbot.json" (config d) = None ->
      exists d',
        ensure_config_file template d = Some d'
        /\ backup d' = backup d
        /\ find "clawdbot.json" (config d')
           = Some (File match template with
                        | Some (File content) => content
                        | _ => String "{" (String "}" (String (ascii_of_N 10) ""))
                        end)
        /\ forall name, name <> "clawdbot.json" ->
                        find name (config d') = find name (config d)).
Proof.
  assert (Hthere : forall d0, is_file (find "clawdbot.json" (config d0)) = true ->
                              ensure_config_file template d0 = Some d0).
  { intros d0. unfold ensure_config_file.
    now destruct (find "clawdbot.json" (config d0)) as [[c|below]|]. }
  split; [apply Hthere|]. split.
  - intros d' Hdecided Hlocal Hrestore. apply Hthere.
    exact (restore_keeps_file d d' Hdecided Hlocal Hrestore).
  - intros Hnone. unfold ensure_config_file. rewrite Hnone.
    destruct template as [[content|entries]|]; eexists;
      (split; [reflexivity|]); cbn [backup config];
      (split; [reflexivity|]); (split; [apply find_put_eq|]);
      intros name Hname; now apply find_put_ne.
Qed.

Lemma template_fills_the_gap_witness :
  exists d',
    restore fresh_disk = Some d'
    /\ ensure_config_file (Some (File "{template}")) d' = Some d'.
Proof.
  destruct (restore fresh_disk) as [d'|] eqn:Hrestore; [|discriminate].
  exists d'. split; [reflexivity|].
  destruct (template_fills_the_gap (Some (File "{template}")) fresh_disk)
    as (_ & Hrestored & _).
  exact (Hrestored d' eq_refl eq_refl Hrestore).
Defined.

(** X21.  A local file named [skills] stops the start: when the restore is
    decided and the backup has skills to copy, [mkdir -p] of the local [skills]
    fails on the file, [set -e] ends the script, and no gateway is launched. *)
Theorem skills_file_stops_the_start `{JS.Builtins} (d : disk)
    (skills : list (string * node)) :
  should_restore_from_r2 d = true ->
  is_file (find "skills" (config d)) = true ->
  at_backup d ["skills"] = Some (Dir skills) ->
  nonempty (command_substitution (ls_A skills)) = true ->
  restore d = None
  /\ forall processes env text,
       pgrep_gateway processes = false ->
       start_moltbot processes env d text = Exit 1.
Proof.
  intros Hdecided Hfile Hskills Hlisted.
  assert (Hrestore : restore d = None).
  { unfold restore. rewrite Hdecided. unfold restore_skills.
    rewrite at_backup_restore_config, Hskills, Hlisted.
    assert (Hstill : is_file (find "skills" (config (restore_config d))) = true).
    { unfold restore_config.
      destruct (at_backup d ["clawdbot"]) as [[c|entries]|];
        try exact Hfile.
      cbn [config]. unfold cp_r_star. now apply is_file_copies. }
    now destruct (find "skills" (config (restore_config d))) as [[c|below]|]. }
  split; [exact Hrestore|].
  intros processes env text Hnone. unfold start_moltbot.
  now rewrite Hnone, Hrestore.
Qed.

Lemma skills_file_witness : restore blocked_disk = None.
Proof.
  exact (proj1 (@skills_file_stops_the_start ascii_engine blocked_disk
                  [("hello.md", File "hi")]
                  eq_refl eq_refl eq_refl eq_refl)).
Defined.

End LocalFilesFacts.

(** ** The script on the configuration file *)

Module ScriptFacts.
Import JS Startup Samples JSFacts ConfigFacts.
Local Open Scope string_scope.
Local Open Scope list_scope.

Lemma configure_runs `{Builtins} (env : gmap string jsstring) (config : jsval) :
  nested_mapping config = true -> exists config', configure env config = Ok config'.
Proof.
  intros Hshape. apply nested_mapping_holds in Hshape. unfold configure.
  destruct (ensure_sections_runs config Hshape) as (c1 & -> & H1 & _).
  rewrite bind_of_Ok.
  destruct (gateway_settings_runs env c1 H1) as (c2 & -> & H2 & _).
  rewrite bind_of_Ok.
  destruct (channel_settings_runs env c2 H2) as (c3 & -> & H3 & _).
  rewrite bind_of_Ok.
  destruct (select_provider env) as [a k| |].
  - destruct (native_provider_runs env a k c3 H3) as (c4 & -> & _). eauto.
  - destruct (direct_provider_runs c3 H3) as (c4 & -> & _). eauto.
  - destruct (default_provider_runs c3 H3) as (c4 & -> & _). eauto.
Qed.

(** X23.  A configuration file that holds JSON and no object stops the script:
    on [null], a number, a string or a boolean the first lines of the [node]
    script throw a TypeError that nothing catches, and the gateway is not
    launched. *)
Theorem non_object_config_stops_the_script `{Builtins}
    (processes : list jsstring) (env : gmap string jsstring) (d : disk)
    (text : jsstring) (config : jsval) :
  JSON_parse text = Some config ->
  (forall props, config <> JObj props) ->
  (forall elems props, config <> JArr elems props) ->
  configure env config = Throw TypeError
  /\ forall command,
       start_moltbot processes env d (Some text) <> Exec command.
Proof.
  intros Hparse Hobject Harray.
  assert (Hthrows : configure env config = Throw TypeError).
  { destruct config as [| |b|n|s|elems props|props];
      try reflexivity; [now destruct (Harray elems props)
                       |now destruct (Hobject props)]. }
  split; [exact Hthrows|].
  intros command. unfold start_moltbot.
  replace (load_config (Some text)) with config
    by (unfold load_config; now rewrite Hparse).
  rewrite Hthrows.
  destruct (pgrep_gateway processes); [discriminate|].
  now destruct (restore d).
Qed.

Lemma non_object_config_witness :
  @configure ascii_engine native_env JNull = Throw TypeError.
Proof.
  apply (@non_object_config_stops_the_script ascii_engine [] native_env
           fresh_disk (js "null") JNull); [reflexivity| |]; discriminate.
Defined.

(** *** What the script leaves alone *)

Lemma diverge_head (a k : string) (p q : list string) :
  String.eqb a k = false -> diverge (a :: p) (k :: q) = true.
Proof. intros Hk. cbn [diverge]. now rewrite Hk. Qed.

Lemma diverge_same (a : string) (p q : list string) :
  diverge (a :: p) (a :: q) = diverge p q.
Proof. cbn [diverge]. now rewrite String.eqb_refl. Qed.

(** The steps of a run that succeeded, one equation each. *)
Ltac open_steps :=
  repeat match goal with
    | H : (if ?c then _ else _) = Ok _ |- _ => destruct c
    | H : mbind _ _ = Ok _ |- _ =>
        let c := fresh "config" in
        let Hc := fresh "Hstep" in
        apply bind_Ok in H as (c & Hc & H)
    | H : Ok ?a = Ok ?b |- _ =>
        first [is_var b; injection H as <- | is_var a; injection H as ->]
    end.

(** Back through the steps, for an entry under another top-level key. *)
Ltac other_key :=
  repeat first [ apply diverge_head; first [assumption | reflexivity]
               | rewrite diverge_same ].

Ltac step_back :=
  repeat match goal with
    | H : assign ?r ?p ?x = Ok ?r' |- context [entry ?r' ?q] =>
        rewrite (entry_assign_diverge p q r r' x H) by other_key
    | H : default_object ?r ?p = Ok ?r' |- context [entry ?r' ?q] =>
        rewrite (entry_default_diverge p q r r' H) by other_key
    | H : remove ?r ?p = Ok ?r' |- context [entry ?r' ?q] =>
        rewrite (entry_remove_diverge p q r r' H) by other_key
    end.

Lemma ensure_sections_frame `{Builtins} (config config' : jsval)
    (k : string) (rest : list string) :
  ensure_sections config = Ok config' ->
  String.eqb "agents" k = false -> String.eqb "gateway" k = false ->
  String.eqb "channels" k = false -> String.eqb "models" k = false ->
  entry config' (k :: rest) = entry config (k :: rest).
Proof.
  intros Hrun Hagents Hgateway Hchannels Hmodels.
  unfold ensure_sections in Hrun. open_steps. step_back. reflexivity.
Qed.

Lemma gateway_settings_frame `{Builtins} (env : gmap string jsstring)
    (config config' : jsval) (k : string) (rest : list string) :
  gateway_settings env config = Ok config' ->
  String.eqb "gateway" k = false ->
  entry config' (k :: rest) = entry config (k :: rest).
Proof.
  intros Hrun Hgateway.
  unfold gateway_settings in Hrun. open_steps; step_back; reflexivity.
Qed.

Lemma channel_settings_frame `{Builtins} (env : gmap string jsstring)
    (config config' : jsval) (k : string) (rest : list string) :
  channel_settings env config = Ok config' ->
  String.eqb "channels" k = false ->
  entry config' (k :: rest) = entry config (k :: rest).
Proof.
  intros Hrun Hchannels.
  unfold channel_settings in Hrun. open_steps; step_back; reflexivity.
Qed.

Lemma provider_frame `{Builtins} (env : gmap string jsstring)
    (config config' : jsval) (k : string) (rest : list string) :
  match select_provider env with
  | NativeGateway accountId apiKey => native_provider env accountId apiKey config
  | DirectAnthropic => direct_provider config
  | BuiltinDefault => default_provider config
  end = Ok config' ->
  String.eqb "agents" k = false -> String.eqb "models" k = false ->
  entry config' (k :: rest) = entry config (k :: rest).
Proof.
  intros Hrun Hagents Hmodels.
  destruct (select_provider env) as [a key| |];
    unfold native_provider, direct_provider, default_provider, models,
      providers in Hrun;
    cbv zeta in Hrun; open_steps; step_back; reflexivity.
Qed.

(** X24.  The script writes under [agents], [gateway], [channels] and [models]
    and nowhere else: whatever the configuration file holds under any other
    top-level key is in the configuration the script writes, unchanged. *)
Theorem other_sections_are_kept `{Builtins} (env : gmap string jsstring)
    (config config' : jsval) (k : string) (rest : list string) :
  configure env config = Ok config' ->
  ~ In k ["agents"; "gateway"; "channels"; "models"] ->
  entry config' (k :: rest) = entry config (k :: rest).
Proof.
  intros Hrun Hk.
  assert (Hagents : String.eqb "agents" k = false)
    by (apply String.eqb_neq; intros <-; apply Hk; simpl; tauto).
  assert (Hgateway : String.eqb "gateway" k = false)
    by (apply String.eqb_neq; intros <-; apply Hk; simpl; tauto).
  assert (Hchannels : String.eqb "channels" k = false)
    by (apply String.eqb_neq; intros <-; apply Hk; simpl; tauto).
  assert (Hmodels : String.eqb "models" k = false)
    by (apply String.eqb_neq; intros <-; apply Hk; simpl; tauto).
  unfold configure in Hrun.
  apply bind_Ok in Hrun as (c1 & H1 & Hrun).
  apply bind_Ok in Hrun as (c2 & H2 & Hrun).
  apply bind_Ok in Hrun as (c3 & H3 & Hrun).
  rewrite (provider_frame env c3 config' k rest Hrun Hagents Hmodels).
  rewrite (channel_settings_frame env c2 c3 k rest H3 Hchannels).
  rewrite (gateway_settings_frame env c1 c2 k rest H2 Hgateway).
  exact (ensure_sections_frame config c1 k rest H1
           Hagents Hgateway Hchannels Hmodels).
Qed.

Lemma other_sections_witness :
  exists config',
    @configure ascii_engine native_env custom_config = Ok config'
    /\ entry config' ["tools"; "web"; "enabled"] = Some (JBool true).
Proof.
  destruct (@configure_runs ascii_engine native_env custom_config eq_refl)
    as (config' & Hrun).
  exists config'. split; [exact Hrun|].
  rewrite (@other_sections_are_kept ascii_engine native_env custom_config
             config' "tools" ["web"; "enabled"] Hrun).
  - reflexivity.
  - simpl. intros [E|[E|[E|[E|[]]]]]; discriminate.
Defined.

(** *** The sections the script makes sure of *)

Lemma above_app (p : list string) (k : string) (rest : list string) :
  above p (p ++ k :: rest) = true.
Proof.
  induction p as [|a p IH]; [reflexivity|].
  cbn [app above]. now rewrite String.eqb_refl.
Qed.

Lemma default_keeps `{Builtins} (p q : list string) (r r' : jsval) :
  default_object r p = Ok r' ->
  (forall q', above p q' = true -> entry r' q' = entry r q') ->
  q <> [] -> ~ In q (p :: ancestors p) ->
  entry r' q = entry r q.
Proof.
  intros Hrun Hbelow Hq Hnot.
  destruct (paths_compare p q) as [Hd|[Ha|(rest & ->)]].
  - exact (entry_default_diverge p q r r' Hrun Hd).
  - exfalso. apply Hnot. right. now apply above_ancestors.
  - destruct rest as [|k rest].
    + exfalso. apply Hnot. left. now rewrite app_nil_r.
    + apply Hbelow, above_app.
Qed.

(** The first lines of the script change nothing but the sections they
    make: every other entry is what it was. *)
Lemma ensure_sections_keeps `{Builtins} (config : jsval) :
  holds config [] sections ->
  exists config',
    ensure_sections config = Ok config'
    /\ holds config' made_sure sections
    /\ forall q, q <> [] -> ~ In q made_sure ->
                 entry config' q = entry config q.
Proof.
  intros Hholds. unfold ensure_sections. run_script.
  eexists. split; [reflexivity|].
  split; [eapply holds_forget; [eassumption|reflexivity]|].
  intros q Hq Hnot.
  repeat match goal with
    | Hs : default_object ?r ?p = Ok ?r',
      Hb : forall q', above ?p q' = true -> entry ?r' q' = entry ?r q'
      |- context [entry ?r' q] =>
        rewrite (default_keeps p q r r' Hs Hb Hq)
          by (intros Hin; apply Hnot; cbn [ancestors map] in Hin;
              cbn [made_sure In] in *; tauto)
    end.
  reflexivity.
Qed.

(** The four parts of a run on a nested mapping. *)
Lemma configure_phases `{Builtins} (env : gmap string jsstring)
    (config : jsval) :
  nested_mapping config = true ->
  exists c1 c2 c3 c4,
    ensure_sections config = Ok c1
    /\ gateway_settings env c1 = Ok c2
    /\ channel_settings env c2 = Ok c3
    /\ match select_provider env with
       | NativeGateway accountId apiKey =>
           native_provider env accountId apiKey c3
       | DirectAnthropic => direct_provider c3
       | BuiltinDefault => default_provider c3
       end = Ok c4
    /\ configure env config = Ok c4
    /\ holds c1 made_sure sections
    /\ holds c2 made_sure sections
    /\ holds c3 made_sure sections
    /\ forall q, q <> [] -> ~ In q made_sure -> entry c1 q = entry config q.
Proof.
  intros Hshape. apply nested_mapping_holds in Hshape. unfold configure.
  destruct (ensure_sections_keeps config Hshape) as (c1 & E1 & H1 & K1).
  destruct (gateway_settings_runs env c1 H1) as (c2 & E2 & H2 & _).
  destruct (channel_settings_runs env c2 H2) as (c3 & E3 & H3 & _).
  exists c1, c2, c3. rewrite E1, bind_of_Ok, E2, bind_of_Ok, E3, bind_of_Ok.
  destruct (select_provider env) as [a k| |].
  - destruct (native_provider_runs env a k c3 H3) as (c4 & E4 & _).
    exists c4. now rewrite E4.
  - destruct (direct_provider_runs c3 H3) as (c4 & E4 & _).
    exists c4. now rewrite E4.
  - destruct (default_provider_runs c3 H3) as (c4 & E4 & _).
    exists c4. now rewrite E4.
Qed.

(** *** The gateway section *)

(** The entry a step has just written, or one an earlier step wrote. *)
Ltac written :=
  trace_back;
  first [ reflexivity
        | match goal with
          | Hw : forall rest, entry ?r (?p ++ rest) = _ |- entry ?r _ = _ =>
              exact (Hw [])
          end ].

Ltac eqb_facts Hk :=
  repeat match type of Hk with
    | ~ In ?k (?a :: ?l) =>
        let E := fresh "Hother" in
        assert (E : String.eqb a k = false)
          by (apply String.eqb_neq; intros <-; apply Hk; cbn [In]; tauto);
        assert (Hk' : ~ In k l) by (intros Hin; apply Hk; cbn [In]; tauto);
        clear Hk; rename Hk' into Hk
    end.

Lemma gateway_settings_sets `{Builtins} (env : gmap string jsstring)
    (config : jsval) :
  holds config made_sure sections ->
  exists config',
    gateway_settings env config = Ok config'
    /\ entry config' ["gateway"; "port"] = Some (JNum (js "18789"))
    /\ entry config' ["gateway"; "mode"] = Some (JStr (js "local"))
    /\ entry config' ["gateway"; "trustedProxies"]
       = Some (JArr [JStr (js "10.1.0.0")] [])
    /\ entry config' ["gateway"; "auth"; "token"]
       = (if is_set (env !! "CLAWDBOT_GATEWAY_TOKEN")
          then Some (JStr (default [] (env !! "CLAWDBOT_GATEWAY_TOKEN")))
          else entry config ["gateway"; "auth"; "token"])
    /\ entry config' ["gateway"; "controlUi"; "allowInsecureAuth"]
       = (if is_lit (env !! "CLAWDBOT_DEV_MODE") "true"
          then Some (JBool true)
          else entry config ["gateway"; "controlUi"; "allowInsecureAuth"])
    /\ forall k rest,
         ~ In k ["port"; "mode"; "trustedProxies"; "auth"; "controlUi"] ->
         entry config' ("gateway" :: k :: rest)
         = entry config ("gateway" :: k :: rest).
Proof.
  intros Hholds. unfold gateway_settings. do 3 run_assign.
  destruct (is_set (env !! "CLAWDBOT_GATEWAY_TOKEN")),
    (is_lit (env !! "CLAWDBOT_DEV_MODE") "true");
    cbv beta iota; run_script; rewrite ?bind_of_Ok; run_script;
    (eexists; split; [reflexivity|]);
    (split; [written|]); (split; [written|]); (split; [written|]);
    (split; [written|]); (split; [written|]);
    intros k rest Hk; eqb_facts Hk; step_back; reflexivity.
Qed.

(** X25.  The settings of the gateway are the script's, whatever the file held:
    port 18789, mode [local], the trusted proxy. The token of the file is
    replaced when [CLAWDBOT_GATEWAY_TOKEN] is set and stays in the file when it
    is not; [allowInsecureAuth] is switched on when [CLAWDBOT_DEV_MODE] is
    ['true'] and is otherwise left as the file has it, never switched off. Every
    other key of the gateway section is kept. *)
Theorem gateway_section `{Builtins} (env : gmap string jsstring)
    (config : jsval) :
  nested_mapping config = true ->
  exists config',
    configure env config = Ok config'
    /\ entry config' ["gateway"; "port"] = Some (JNum (js "18789"))
    /\ entry config' ["gateway"; "mode"] = Some (JStr (js "local"))
    /\ entry config' ["gateway"; "trustedProxies"]
       = Some (JArr [JStr (js "10.1.0.0")] [])
    /\ entry config' ["gateway"; "auth"; "token"]
       = (if is_set (env !! "CLAWDBOT_GATEWAY_TOKEN")
          then Some (JStr (default [] (env !! "CLAWDBOT_GATEWAY_TOKEN")))
          else entry config ["gateway"; "auth"; "token"])
    /\ entry config' ["gateway"; "controlUi"; "allowInsecureAuth"]
       = (if is_lit (env !! "CLAWDBOT_DEV_MODE") "true"
          then Some (JBool true)
          else entry config ["gateway"; "controlUi"; "allowInsecureAuth"])
    /\ forall k rest,
         ~ In k ["port"; "mode"; "trustedProxies"; "auth"; "controlUi"] ->
         entry config' ("gateway" :: k :: rest)
         = entry config ("gateway" :: k :: rest).
Proof.
  intros Hshape.
  destruct (configure_phases env config Hshape)
    as (c1 & c2 & c3 & c4 & E1 & E2 & E3 & E4 & Hrun & H1 & _ & _ & K1).
  destruct (gateway_settings_sets env c1 H1)
    as (c2' & E2' & Hport & Hmode & Hproxies & Htoken & Hdev & Hkept).
  rewrite E2 in E2'. injection E2' as <-.
  assert (Hlater : forall rest,
            entry c4 ("gateway" :: rest) = entry c2 ("gateway" :: rest)).
  { intros rest.
    rewrite (provider_frame env c3 c4 "gateway" rest E4 eq_refl eq_refl).
    exact (channel_settings_frame env c2 c3 "gateway" rest E3 eq_refl). }
  assert (Hearlier : forall k rest,
            entry c1 ("gateway" :: k :: rest)
            = entry config ("gateway" :: k :: rest)).
  { intros k rest. apply K1; [discriminate|].
    cbn [made_sure In]. intros Hin.
    repeat destruct Hin as [Hin|Hin]; try discriminate; contradiction. }
  exists c4. split; [exact Hrun|]. rewrite !Hlater.
  rewrite <- !Hearlier.
  split; [exact Hport|]. split; [exact Hmode|]. split; [exact Hproxies|].
  split; [exact Htoken|]. split; [exact Hdev|].
  intros k rest Hk. rewrite Hlater, <- Hearlier. now apply Hkept.
Qed.

Lemma gateway_section_witness :
  exists config',
    @configure ascii_engine native_env custom_config = Ok config'
    /\ entry config' ["gateway"; "auth"; "token"] = Some (JStr (js "old-token"))
    /\ entry config' ["gateway"; "bind"] = Some (JStr (js "loopback")).
Proof.
  destruct (@gateway_section ascii_engine native_env custom_config eq_refl)
    as (config' & Hrun & _ & _ & _ & Htoken & _ & Hkept).
  exists config'. split; [exact Hrun|]. split; [exact Htoken|].
  rewrite (Hkept "bind" []); [reflexivity|].
  simpl. intros [E|[E|[E|[E|[E|[]]]]]]; discriminate.
Defined.

(** *** The channels *)

Lemma channel_settings_sets `{Builtins} (env : gmap string jsstring)
    (config : jsval) :
  holds config made_sure sections ->
  exists config',
    channel_settings env config = Ok config'
    /\ (if is_set (env !! "TELEGRAM_BOT_TOKEN")
        then entry config' ["channels"; "telegram"; "botToken"]
             = Some (JStr (default [] (env !! "TELEGRAM_BOT_TOKEN")))
             /\ entry config' ["channels"; "telegram"; "enabled"]
                = Some (JBool true)
             /\ entry config' ["channels"; "telegram"; "dmPolicy"]
                = Some (JStr (env_or_lit (env !! "TELEGRAM_DM_POLICY") "pairing"))
             /\ entry config' ["channels"; "telegram"; "dm"; "policy"]
                = entry config ["channels"; "telegram"; "dm"; "policy"]
        else forall rest,
               entry config' ("channels" :: "telegram" :: rest)
               = entry config ("channels" :: "telegram" :: rest))
    /\ (if is_set (env !! "DISCORD_BOT_TOKEN")
        then entry config' ["channels"; "discord"; "token"]
             = Some (JStr (default [] (env !! "DISCORD_BOT_TOKEN")))
             /\ entry config' ["channels"; "discord"; "enabled"]
                = Some (JBool true)
             /\ entry config' ["channels"; "discord"; "dm"; "policy"]
                = Some (JStr (env_or_lit (env !! "DISCORD_DM_POLICY") "pairing"))
             /\ entry config' ["channels"; "discord"; "dmPolicy"]
                = entry config ["channels"; "discord"; "dmPolicy"]
        else forall rest,
               entry config' ("channels" :: "discord" :: rest)
               = entry config ("channels" :: "discord" :: rest))
    /\ (if is_set (env !! "SLACK_BOT_TOKEN") && is_set (env !! "SLACK_APP_TOKEN")
        then entry config' ["channels"; "slack"; "botToken"]
             = Some (JStr (default [] (env !! "SLACK_BOT_TOKEN")))
             /\ entry config' ["channels"; "slack"; "appToken"]
                = Some (JStr (default [] (env !! "SLACK_APP_TOKEN")))
             /\ entry config' ["channels"; "slack"; "enabled"]
                = Some (JBool true)
        else forall rest,
               entry config' ("channels" :: "slack" :: rest)
               = entry config ("channels" :: "slack" :: rest)).
Proof.
  intros Hholds. unfold channel_settings.
  destruct (is_set (env !! "TELEGRAM_BOT_TOKEN")),
    (is_set (env !! "DISCORD_BOT_TOKEN")),
    (is_set (env !! "SLACK_BOT_TOKEN") && is_set (env !! "SLACK_APP_TOKEN"));
    cbv beta iota; run_script; rewrite ?bind_of_Ok; run_script;
    rewrite ?bind_of_Ok; run_script;
    (eexists; split; [reflexivity|]);
    repeat split;
    first [ written | intros rest; step_back; reflexivity ].
Qed.

Lemma channels_after_configure `{Builtins} (env : gmap string jsstring)
    (config : jsval) :
  nested_mapping config = true ->
  exists c2 config',
    configure env config = Ok config'
    /\ holds c2 made_sure sections
    /\ (forall name rest,
          entry c2 ("channels" :: name :: rest)
          = entry config ("channels" :: name :: rest))
    /\ exists c3,
         channel_settings env c2 = Ok c3
         /\ forall rest,
              entry config' ("channels" :: rest) = entry c3 ("channels" :: rest).
Proof.
  intros Hshape.
  destruct (configure_phases env config Hshape)
    as (c1 & c2 & c3 & c4 & E1 & E2 & E3 & E4 & Hrun & _ & H2 & _ & K1).
  exists c2, c4. split; [exact Hrun|]. split; [exact H2|]. split.
  - intros name rest.
    rewrite (gateway_settings_frame env c1 c2 "channels" _ E2 eq_refl).
    apply K1; [discriminate|].
    cbn [made_sure In]. intros Hin.
    repeat destruct Hin as [Hin|Hin]; try discriminate; contradiction.
  - exists c3. split; [exact E3|]. intros rest.
    exact (provider_frame env c3 c4 "channels" rest E4 eq_refl eq_refl).
Qed.

(** X26.  A channel whose bot token is set is switched on with that token, and
    its DM policy is the one given or [pairing]: written as [dmPolicy] of the
    channel for Telegram, and as [policy] of the channel's [dm] for Discord; the
    script does not write the other of the two places. A channel whose token is
    not set is left as the file has it: the script does not switch it off. *)
Theorem channels_follow_their_tokens `{Builtins} (env : gmap string jsstring)
    (config : jsval) :
  nested_mapping config = true ->
  exists config',
    configure env config = Ok config'
    /\ (if is_set (env !! "TELEGRAM_BOT_TOKEN")
        then entry config' ["channels"; "telegram"; "botToken"]
             = Some (JStr (default [] (env !! "TELEGRAM_BOT_TOKEN")))
             /\ entry config' ["channels"; "telegram"; "enabled"]
                = Some (JBool true)
             /\ entry config' ["channels"; "telegram"; "dmPolicy"]
                = Some (JStr (env_or_lit (env !! "TELEGRAM_DM_POLICY") "pairing"))
             /\ entry config' ["channels"; "telegram"; "dm"; "policy"]
                = entry config ["channels"; "telegram"; "dm"; "policy"]
        else forall rest,
               entry config' ("channels" :: "telegram" :: rest)
               = entry config ("channels" :: "telegram" :: rest))
    /\ (if is_set (env !! "DISCORD_BOT_TOKEN")
        then entry config' ["channels"; "discord"; "token"]
             = Some (JStr (default [] (env !! "DISCORD_BOT_TOKEN")))
             /\ entry config' ["channels"; "discord"; "enabled"]
                = Some (JBool true)
             /\ entry config' ["channels"; "discord"; "dm"; "policy"]
                = Some (JStr (env_or_lit (env !! "DISCORD_DM_POLICY") "pairing"))
             /\ entry config' ["channels"; "discord"; "dmPolicy"]
                = entry config ["channels"; "discord"; "dmPolicy"]
        else forall rest,
               entry config' ("channels" :: "discord" :: rest)
               = entry config ("channels" :: "discord" :: rest)).
Proof.
  intros Hshape.
  destruct (channels_after_configure env config Hshape)
    as (c2 & config' & Hrun & H2 & Hearlier & c3 & E3 & Hlater).
  destruct (channel_settings_sets env c2 H2)
    as (c3' & E3' & Htelegram & Hdiscord & _).
  rewrite E3 in E3'. injection E3' as <-.
  exists config'. split; [exact Hrun|]. split.
  - destruct (is_set (env !! "TELEGRAM_BOT_TOKEN")).
    + rewrite !Hlater, <- !Hearlier. exact Htelegram.
    + intros rest. rewrite Hlater, <- Hearlier. apply Htelegram.
  - destruct (is_set (env !! "DISCORD_BOT_TOKEN")).
    + rewrite !Hlater, <- !Hearlier. exact Hdiscord.
    + intros rest. rewrite Hlater, <- Hearlier. apply Hdiscord.
Qed.

Lemma channels_witness :
  exists config',
    @configure ascii_engine native_env custom_config = Ok config'
    /\ entry config' ["channels"; "telegram"; "botToken"]
       = Some (JStr (js "old-bot")).
Proof.
  destruct (@channels_follow_their_tokens ascii_engine native_env
              custom_config eq_refl)
    as (config' & Hrun & Htelegram & _).
  exists config'. split; [exact Hrun|].
  exact (Htelegram ["botToken"]).
Defined.

(** X27.  Slack is configured only with both of its tokens: with
    [SLACK_BOT_TOKEN] and [SLACK_APP_TOKEN] set the channel is switched on with
    the two; with one of them missing nothing of the Slack section is written,
    and it stays as the file has it. *)
Theorem slack_needs_both_tokens `{Builtins} (env : gmap string jsstring)
    (config : jsval) :
  nested_mapping config = true ->
  exists config',
    configure env config = Ok config'
    /\ (is_set (env !! "SLACK_BOT_TOKEN") = true ->
        is_set (env !! "SLACK_APP_TOKEN") = true ->
        entry config' ["channels"; "slack"; "botToken"]
        = Some (JStr (default [] (env !! "SLACK_BOT_TOKEN")))
        /\ entry config' ["channels"; "slack"; "appToken"]
           = Some (JStr (default [] (env !! "SLACK_APP_TOKEN")))
        /\ entry config' ["channels"; "slack"; "enabled"] = Some (JBool true))
    /\ (is_set (env !! "SLACK_BOT_TOKEN") = false
        \/ is_set (env !! "SLACK_APP_TOKEN") = false ->
        forall rest,
          entry config' ("channels" :: "slack" :: rest)
          = entry config ("channels" :: "slack" :: rest)).
Proof.
  intros Hshape.
  destruct (channels_after_configure env config Hshape)
    as (c2 & config' & Hrun & H2 & Hearlier & c3 & E3 & Hlater).
  destruct (channel_settings_sets env c2 H2) as (c3' & E3' & _ & _ & Hslack).
  rewrite E3 in E3'. injection E3' as <-.
  exists config'. split; [exact Hrun|]. split.
  - intros Hbot Happ. rewrite Hbot, Happ in Hslack. cbn [andb] in Hslack.
    rewrite !Hlater. exact Hslack.
  - intros Hmissing.
    assert (Hboth : is_set (env !! "SLACK_BOT_TOKEN")
                    && is_set (env !! "SLACK_APP_TOKEN") = false).
    { destruct Hmissing as [-> | ->]; [reflexivity|apply andb_false_r]. }
    rewrite Hboth in Hslack. intros rest.
    rewrite Hlater, <- Hearlier. apply Hslack.
Qed.

Lemma slack_witness :
  exists config',
    @configure ascii_engine slack_env (JObj []) = Ok config'
    /\ entry config' ["channels"; "slack"] = None.
Proof.
  destruct (@slack_needs_both_tokens ascii_engine slack_env (JObj []) eq_refl)
    as (config' & Hrun & _ & Hmissing).
  exists config'. split; [exact Hrun|].
  exact (Hmissing (or_intror eq_refl) []).
Defined.

(** *** The entry of the native provider *)

Lemma str_eqb_other (k name : string) :
  String.eqb name k = false -> str_eqb (js k) (js name) = false.
Proof.
  intros Hk. rewrite str_eqb_js. rewrite String.eqb_sym. exact Hk.
Qed.

Lemma native_provider_sets `{Builtins} (env : gmap string jsstring)
    (accountId apiKey : jsstring) (config : jsval) :
  holds config made_sure sections ->
  let here := ["models"; "providers"; "cloudflare-ai-gateway"] in
  exists config',
    native_provider env accountId apiKey config = Ok config'
    /\ entry config' (here ++ ["accountId"]) = Some (JStr accountId)
    /\ entry config' (here ++ ["gatewayId"])
       = Some (JStr (env_or_lit (env !! "CLOUDFLARE_AI_GATEWAY_GATEWAY_ID")
                       "moltbot-gateway"))
    /\ entry config' (here ++ ["apiKey"]) = Some (JStr apiKey)
    /\ match env !! "CF_AIG_AUTHORIZATION" with
       | Some (c :: t) =>
           exists value,
             entry config' (here ++ ["headers"; "cf-aig-authorization"])
             = Some (JStr value)
             /\ startsWith value (js "Bearer ") = true
             /\ (value = c :: t \/ value = js "Bearer " ++ c :: t)
       | _ => entry config' (here ++ ["headers"]) = None
       end
    /\ forall key rest,
         ~ In key ["accountId"; "gatewayId"; "apiKey"; "headers"] ->
         entry config' (here ++ key :: rest) = None.
Proof.
  intros Hholds. cbv zeta. unfold native_provider. cbv zeta.
  do 2 run_remove. run_assign.
  assert (Hid : entry config2
                  ["models"; "providers"; "cloudflare-ai-gateway"; "accountId"]
                = Some (JStr accountId)) by exact (Hwritten ["accountId"]).
  assert (Hgateway :
            entry config2
              ["models"; "providers"; "cloudflare-ai-gateway"; "gatewayId"]
            = Some (JStr (env_or_lit (env !! "CLOUDFLARE_AI_GATEWAY_GATEWAY_ID")
                            "moltbot-gateway")))
    by exact (Hwritten ["gatewayId"]).
  assert (Hkey : entry config2
                   ["models"; "providers"; "cloudflare-ai-gateway"; "apiKey"]
                 = Some (JStr apiKey)) by exact (Hwritten ["apiKey"]).
  assert (Hheaders : entry config2
                       ["models"; "providers"; "cloudflare-ai-gateway"; "headers"]
                     = None) by exact (Hwritten ["headers"]).
  assert (Hothers : forall key rest,
            ~ In key ["accountId"; "gatewayId"; "apiKey"; "headers"] ->
            entry config2
              ("models" :: "providers" :: "cloudflare-ai-gateway" :: key :: rest)
            = None).
  { intros key rest Hk. eqb_facts Hk.
    etransitivity; [exact (Hwritten (key :: rest))|]. cbn [entry assoc].
    now rewrite !str_eqb_other by assumption. }
  clear Hwritten. cbn [app].
  destruct (env !! "CF_AIG_AUTHORIZATION") as [[|c t]|]; cbn [is_set];
    cbv beta iota; run_script; rewrite ?bind_of_Ok; run_script;
    (eexists; split; [reflexivity|]);
    (split; [unfold models; trace_back; exact Hid|]);
    (split; [unfold models; trace_back; exact Hgateway|]);
    (split; [unfold models; trace_back; exact Hkey|]);
    (split;
     [|intros key rest Hk; pose proof (Hothers key rest Hk) as Hnone;
       eqb_facts Hk; unfold models; step_back; exact Hnone]).
  - unfold models; trace_back; exact Hheaders.
  - eexists. split; [|split].
    + unfold models. trace_back.
      match goal with
      | Hw : forall rest, entry ?r (_ ++ rest) = _ |- entry ?r _ = _ =>
          exact (Hw ["cf-aig-authorization"])
      end.
    + cbn [from_option id].
      now destruct (startsWith (c :: t) (js "Bearer ")) eqn:E.
    + cbn [from_option id].
      destruct (startsWith (c :: t) (js "Bearer ")); tauto.
  - unfold models; trace_back; exact Hheaders.
Qed.

(** X28.  With the native gateway chosen, its provider entry is written anew on
    every start: the account id, the gateway id ([moltbot-gateway] unless
    [CLOUDFLARE_AI_GATEWAY_GATEWAY_ID] gives one), the API key, and, when
    [CF_AIG_AUTHORIZATION] is set, the header [cf-aig-authorization], whose
    value starts with [Bearer ]: the token itself if it does already, and the
    token after [Bearer ] if not. Whatever else the file held under that
    provider is gone, its headers too when [CF_AIG_AUTHORIZATION] is not set. *)
Theorem native_entry_is_rebuilt `{Builtins} (env : gmap string jsstring)
    (config : jsval) (accountId apiKey : jsstring) :
  nested_mapping config = true ->
  select_provider env = NativeGateway accountId apiKey ->
  let here := ["models"; "providers"; "cloudflare-ai-gateway"] in
  exists config',
    configure env config = Ok config'
    /\ entry config' (here ++ ["accountId"]) = Some (JStr accountId)
    /\ entry config' (here ++ ["gatewayId"])
       = Some (JStr (env_or_lit (env !! "CLOUDFLARE_AI_GATEWAY_GATEWAY_ID")
                       "moltbot-gateway"))
    /\ entry config' (here ++ ["apiKey"]) = Some (JStr apiKey)
    /\ match env !! "CF_AIG_AUTHORIZATION" with
       | Some (c :: t) =>
           exists value,
             entry config' (here ++ ["headers"; "cf-aig-authorization"])
             = Some (JStr value)
             /\ startsWith value (js "Bearer ") = true
             /\ (value = c :: t \/ value = js "Bearer " ++ c :: t)
       | _ => entry config' (here ++ ["headers"]) = None
       end
    /\ forall key rest,
         ~ In key ["accountId"; "gatewayId"; "apiKey"; "headers"] ->
         entry config' (here ++ key :: rest) = None.
Proof.
  intros Hshape Hselect. cbv zeta.
  destruct (configure_phases env config Hshape)
    as (c1 & c2 & c3 & c4 & _ & _ & _ & E4 & Hrun & _ & _ & H3 & _).
  rewrite Hselect in E4.
  destruct (native_provider_sets env accountId apiKey c3 H3)
    as (c4' & E4' & Hentry).
  rewrite E4 in E4'. injection E4' as <-.
  exists c4. split; [exact Hrun|exact Hentry].
Qed.

Lemma native_entry_witness :
  exists config',
    @configure ascii_engine bearer_env stale_provider_config = Ok config'
    /\ entry config'
         ["models"; "providers"; "cloudflare-ai-gateway"; "baseUrl"] = None
    /\ entry config'
         ["models"; "providers"; "cloudflare-ai-gateway"; "gatewayId"]
       = Some (JStr (js "moltbot-gateway")).
Proof.
  destruct (@native_entry_is_rebuilt ascii_engine bearer_env
              stale_provider_config (js "account") (js "gateway-key")
              eq_refl eq_refl)
    as (config' & Hrun & _ & Hgateway & _ & _ & Hothers).
  exists config'. split; [exact Hrun|]. split; [|exact Hgateway].
  apply (Hothers "baseUrl" []).
  simpl. intros [E|[E|[E|[E|[]]]]]; discriminate.
Defined.

Lemma configure_sets_primary `{Builtins} (env : gmap string jsstring)
    (config : jsval) :
  nested_mapping config = true ->
  exists final model,
    configure env config = Ok final /\ entry final primary = Some (JStr model).
Proof.
  intros Hshape.
  destruct (configure_phases env config Hshape)
    as (c1 & c2 & c3 & c4 & _ & _ & _ & Hprovider & Hrun & _ & _ & H3 & _).
  exists c4. destruct (select_provider env) as [a k| |].
  - destruct (native_provider_runs env a k c3 H3) as (c & Hc & Hprimary & _).
    rewrite Hc in Hprovider. inversion Hprovider; subst c. eauto.
  - destruct (direct_provider_runs c3 H3) as (c & Hc & Hprimary & _).
    rewrite Hc in Hprovider. inversion Hprovider; subst c. eauto.
  - destruct (default_provider_runs c3 H3) as (c & Hc & Hprimary & _).
    rewrite Hc in Hprovider. inversion Hprovider; subst c. eauto.
Qed.

Lemma stringify_of_mapping `{Builtins} (v : jsval) (k : string)
    (p : list string) (x : jsval) :
  entry v (k :: p) = Some x ->
  exists text, JSON_stringify_spaced v 2 = Some text.
Proof.
  intros Hentry. unfold JSON_stringify_spaced.
  destruct v; try discriminate Hentry; eexists; reflexivity.
Qed.

Lemma find_unlink_eq name entries : find name (unlink name entries) = None.
Proof.
  induction entries as [|[n x] entries IH]; [reflexivity|].
  unfold unlink in *. cbn [List.filter fst].
  destruct (String.eqb_spec name n) as [->|Hne]; cbn [negb]; [exact IH|].
  cbn [find]. destruct (String.eqb_spec name n); [contradiction|exact IH].
Qed.

Lemma find_unlink_ne name n entries :
  n <> name -> find n (unlink name entries) = find n entries.
Proof.
  intros Hne. induction entries as [|[m x] entries IH]; [reflexivity|].
  unfold unlink in *. cbn [List.filter fst find].
  destruct (String.eqb_spec name m) as [->|Hnm]; cbn [negb].
  - destruct (String.eqb_spec n m); [contradiction|exact IH].
  - cbn [find]. now rewrite IH.
Qed.

Lemma remove_lock_spec (d : disk) :
  is_file (find "gateway.lock" (config (remove_lock d))) = false
  /\ backup (remove_lock d) = backup d
  /\ forall name, name <> "gateway.lock" ->
       find name (config (remove_lock d)) = find name (config d).
Proof.
  unfold remove_lock.
  destruct (find "gateway.lock" (config d)) as [[c|below]|] eqn:E;
    cbn [config backup]; rewrite ?E, ?find_unlink_eq; repeat split; auto.
  intros name Hne. now apply find_unlink_ne.
Qed.

(** X22.  When no gateway process is found and the restore does not fail, the
    script ends with status 1 if the configuration file cannot be made, and
    also if [clawdbot.json] is a directory, which [writeFileSync] refuses.
    Otherwise, when the configuration [node] starts from (the file parsed, or
    [{}] when it does not parse) is a nested mapping, the script reaches
    [exec] and launches the gateway with the command its environment gives;
    [clawdbot.json] then holds [JSON.stringify(config, null, 2)] of the
    configuration [node] ended with, no file [gateway.lock] is left, and the
    other files are what the restore left. *)
Theorem script_launches_the_gateway `{Builtins} `{Codec}
    (processes : list jsstring) (env : gmap string jsstring)
    (template : option node) (d d1 : disk) :
  pgrep_gateway processes = false ->
  restore d = Some d1 ->
  (ensure_config_file template d1 = None ->
   start_script processes env template d = Stopped 1)
  /\ forall d2,
      ensure_config_file template d1 = Some d2 ->
      (is_dir (find "clawdbot.json" (config d2)) = true ->
       start_script processes env template d = Stopped 1)
      /\ (is_dir (find "clawdbot.json" (config d2)) = false ->
          nested_mapping (load_config (read_config d2)) = true ->
          exists final text d3,
            configure env (load_config (read_config d2)) = Ok final
            /\ JSON_stringify_spaced final 2 = Some text
            /\ start_script processes env template d
               = Launched (gateway_command env) d3
            /\ find "clawdbot.json" (config d3)
               = Some (File (utf8_encode text))
            /\ is_file (find "gateway.lock" (config d3)) = false
            /\ backup d3 = backup d2
            /\ forall name,
                 name <> "clawdbot.json" -> name <> "gateway.lock" ->
                 find name (config d3) = find name (config d2)).
Proof.
  intros Hnone Hrestore. unfold start_script. rewrite Hnone, Hrestore.
  split; [now intros ->|]. intros d2 ->. split.
  - intros Hdir.
    assert (Hread : read_config d2 = None).
    { unfold read_config.
      now destruct (find "clawdbot.json" (config d2)) as [[c|below]|]. }
    rewrite Hread.
    destruct (configure_sets_primary env (load_config None) eq_refl)
      as (final & model & -> & Hprimary).
    unfold write_config.
    destruct (JSON_stringify_spaced final 2); [|reflexivity].
    now destruct (find "clawdbot.json" (config d2)) as [[c|below]|].
  - intros Hnodir Hshape.
    destruct (configure_sets_primary env _ Hshape)
      as (final & model & Hfinal & Hprimary).
    destruct (stringify_of_mapping final _ _ _ Hprimary) as (text & Htext).
    rewrite Hfinal. unfold write_config. rewrite Htext.
    set (d3 := {| backup := backup d2;
                  config := put "clawdbot.json" (File (utf8_encode text))
                              (config d2) |}).
    assert (Hwrite : match find "clawdbot.json" (config d2) with
                     | Some (Dir _) => None
                     | _ => Some d3
                     end = Some d3).
    { now destruct (find "clawdbot.json" (config d2)) as [[c|below]|]. }
    rewrite Hwrite. destruct (remove_lock_spec d3) as (Hlock & Hbackup & Hrest).
    exists final, text, (remove_lock d3).
    split; [reflexivity|]. split; [exact Htext|]. split; [reflexivity|].
    split; [|split; [exact Hlock|split; [exact Hbackup|]]].
    + rewrite Hrest by discriminate. apply RestoreFacts.find_put_eq.
    + intros name Hne Hne'. rewrite Hrest by assumption.
      now apply RestoreFacts.find_put_ne.
Qed.

Lemma script_launches_witness :
  exists d3,
    @start_script ascii_engine ascii_codec [js "sleep 60"] native_env None
      fresh_disk
    = Launched (gateway_command native_env) d3.
Proof.
  destruct (@script_launches_the_gateway ascii_engine ascii_codec
              [js "sleep 60"] native_env None fresh_disk _ eq_refl eq_refl)
    as [_ Hlaunch].
  destruct (Hlaunch _ eq_refl) as [_ Hrun].
  destruct (Hrun eq_refl eq_refl) as (final & text & d3 & _ & _ & Hstart & _).
  exists d3. exact Hstart.
Defined.


(** [start_moltbot] is the script without its files.  On the text the script
    reads, an exit of [start_moltbot] is the exit of the script, and where
    [start_moltbot] launches, the script launches the same command or stops
    with status 1. *)
Lemma start_moltbot_abridges `{Builtins} `{Codec} (processes : list jsstring)
    (env : gmap string jsstring) (template : option node) (d : disk)
    (text : option jsstring) :
  (forall d1 d2,
      restore d = Some d1 -> ensure_config_file template d1 = Some d2 ->
      read_config d2 = text) ->
  match start_moltbot processes env d text with
  | Exit code => start_script processes env template d = Stopped code
  | Exec command =>
      start_script processes env template d = Stopped 1
      \/ exists d3, start_script processes env template d = Launched command d3
  end.
Proof.
  intros Htext. unfold start_moltbot, start_script.
  destruct (pgrep_gateway processes); [reflexivity|].
  destruct (restore d) as [d1|]; [|reflexivity].
  destruct (ensure_config_file template d1) as [d2|] eqn:E.
  - rewrite (Htext d1 d2 eq_refl E).
    destruct (configure env (load_config text)) as [final|]; [|reflexivity].
    destruct (write_config final d2) as [d3|]; [right; eauto|now left].
  - destruct (configure env (load_config text)); [now left|reflexivity].
Qed.

End ScriptFacts.

(** ** The single flight of the start *)

Module SupervisorFacts.
Import JS Startup Supervisor Samples.
Local Open Scope string_scope.















End SupervisorFacts.
